(** * Market-analysis dashboard: data synthesizer, filter engine, pivots,
      derived metrics and bubble layout

    A shallow embedding of [src/utils/dataGenerator.ts] and of the
    analytical helpers of [src/pages/MarketAnalysis.tsx], followed by the
    properties proved about them.

    Number model.  A JavaScript [number] is read as an exact number:
    - integers that the code only ever counts with (the seed of the
      pseudo-random sequence, [recordId], [year]) are [Z];
    - measures that are only added, multiplied, divided and compared are
      rationals [Q] (so every definition below that uses them computes);
    - the bubble chart, which calls [Math.pow], [Math.sqrt], [Math.atan2],
      [Math.cos] and [Math.sin], is read over the reals [R].
    IEEE-754 rounding, infinities and NaN are outside the model. *)

From Stdlib Require Import Floats.
From Stdlib Require Import Ascii ZArith QArith Qround Qabs Reals Lra Lia.
From Stdlib Require Qcanon.
From stdpp Require Import gmap strings list pretty sorting.

Set Warnings "-inexact-float".
Local Open Scope Z_scope.

(* ===================================================================== *)
(** * Part I.  The embedding                                              *)
(* ===================================================================== *)

(** ** JavaScript runtime pieces used by both source files *)
Module JS.

(** Outcome of evaluating a piece of code: a value, or a thrown exception. *)
Inductive Completion (A : Type) : Type :=
| Normal (a : A)
| Throw (msg : string).
Arguments Normal {A} a.
Arguments Throw {A} msg.

(** [obj[key]] on an object literal used as a table. *)
Fixpoint obj_get {V : Type} (obj : list (string * V)) (key : string) : option V :=
  match obj with
  | [] => None
  | (k, v) :: rest => if String.eqb k key then Some v else obj_get rest key
  end.

(** [arr[i]] for an integral index: [undefined] (here [None]) out of range. *)
Definition arr_get {A : Type} (arr : list A) (i : Z) : option A :=
  if (0 <=? i)%Z then arr !! Z.to_nat i else None.

(** [Math.floor] and [Math.round] (round half up) on exact numbers. *)
Definition Math_floor (x : Q) : Z := Qfloor x.
Definition Math_round (x : Q) : Z := Qfloor (x + (1 # 2))%Q.

(** [x || d] for a possibly missing number: [undefined] and [0] are falsy. *)
Definition num_or (x : option Q) (d : Q) : Q :=
  match x with
  | Some v => if Qeq_bool v 0 then d else v
  | None => d
  end.

(** The default comparison of [Array.prototype.sort]: code-unit order of the
    strings (byte order on the ASCII strings used here). *)
Definition str_le (a b : string) : Prop := String.leb a b = true.

#[global] Instance str_le_dec (a b : string) : Decision (str_le a b).
Proof. unfold str_le. apply _. Defined.

(** [[...xs].sort()] on strings.  The sort is stable, and merge sort is. *)
Definition sort_strings (xs : list string) : list string :=
  merge_sort str_le xs.

(** [[...new Set(xs)]]: the distinct elements in order of first occurrence. *)
Fixpoint set_of {A : Type} `{EqDecision A} (xs : list A) (seen : list A) : list A :=
  match xs with
  | [] => []
  | x :: rest =>
      if decide (x ∈ seen) then set_of rest seen
      else x :: set_of rest (x :: seen)
  end.

Definition distinct {A : Type} `{EqDecision A} (xs : list A) : list A :=
  set_of xs [].

(** [String(n)] for an integral number: its decimal numeral. *)
Definition String_of_int (n : Z) : string := pretty n.

End JS.

(** ** [src/utils/dataGenerator.ts] *)
Module DataGenerator.
Import JS.

(** A record of the data set.  Its measures are numbers: the generator's
    are modelled as exact decimals, the page computes on binary64 values. *)
Record ShovelMarketData_ (num : Type) : Type := mkRecord {
  recordId : Z;
  year : Z;
  region : string;
  country : string;
  serviceType : string;
  endUserType : string;
  deliveryChannel : string;
  businessModel : string;
  productType : string;
  bladeMaterial : string;
  handleLength : string;
  application : string;
  endUser : string;
  distributionChannelType : string;
  distributionChannel : string;
  brand : string;
  company : string;
  price : num;
  volumeUnits : num;
  qty : num;
  revenue : num;
  marketValueUsd : num;
  value : num;
  marketSharePct : num;
  cagr : num;
  yoyGrowth : num
}.
Arguments mkRecord {num}.
Arguments recordId {num} _.
Arguments year {num} _.
Arguments region {num} _.
Arguments country {num} _.
Arguments serviceType {num} _.
Arguments endUserType {num} _.
Arguments deliveryChannel {num} _.
Arguments businessModel {num} _.
Arguments productType {num} _.
Arguments bladeMaterial {num} _.
Arguments handleLength {num} _.
Arguments application {num} _.
Arguments endUser {num} _.
Arguments distributionChannelType {num} _.
Arguments distributionChannel {num} _.
Arguments brand {num} _.
Arguments company {num} _.
Arguments price {num} _.
Arguments volumeUnits {num} _.
Arguments qty {num} _.
Arguments revenue {num} _.
Arguments marketValueUsd {num} _.
Arguments value {num} _.
Arguments marketSharePct {num} _.
Arguments cagr {num} _.
Arguments yoyGrowth {num} _.

(** The records the generator builds. *)
Abbreviation ShovelMarketData := (ShovelMarketData_ Q).


(** *** The constant tables of [generateComprehensiveData] *)

Definition years : list Z := (λ i : nat, 2021 + Z.of_nat i) <$> seq 0 15.

Definition regions : list string :=
  ["North America"; "Europe"; "APAC"; "Latin America"; "Middle East"; "Africa"].

Definition serviceTypes : list string :=
  [ "Personal Branding & Executive Consulting";
    "Digital Presence & Branding Consulting";
    "Transition & Career Image Coaching";
    "Corporate & Institutional Image Training";
    "Educational & Scalable Branding Programs";
    "Public Figure & Media Image Consulting";
    "Others (Communication & Presence Coaching, etc.)" ].

Definition endUserTypes : list string :=
  [ "Senior Executives & Professionals";
    "Transitioning Military Personnel";
    "Youth & Students (High School / College)";
    "Public Figures";
    "Government Officials";
    "Corporate Teams (HR, Sales, Leadership)";
    "Everyday Professionals (Emerging Workforce)" ].

Definition deliveryChannels : list string :=
  [ "In-Person Consulting"; "Virtual / Online Consulting"; "Hybrid Engagement" ].

Definition businessModels : list string :=
  [ "Premium One-on-One Consulting";
    "Subscription-Based Digital Coaching";
    "Corporate Contracts / Retainers";
    "Online Course / Self-paced Learning";
    "Hybrid Workshop + eLearning";
    "Licensing / Affiliate Programs" ].

Definition productTypes : list string :=
  ["Slow Pyrolysis"; "Fast Pyrolysis"; "Intermediate Pyrolysis"; "Dry Distillation"].

Definition bladeMaterials : list string :=
  [ "Hardwood"; "Softwood"; "Bamboo"; "Coconut Shell / Palm Waste"; "Fruitwood";
    "Others (Sawdust, Crop Residue, Mixed Biomass)" ].

Definition handleLengths : list string :=
  ["Agricultural Grade"; "Industrial Grade"; "Pharmaceutical / Food Grade"].

Definition applications : list string :=
  ["Liquid"; "Powder / Solid"; "Concentrate / Distilled"].

Definition endUsers : list string :=
  [ "Agriculture & Farming";
    "Animal Feed & Husbandry";
    "Food & Beverage";
    "Pharmaceuticals & Healthcare";
    "Personal Care & Cosmetics";
    "Activated Carbon & Charcoal Production";
    "Others (Bioenergy & Chemicals etc.)" ].

Definition applicationSubtypes : list (string * list string) :=
  [ ("Agriculture & Farming",
      ["Bio-Pesticide"; "Soil Conditioner"; "Plant Growth Promoter"; "Compost Accelerator"]);
    ("Animal Feed & Husbandry", ["Feed Additive"; "Odor Control"]);
    ("Food & Beverage", ["Natural Flavoring"]);
    ("Pharmaceuticals & Healthcare", ["Antiseptic"; "Detoxification Agent"]);
    ("Personal Care & Cosmetics", ["Skincare Products"; "Deodorants"]);
    ("Activated Carbon & Charcoal Production", ["Carbonization Aid"; "Quality Enhancer"]);
    ("Others (Bioenergy & Chemicals etc.)", []) ].

Definition brands : list string :=
  [ "Fiskars"; "Bully Tools"; "Razor-Back"; "Truper"; "Ames";
    "Spear & Jackson"; "Radius Garden"; "Seymour"; "Union Tools"; "Garant" ].

Definition companies : list string :=
  [ "Fiskars Corporation"; "Bully Tools Inc"; "Razor-Back Tools"; "Truper Herramientas";
    "Ames True Temper"; "Spear & Jackson"; "Radius Garden"; "Seymour Manufacturing";
    "Union Tools"; "Garant GP" ].

Definition countryMap : list (string * list string) :=
  [ ("North America", ["U.S."; "Canada"]);
    ("Europe", ["U.K."; "Germany"; "Italy"; "France"; "Spain"; "Russia"]);
    ("APAC", ["China"; "India"; "Japan"; "South Korea"; "Australia"]);
    ("Latin America", ["Brazil"; "Argentina"; "Mexico"; "Peru"]);
    ("Middle East", ["GCC"; "Israel"]);
    ("Africa", ["South Africa"]) ].

Record ProductMult : Type := { pm_price : Q; pm_volume : Q; pm_cagr : Q }.
Record PriceVolume : Type := { pv_price : Q; pv_volume : Q }.
Record RegionMult : Type := { rm_volume : Q; rm_marketShare : Q }.

Definition productTypeMultipliers : list (string * ProductMult) :=
  [ ("Slow Pyrolysis", {| pm_price := 1.0; pm_volume := 1.2; pm_cagr := 1.1 |});
    ("Fast Pyrolysis", {| pm_price := 1.1; pm_volume := 1.3; pm_cagr := 1.2 |});
    ("Intermediate Pyrolysis", {| pm_price := 1.05; pm_volume := 1.1; pm_cagr := 1.05 |});
    ("Dry Distillation", {| pm_price := 0.9; pm_volume := 1.0; pm_cagr := 1.0 |}) ]%Q.

Definition bladeMaterialMultipliers : list (string * PriceVolume) :=
  [ ("Hardwood", {| pv_price := 1.2; pv_volume := 1.3 |});
    ("Softwood", {| pv_price := 1.0; pv_volume := 1.4 |});
    ("Bamboo", {| pv_price := 1.1; pv_volume := 1.2 |});
    ("Coconut Shell / Palm Waste", {| pv_price := 0.9; pv_volume := 1.1 |});
    ("Fruitwood", {| pv_price := 1.3; pv_volume := 0.9 |});
    ("Others (Sawdust, Crop Residue, Mixed Biomass)", {| pv_price := 0.8; pv_volume := 1.0 |}) ]%Q.

Definition applicationMultipliers : list (string * PriceVolume) :=
  [ ("Liquid", {| pv_volume := 1.5; pv_price := 1.2 |});
    ("Powder / Solid", {| pv_volume := 1.0; pv_price := 0.9 |});
    ("Concentrate / Distilled", {| pv_volume := 0.8; pv_price := 1.4 |}) ]%Q.

Definition endUserMultipliers : list (string * PriceVolume) :=
  [ ("Agriculture & Farming", {| pv_volume := 1.5; pv_price := 1.0 |});
    ("Animal Feed & Husbandry", {| pv_volume := 1.2; pv_price := 1.1 |});
    ("Food & Beverage", {| pv_volume := 0.8; pv_price := 1.4 |});
    ("Pharmaceuticals & Healthcare", {| pv_volume := 0.7; pv_price := 1.6 |});
    ("Personal Care & Cosmetics", {| pv_volume := 1.0; pv_price := 1.3 |});
    ("Activated Carbon & Charcoal Production", {| pv_volume := 1.3; pv_price := 1.1 |});
    ("Others (Bioenergy & Chemicals etc.)", {| pv_volume := 1.0; pv_price := 1.0 |}) ]%Q.

Definition regionMultipliers : list (string * RegionMult) :=
  [ ("North America", {| rm_volume := 1.5; rm_marketShare := 1.4 |});
    ("Europe", {| rm_volume := 1.3; rm_marketShare := 1.3 |});
    ("APAC", {| rm_volume := 1.8; rm_marketShare := 1.5 |});
    ("Latin America", {| rm_volume := 1.1; rm_marketShare := 0.9 |});
    ("Middle East", {| rm_volume := 0.9; rm_marketShare := 1.1 |});
    ("Africa", {| rm_volume := 1.2; rm_marketShare := 0.8 |}) ]%Q.

(** [brands.forEach((brand, idx) => brandPremiumMap[brand] = 0.8 + (idx % 3) * 0.4)];
    the brand names are pairwise distinct, so each assignment adds a key. *)
Definition brandPremiumMap : list (string * Q) :=
  imap (λ (idx : nat) (brand : string),
          (brand, (0.8 + inject_Z (Z.of_nat idx `rem` 3) * 0.4)%Q)) brands.

(** *** The generation loop as a state-and-exception computation *)

(** The mutable locals of [generateComprehensiveData]: [seed], [recordId], [data]. *)
Record GenState : Type := mkGenState {
  st_seed : Z;
  st_recordId : Z;
  st_data : list ShovelMarketData
}.

Definition Gen (A : Type) : Type := GenState → Completion (A * GenState).

Definition ret {A : Type} (a : A) : Gen A := λ st, Normal (a, st).

Definition bind {A B : Type} (m : Gen A) (k : A → Gen B) : Gen B :=
  λ st, match m st with
        | Normal (a, st') => k a st'
        | Throw e => Throw e
        end.

Definition throw {A : Type} (msg : string) : Gen A := λ _, Throw msg.

Notation "'let*' x ':=' m 'in' k" := (bind m (λ x, k))
  (at level 10, x name, m at level 100, k at level 200, only parsing).

(** [seed = (seed * 9301 + 49297) % 233280; return seed / 233280] *)
Definition seededRandom : Gen Q :=
  λ st,
    let seed' := (st_seed st * 9301 + 49297) `rem` 233280 in
    Normal ((inject_Z seed' / 233280)%Q,
            {| st_seed := seed'; st_recordId := st_recordId st; st_data := st_data st |}).

(** [arr[Math.floor(seededRandom() * arr.length)]].  A read past the end would
    yield [undefined], which the record type has no place for; it is modelled
    as a failure, and [pick_total] below shows that it never happens. *)
Definition pick {A : Type} (arr : list A) : Gen A :=
  let* r := seededRandom in
  match arr_get arr (Math_floor (r * inject_Z (Z.of_nat (length arr)))) with
  | Some x => ret x
  | None => throw "undefined array element"
  end.

(** Reading a property of a table entry: a [TypeError] when the entry is missing. *)
Definition prop {A : Type} (entry : option A) : Gen A :=
  match entry with
  | Some v => ret v
  | None => throw "TypeError: cannot read properties of undefined"
  end.

Definition round2 (x : Q) : Q := (inject_Z (Math_round (x * 100)) / 100)%Q.

(** The body of the innermost loop (source lines 210-296). *)
Definition genRecord (year : Z) (region : string) (regionMult : option RegionMult)
    (country serviceType endUserType deliveryChannel businessModel : string) : Gen unit :=
  let* productType := pick productTypes in
  let productMult := obj_get productTypeMultipliers productType in
  let* bladeMaterial := pick bladeMaterials in
  let bladeMult := obj_get bladeMaterialMultipliers bladeMaterial in
  let* handleLength := pick handleLengths in
  let handleMult : Q :=
    if String.eqb handleLength "Long Handle" then 1.1%Q
    else if String.eqb handleLength "Short Handle" then 0.9%Q else 1.0%Q in
  let* application := pick applications in
  let appMult := obj_get applicationMultipliers application in
  let* endUser := pick endUsers in
  let userMult := obj_get endUserMultipliers endUser in
  let* r := seededRandom in
  let isDirect := negb (Qle_bool r 0.5) in
  let distributionChannelType :=
    if isDirect then "Direct" else "Indirect (Via Distributors)" in
  let subtypes := default [] (obj_get applicationSubtypes endUser) in
  let* distributionChannel :=
    (if (0 <? Z.of_nat (length subtypes))%Z then pick subtypes else ret endUser) in
  let* brand := pick brands in
  let brandMult := num_or (obj_get brandPremiumMap brand) 1.0 in
  let* company := pick companies in
  let* r := seededRandom in
  let basePrice := (10 + r * 90)%Q in
  let* pm := prop productMult in
  let* bm := prop bladeMult in
  let price :=
    (basePrice * pm_price pm * pv_price bm * brandMult
     * (1 + inject_Z (year - 2021) * 0.02))%Q in
  let* r := seededRandom in
  let baseVolume := (100 + r * 900)%Q in
  let* rm := prop regionMult in
  let* am := prop appMult in
  let* um := prop userMult in
  let volumeUnits := inject_Z (Math_floor
    (baseVolume * rm_volume rm * pm_volume pm * pv_volume bm * pv_volume am
     * pv_volume um * handleMult * (1 + inject_Z (year - 2021) * 0.05))%Q) in
  let revenue := (price * volumeUnits)%Q in
  let* r := seededRandom in
  let marketValueUsd := (revenue * (0.9 + r * 0.2))%Q in
  let* r := seededRandom in
  let baseMarketShare := (1 + r * 24)%Q in
  let marketSharePct := (baseMarketShare * rm_marketShare rm * brandMult)%Q in
  let* r := seededRandom in
  let baseCAGR := (-2 + r * 12)%Q in
  let cagr := (baseCAGR * pm_cagr pm)%Q in
  let* r := seededRandom in
  let yoyGrowth := (-5 + r * 20)%Q in
  let* r := seededRandom in
  let qty := inject_Z (Math_floor (volumeUnits * (0.8 + r * 0.4))%Q) in
  λ st,
    let rec := {|
      recordId := st_recordId st;
      year := year;
      region := region;
      country := country;
      serviceType := serviceType;
      endUserType := endUserType;
      deliveryChannel := deliveryChannel;
      businessModel := businessModel;
      productType := productType;
      bladeMaterial := bladeMaterial;
      handleLength := handleLength;
      application := application;
      endUser := endUser;
      distributionChannelType := distributionChannelType;
      distributionChannel := distributionChannel;
      brand := brand;
      company := company;
      price := round2 price;
      volumeUnits := volumeUnits;
      qty := qty;
      revenue := round2 revenue;
      marketValueUsd := round2 marketValueUsd;
      value := round2 marketValueUsd;
      marketSharePct := round2 marketSharePct;
      cagr := round2 cagr;
      yoyGrowth := round2 yoyGrowth
    |} in
    Normal (tt, {| st_seed := st_seed st;
                   st_recordId := st_recordId st + 1;
                   st_data := st_data st ++ [rec] |}).

(** [for (const x of xs) body(x)] *)
Fixpoint forOf {A : Type} (xs : list A) (body : A → Gen unit) : Gen unit :=
  match xs with
  | [] => ret tt
  | x :: rest => let* _ := body x in forOf rest body
  end.

(** The seven nested loops (source lines 200-303). *)
Definition generateLoops : Gen unit :=
  forOf years (λ year,
  forOf regions (λ region,
    let regionMult := obj_get regionMultipliers region in
    let countries := default [] (obj_get countryMap region) in
    forOf countries (λ country,
    forOf serviceTypes (λ serviceType,
    forOf endUserTypes (λ endUserType,
    forOf deliveryChannels (λ deliveryChannel,
    forOf businessModels (λ businessModel,
      genRecord year region regionMult country serviceType endUserType
                deliveryChannel businessModel))))))).

(** The generator started from an arbitrary seed; the source fixes it to 42. *)
Definition generateFrom (seed0 : Z) : Completion (list ShovelMarketData) :=
  match generateLoops {| st_seed := seed0; st_recordId := 100000; st_data := [] |} with
  | Normal (_, st) => Normal (st_data st)
  | Throw e => Throw e
  end.

Definition generateComprehensiveData : Completion (list ShovelMarketData) :=
  generateFrom 42.

(* The generator is a long computation: when two terms are compared, try
   every other definition before unfolding it. *)
#[global] Strategy 1000 [generateLoops generateFrom].

(** *** The module-level cache *)

(** [dataCache] is the module's only mutable variable.  [generations] is a
    ghost counter of how often the generation step has been invoked. *)
Record ModuleState : Type := mkModule {
  dataCache : option (list ShovelMarketData);
  generations : nat
}.

(** [getData], with the generation step it invokes as a parameter.  An array,
    even an empty one, is truthy, so [!dataCache] holds only for [null]. *)
Definition getDataWith (generate : Completion (list ShovelMarketData))
    (m : ModuleState) : list ShovelMarketData * ModuleState :=
  match dataCache m with
  | None =>
      let result :=
        match generate with
        | Normal d => d
        | Throw _ => []
        end in
      (result, {| dataCache := Some result; generations := S (generations m) |})
  | Some d => (d, m)
  end.

Definition getData : ModuleState → list ShovelMarketData * ModuleState :=
  getDataWith generateComprehensiveData.

Definition clearDataCache (m : ModuleState) : ModuleState :=
  {| dataCache := None; generations := generations m |}.

(** *** [filterDataframe] *)

(** The values a record field or a filter entry can hold. *)
Inductive jsval : Type :=
| JUndefined
| JNumber (q : Q)
| JString (s : string).

(** A filter entry is an array of accepted values, or anything else
    ([undefined], [null], a scalar), which imposes no constraint. *)
Inductive filterValue : Type :=
| FArray (values : list jsval)
| FOther (v : jsval).

(** [Object.entries(filters)], in the object's own key order. *)
Definition FilterOptions : Type := list (string * filterValue).

(** The own properties of a record, for the dynamic access [item[field]]. *)
Definition fields (item : ShovelMarketData) : list (string * jsval) :=
  [ ("recordId", JNumber (inject_Z (recordId item)));
    ("year", JNumber (inject_Z (year item)));
    ("region", JString (region item));
    ("country", JString (country item));
    ("serviceType", JString (serviceType item));
    ("endUserType", JString (endUserType item));
    ("deliveryChannel", JString (deliveryChannel item));
    ("businessModel", JString (businessModel item));
    ("productType", JString (productType item));
    ("bladeMaterial", JString (bladeMaterial item));
    ("handleLength", JString (handleLength item));
    ("application", JString (application item));
    ("endUser", JString (endUser item));
    ("distributionChannelType", JString (distributionChannelType item));
    ("distributionChannel", JString (distributionChannel item));
    ("brand", JString (brand item));
    ("company", JString (company item));
    ("price", JNumber (price item));
    ("volumeUnits", JNumber (volumeUnits item));
    ("qty", JNumber (qty item));
    ("revenue", JNumber (revenue item));
    ("marketValueUsd", JNumber (marketValueUsd item));
    ("value", JNumber (value item));
    ("marketSharePct", JNumber (marketSharePct item));
    ("cagr", JNumber (cagr item));
    ("yoyGrowth", JNumber (yoyGrowth item)) ].

Definition item_get (item : ShovelMarketData) (field : string) : jsval :=
  default JUndefined (obj_get (fields item) field).

(** The comparison of [Array.prototype.includes] (SameValueZero). *)
Definition sameValueZero (a b : jsval) : bool :=
  match a, b with
  | JUndefined, JUndefined => true
  | JNumber x, JNumber y => Qeq_bool x y
  | JString s, JString t => String.eqb s t
  | _, _ => false
  end.

Definition includes (values : list jsval) (v : jsval) : bool :=
  existsb (λ w, sameValueZero w v) values.

Definition is_number (v : jsval) : bool :=
  match v with JNumber _ => true | _ => false end.

Section FilterEngine.

(** [String(x)] for a number that is not integral is the host's shortest
    round-trip numeral; it is left as a parameter. *)
Variable fractionToString : Q → string.

Definition Number_toString (q : Q) : string :=
  let r := Qred q in
  if (Qden r =? 1)%positive then String_of_int (Qnum r) else fractionToString q.

Definition js_String (v : jsval) : string :=
  match v with
  | JUndefined => "undefined"
  | JNumber q => Number_toString q
  | JString s => s
  end.

(** The callback of [filtered.filter(item => ...)] for one entry. *)
Definition keeps (field : string) (values : list jsval) (item : ShovelMarketData) : bool :=
  let itemValue := item_get item field in
  if String.eqb field "year" && is_number itemValue
  then existsb (String.eqb (js_String itemValue)) (js_String <$> values)
  else includes values itemValue.

(** One turn of the loop over [Object.entries(filters)]. *)
Definition applyEntry (filtered : list ShovelMarketData) (entry : string * filterValue)
    : list ShovelMarketData :=
  match entry with
  | (field, FArray values) =>
      if (0 <? Z.of_nat (length values))%Z
      then List.filter (keeps field values) filtered
      else filtered
  | (_, FOther _) => filtered
  end.

Definition filterDataframe (data : list ShovelMarketData) (filters : FilterOptions)
    : list ShovelMarketData :=
  foldl applyEntry data filters.

End FilterEngine.

End DataGenerator.

(** ** The numbers of the page: binary64 values *)
Module Number.

Definition isNaN (x : float) : bool := negb (PrimFloat.eqb x x).

(** A number is falsy when it is [0], [-0] or [NaN]. *)
Definition falsy (x : float) : bool := PrimFloat.eqb x 0 || isNaN x.

(** [x || d] for a possibly missing number. *)
Definition number_or (x : option float) (d : float) : float :=
  match x with
  | Some v => if falsy v then d else v
  | None => d
  end.

End Number.

(** ** [src/pages/MarketAnalysis.tsx]: pivots and year-over-year growth *)
Module MarketAnalysis.
Import JS DataGenerator Number.

(** The records the page computes on: their measures are binary64 numbers. *)
Abbreviation PageRecord := (ShovelMarketData_ float).

(** A chart row is an object whose [year] property is a string and whose
    segment properties are numbers. *)
Inductive cell : Type :=
| CString (s : string)
| CNumber (x : float).

(** [numbers.sort()] without a comparator orders numbers by their numerals. *)
Definition sort_numbers (xs : list Z) : list Z :=
  merge_sort (λ a b, str_le (String_of_int a) (String_of_int b)) xs.

(** [filter(Boolean)] and [filter(s => s)] on strings: the empty string is falsy. *)
Definition truthy (s : string) : bool := negb (String.eqb s "").

(** [entry[key] = v] for a number [v] on an object made by a literal.  The
    name [__proto__] is the accessor inherited from [Object.prototype]: its
    setter ignores a value that is not an object, and no own property is
    made.  Every other name becomes, or overwrites, an own property. *)
Definition obj_assign (entry : gmap string cell) (key : string) (v : cell)
    : gmap string cell :=
  if String.eqb key "__proto__" then entry else <[key := v]> entry.

(** Source lines 341-346; [marketEvaluation] is [filters.marketEvaluation]. *)
Definition getDataValue (marketEvaluation : string) (d : PageRecord) : float :=
  if String.eqb marketEvaluation "By Volume"
  then number_or (Some (volumeUnits d)) 0
  else (number_or (Some (marketValueUsd d)) 0 / 1000)%float.

Section AnalysisData.

(** The closure of [analysisData]: the filtered records and the evaluation mode. *)
Variable filteredData : list PageRecord.
Variable marketEvaluation : string.

(** [[...new Set(filteredData.map(d => d.year))].sort()] (source line 372). *)
Definition analysisYears : list Z :=
  sort_numbers (distinct (year <$> filteredData)).

(** The template literal [`${year}-${segment}`]. *)
Definition segmentKeyOf (year : Z) (segment : string) : string :=
  String_of_int year +:+ "-" +:+ segment.

(** The [forEach] that fills [segmentMap] (source lines 388-391). *)
Definition accumulate (getSegmentValue : PageRecord → string)
    (segmentMap : gmap string float) (d : PageRecord) : gmap string float :=
  let key := segmentKeyOf (year d) (getSegmentValue d) in
  <[key := (number_or (segmentMap !! key) 0 + getDataValue marketEvaluation d)%float]>
    segmentMap.

(** One row of [chartData] (source lines 393-400). *)
Definition chartRow (segmentMap : gmap string float) (segments : list string) (year : Z)
    : gmap string cell :=
  foldl (λ entry segment,
           let key := segmentKeyOf year segment in
           obj_assign entry segment (CNumber (number_or (segmentMap !! key) 0)))
        {["year" := CString (String_of_int year)]} segments.

(** Source lines 375-403.  [segmentKey] is not used by the body. *)
Definition generateSegmentChartData (segmentKey : string)
    (getSegmentValue : PageRecord → string)
    (selectedSegments : option (list string))
    : list (gmap string cell) * list string :=
  let segmentsFromData :=
    sort_strings (List.filter truthy (distinct (getSegmentValue <$> filteredData))) in
  let segments :=
    match selectedSegments with
    | Some sel =>
        if (0 <? Z.of_nat (length sel))%Z
        then sort_strings (List.filter truthy sel)
        else segmentsFromData
    | None => segmentsFromData
    end in
  let segmentMap := foldl (accumulate getSegmentValue) ∅ filteredData in
  let chartData := chartRow segmentMap segments <$> analysisYears in
  (chartData, segments).

(** *** The stacked variant (source lines 406-446) *)

(** The [forEach] that fills [yearSegmentMap]: records whose segment is empty
    are skipped. *)
Definition accumulateYearWise (getSegmentValue : PageRecord → string)
    (yearSegmentMap : gmap Z (gmap string float)) (d : PageRecord)
    : gmap Z (gmap string float) :=
  let year := year d in
  let segment := getSegmentValue d in
  if truthy segment then
    let segmentMap := default ∅ (yearSegmentMap !! year) in
    <[year := <[segment := (number_or (segmentMap !! segment) 0
                            + getDataValue marketEvaluation d)%float]> segmentMap]>
      yearSegmentMap
  else yearSegmentMap.

Definition stackedRow (yearSegmentMap : gmap Z (gmap string float))
    (segments : list string) (year : Z) : gmap string cell :=
  let segmentMap := default ∅ (yearSegmentMap !! year) in
  foldl (λ entry segment,
           obj_assign entry segment (CNumber (number_or (segmentMap !! segment) 0)))
        {["year" := CString (String_of_int year)]} segments.

(** [(entry[segment] as number) > 0].  The callback reads a row under one of
    its segments: the number assigned there, or, under [__proto__], the
    prototype object, which converts to NaN and is not greater than zero. *)
Definition positiveCell (c : option cell) : bool :=
  match c with
  | Some (CNumber x) => (0 <? x)%float
  | _ => false
  end.

Definition generateYearWiseStackedBarData
    (getSegmentValue : PageRecord → string)
    (selectedSegments : option (list string))
    : list (gmap string cell) * list string :=
  let segmentsFromData :=
    sort_strings (List.filter truthy (distinct (getSegmentValue <$> filteredData))) in
  let segments :=
    match selectedSegments with
    | Some sel =>
        if (0 <? Z.of_nat (length sel))%Z
        then sort_strings (List.filter truthy sel)
        else segmentsFromData
    | None => segmentsFromData
    end in
  let yearSegmentMap := foldl (accumulateYearWise getSegmentValue) ∅ filteredData in
  let chartData := stackedRow yearSegmentMap segments <$> analysisYears in
  let activeSegments :=
    List.filter (λ segment, existsb (λ entry, positiveCell (entry !! segment)) chartData)
                segments in
  (chartData, activeSegments).

End AnalysisData.

(** *** Year-over-year growth (source lines 1171-1236) *)

(** [segmentMap.set(k, (segmentMap.get(k) || 0) + value)] guarded by
    [k && selectedSegmentTypes.includes(k)]. *)
Definition addToSegment (selectedSegmentTypes : list string) (value : float)
    (segmentMap : gmap string float) (k : string) : gmap string float :=
  if truthy k && bool_decide (k ∈ selectedSegmentTypes)
  then <[k := (number_or (segmentMap !! k) 0 + value)%float]> segmentMap
  else segmentMap.

(** The [forEach] over [entityFilteredData] (source lines 1175-1200): the
    per-year segment sums, and the years in order of first occurrence. *)
Definition yoyAccumulate (selectedSegmentTypes : list string)
    (acc : gmap Z (gmap string float) * list Z) (d : PageRecord)
    : gmap Z (gmap string float) * list Z :=
  let '(yearSegmentDataMap, allYears) := acc in
  let value := (number_or (Some (marketValueUsd d)) 0 / 1000)%float in
  let allYears := if bool_decide (year d ∈ allYears) then allYears else allYears ++ [year d] in
  let segmentMap := default ∅ (yearSegmentDataMap !! year d) in
  let segmentMap :=
    foldl (addToSegment selectedSegmentTypes value) segmentMap
          [serviceType d; endUserType d; deliveryChannel d; businessModel d] in
  (<[year d := segmentMap]> yearSegmentDataMap, allYears).

(** The growth of one segment at one year index (source lines 1217-1229). *)
Definition yoyOf (years : list Z) (yearSegmentDataMap : gmap Z (gmap string float))
    (yearIndex : nat) (year : Z) (segmentType : string) : float :=
  let currentYearData := default ∅ (yearSegmentDataMap !! year) in
  let currentValue := number_or (currentYearData !! segmentType) 0 in
  if (0 <? Z.of_nat yearIndex)%Z then
    let previousYearData :=
      default ∅ (years !! (yearIndex - 1)%nat ≫= λ previousYear,
                 yearSegmentDataMap !! previousYear) in
    let previousValue := number_or (previousYearData !! segmentType) 0 in
    if (0 <? previousValue)%float
    then ((currentValue - previousValue) / previousValue * 100)%float
    else 0%float
  else 0%float.

(** [years.map((year, yearIndex) => ...)] (source lines 1211-1236). *)
Definition yoyChartData (years : list Z) (yearSegmentDataMap : gmap Z (gmap string float))
    (selectedSegmentTypes : list string) : list (gmap string cell) :=
  imap (λ yearIndex year,
          foldl (λ yearData segmentType,
                   obj_assign yearData segmentType
                     (CNumber (yoyOf years yearSegmentDataMap yearIndex year segmentType)))
                {["year" := CString (String_of_int year)]} selectedSegmentTypes)
       years.

(** What one entity contributes (source lines 1171-1241): nothing when it
    has fewer than two years of data. *)
Definition yoyEntityData (entityFilteredData : list PageRecord)
    (selectedSegmentTypes : list string) : option (list (gmap string cell)) :=
  let '(yearSegmentDataMap, allYears) :=
    foldl (yoyAccumulate selectedSegmentTypes) (∅, []) entityFilteredData in
  let years := sort_numbers allYears in
  if (Z.of_nat (length years) <? 2)%Z then None
  else Some (yoyChartData years yearSegmentDataMap selectedSegmentTypes).

(** *** The incremental-opportunity waterfall (source lines 638-677) *)

(** [data.filter(d => d.year === y).reduce((sum, d) => sum + (d.marketValueUsd || 0) / 1000, 0)] *)
Definition valueOfYear (data : list PageRecord) (y : Z) : float :=
  foldl (λ sum d, (sum + number_or (Some (marketValueUsd d)) 0 / 1000)%float) 0%float
        (List.filter (λ d, Z.eqb (year d) y) data).

Definition defaultIncrements : list float :=
  [2638.4; 2850.4; 3055.6; 3231.0; 3432.9; 3674.2; 3885.1]%float.

(** The increment of one year of the loop [2025..2031].  A read outside the
    default table would give [undefined], which multiplies to [NaN]; the
    index is in range for the years of the loop. *)
Definition incrementalOf (data : list PageRecord) (baseValue : float) (year : Z) : float :=
  let yearValue := valueOfYear data year in
  let prevYearValue := valueOfYear data (year - 1) in
  if (0 <? yearValue)%float && (0 <? prevYearValue)%float
  then (yearValue - prevYearValue)%float
  else (default nan (arr_get defaultIncrements (year - 2025)) * (baseValue / 57159))%float.

(** A row of the waterfall chart.  A property a row does not have is [None];
    [isBase] and [isTotal] are only ever set to [true], and [false] stands
    for their absence. *)
Record WaterfallRow : Type := {
  wf_year : string;
  wf_baseValue : option float;
  wf_incrementalValue : option float;
  wf_totalValue : float;
  wf_isBase : bool;
  wf_isTotal : bool
}.

(** [incrementalValues.map(item => { cumulative += item.value; ... })]: the
    rows, and [cumulative] after the last of them. *)
Fixpoint runningRows (cumulative : float) (incrementalValues : list (string * float))
    : list WaterfallRow * float :=
  match incrementalValues with
  | [] => ([], cumulative)
  | (year, value) :: rest =>
      let cumulative := (cumulative + value)%float in
      let '(rows, final) := runningRows cumulative rest in
      ({| wf_year := year; wf_baseValue := None; wf_incrementalValue := Some value;
          wf_totalValue := cumulative; wf_isBase := false; wf_isTotal := false |} :: rows,
       final)
  end.

Definition waterfallData (filteredIncrementalData : list PageRecord)
    : list WaterfallRow * float :=
  let baseValue := number_or (Some (valueOfYear filteredIncrementalData 2024)) 57159 in
  let incrementalValues :=
    (λ year, (String_of_int year, incrementalOf filteredIncrementalData baseValue year))
      <$> seqZ 2025 7 in
  let '(rows, cumulative) := runningRows baseValue incrementalValues in
  let chartData :=
    {| wf_year := "2024"; wf_baseValue := Some baseValue; wf_incrementalValue := None;
       wf_totalValue := baseValue; wf_isBase := true; wf_isTotal := false |}
    :: rows
    ++ [ {| wf_year := "2032"; wf_baseValue := Some cumulative;
            wf_incrementalValue := None; wf_totalValue := cumulative;
            wf_isBase := false; wf_isTotal := true |} ] in
  let totalIncremental :=
    foldl (λ sum item, (sum + item.2)%float) 0%float incrementalValues in
  (chartData, totalIncremental).

(** *** The page's record filters (source lines 291-338 and 753-779) *)

Section RecordFilters.

(** The filters read the year and the names of a record, whatever its
    measures are. *)
Context {num : Type}.

(** [xs.includes(x)] on strings and on integral numbers. *)
Definition includes_string (xs : list string) (x : string) : bool :=
  existsb (λ w, String.eqb w x) xs.

Definition includes_number (xs : list Z) (x : Z) : bool :=
  existsb (λ w, Z.eqb w x) xs.

(** [if (selection.length > 0) { filtered = filtered.filter(p) }] *)
Definition narrow {A : Type} (selection : list A) (p : ShovelMarketData_ num → bool)
    (filtered : list (ShovelMarketData_ num)) : list (ShovelMarketData_ num) :=
  if (0 <? Z.of_nat (length selection))%Z then List.filter p filtered else filtered.

(** The part of the [filters] state that [filteredData] reads. *)
Record Filters : Type := {
  f_year : list Z;
  f_byRegion : list string;
  f_byServiceType : list string;
  f_byEndUser : list string;
  f_byDeliveryChannel : list string;
  f_byBusinessModel : list string;
  f_productType : list string;
  f_bladeMaterial : list string;
  f_handleLength : list string;
  f_application : list string;
  f_endUser : list string;
  f_distributionChannelType : list string;
  f_distributionChannel : list string
}.

(** Source lines 291-338. *)
Definition filteredData (data : list (ShovelMarketData_ num)) (filters : Filters)
    : list (ShovelMarketData_ num) :=
  let filtered := data in
  let filtered :=
    narrow (f_year filters) (λ d, includes_number (f_year filters) (year d)) filtered in
  let filtered :=
    narrow (f_byRegion filters) (λ d, includes_string (f_byRegion filters) (country d))
           filtered in
  let filtered :=
    narrow (f_byServiceType filters)
           (λ d, includes_string (f_byServiceType filters) (serviceType d)) filtered in
  let filtered :=
    narrow (f_byEndUser filters)
           (λ d, includes_string (f_byEndUser filters) (endUserType d)) filtered in
  let filtered :=
    narrow (f_byDeliveryChannel filters)
           (λ d, includes_string (f_byDeliveryChannel filters) (deliveryChannel d))
           filtered in
  let filtered :=
    narrow (f_byBusinessModel filters)
           (λ d, includes_string (f_byBusinessModel filters) (businessModel d)) filtered in
  let filtered :=
    narrow (f_productType filters)
           (λ d, includes_string (f_productType filters) (productType d)) filtered in
  let filtered :=
    narrow (f_bladeMaterial filters)
           (λ d, includes_string (f_bladeMaterial filters) (bladeMaterial d)) filtered in
  let filtered :=
    narrow (f_handleLength filters)
           (λ d, includes_string (f_handleLength filters) (handleLength d)) filtered in
  let filtered :=
    narrow (f_application filters)
           (λ d, includes_string (f_application filters) (application d)) filtered in
  let filtered :=
    narrow (f_endUser filters)
           (λ d, includes_string (f_endUser filters) (endUser d)) filtered in
  let filtered :=
    narrow (f_distributionChannelType filters)
           (λ d, includes_string (f_distributionChannelType filters)
                                 (distributionChannelType d)) filtered in
  let filtered :=
    narrow (f_distributionChannel filters)
           (λ d, includes_string (f_distributionChannel filters) (distributionChannel d))
           filtered in
  filtered.

(** The part of [attractivenessFilters] that [filteredAttractivenessData] reads. *)
Record AttractivenessFilters : Type := {
  af_region : list string;
  af_country : list string;
  af_serviceType : list string;
  af_endUserType : list string;
  af_deliveryChannel : list string;
  af_businessModel : list string
}.

(** Source lines 753-779. *)
Definition filteredAttractivenessData (data : list (ShovelMarketData_ num))
    (attractivenessFilters : AttractivenessFilters) : list (ShovelMarketData_ num) :=
  let filtered := data in
  let filtered :=
    List.filter (λ d, (2025 <=? year d)%Z && (year d <=? 2032)%Z) filtered in
  let filtered :=
    narrow (af_region attractivenessFilters)
           (λ d, includes_string (af_region attractivenessFilters) (region d)) filtered in
  let filtered :=
    narrow (af_country attractivenessFilters)
           (λ d, includes_string (af_country attractivenessFilters) (country d)) filtered in
  let filtered :=
    narrow (af_serviceType attractivenessFilters)
           (λ d, includes_string (af_serviceType attractivenessFilters) (serviceType d))
           filtered in
  let filtered :=
    narrow (af_endUserType attractivenessFilters)
           (λ d, includes_string (af_endUserType attractivenessFilters) (endUserType d))
           filtered in
  let filtered :=
    narrow (af_deliveryChannel attractivenessFilters)
           (λ d, includes_string (af_deliveryChannel attractivenessFilters)
                                 (deliveryChannel d)) filtered in
  let filtered :=
    narrow (af_businessModel attractivenessFilters)
           (λ d, includes_string (af_businessModel attractivenessFilters) (businessModel d))
           filtered in
  filtered.

End RecordFilters.

End MarketAnalysis.

(** ** [src/pages/MarketAnalysis.tsx]: the market-attractiveness bubble chart *)
Module BubbleChart.
Import JS.
Local Open Scope R_scope.

(** [Math.pow] where the source calls it: on a positive base. *)
Definition Math_pow (x y : R) : R := Rpower x y.

(** [Math.atan2(y, x)], the angle of the point [(x, y)]. *)
Definition Math_atan2 (y x : R) : R :=
  if Rlt_dec 0 x then atan (y / x)
  else if Rlt_dec x 0 then
    (if Rle_dec 0 y then atan (y / x) + PI else atan (y / x) - PI)
  else if Rlt_dec 0 y then PI / 2
  else if Rlt_dec y 0 then - PI / 2
  else 0.

(** [x % y] on numbers: the remainder of the division truncated towards zero. *)
Definition Rtrunc (x : R) : Z :=
  if Rle_dec 0 x then Int_part x else (- Int_part (- x))%Z.

Definition js_rem (x y : R) : R := x - y * IZR (Rtrunc (x / y)).

Definition sumR (xs : list R) : R := foldl Rplus 0 xs.

(** [Math.min(...xs)] and [Math.max(...xs)].  On an empty array the source
    gets an infinity; no item is normalised in that case, and [0] stands in. *)
Definition Math_min (xs : list R) : R :=
  match xs with
  | [] => 0
  | x :: rest => foldl Rmin x rest
  end.

Definition Math_max (xs : list R) : R :=
  match xs with
  | [] => 0
  | x :: rest => foldl Rmax x rest
  end.

(** *** Grouping the records by category (source lines 787-823) *)

Record CategoryData : Type := {
  cd_values : list R;
  cd_volumes : list R;
  cd_years : list Z
}.

(** [Map.prototype.set] on an insertion-ordered map: a new key goes last. *)
Fixpoint map_set {V : Type} (m : list (string * V)) (k : string) (v : V)
    : list (string * V) :=
  match m with
  | [] => [(k, v)]
  | (k', v') :: rest =>
      if String.eqb k' k then (k', v) :: rest else (k', v') :: map_set rest k v
  end.

Definition map_keys {V : Type} (m : list (string * V)) : list string := m.*1.

Definition getCategoryValue (d : DataGenerator.ShovelMarketData) (segType : string)
    : option string :=
  if String.eqb segType "By Service Type" then Some (DataGenerator.serviceType d)
  else if String.eqb segType "By End User" then Some (DataGenerator.endUserType d)
  else if String.eqb segType "By Delivery Channel" then Some (DataGenerator.deliveryChannel d)
  else if String.eqb segType "By Business Model" then Some (DataGenerator.businessModel d)
  else None.

(** [(d.marketValueUsd || 0) / 1000] *)
Definition valueOf (d : DataGenerator.ShovelMarketData) : R :=
  Q2R (num_or (Some (DataGenerator.marketValueUsd d)) 0) / 1000.

Definition volumeOf (d : DataGenerator.ShovelMarketData) : R :=
  Q2R (num_or (Some (DataGenerator.volumeUnits d)) 0).

Definition emptyCategory : CategoryData :=
  {| cd_values := []; cd_volumes := []; cd_years := [] |}.

Definition addToCategory (segmentType : string)
    (categoryDataMap : list (string * CategoryData)) (d : DataGenerator.ShovelMarketData)
    : list (string * CategoryData) :=
  match getCategoryValue d segmentType with
  | Some categoryValue =>
      if String.eqb categoryValue "" then categoryDataMap
      else
        let itemData := default emptyCategory (obj_get categoryDataMap categoryValue) in
        map_set categoryDataMap categoryValue
          {| cd_values := cd_values itemData ++ [valueOf d];
             cd_volumes := cd_volumes itemData ++ [volumeOf d];
             cd_years := cd_years itemData ++ [DataGenerator.year d] |}
  | None => categoryDataMap
  end.

Definition categoryDataMapOf (segmentType : string)
    (filteredAttractivenessData : list DataGenerator.ShovelMarketData)
    : list (string * CategoryData) :=
  foldl (addToCategory segmentType) [] filteredAttractivenessData.

(** *** Raw bubble values (source lines 825-883) *)

Record RawBubble : Type := {
  region : string;
  cagr : R;
  marketShare : R;
  incrementalOpportunity : R
}.

Definition startYear : Z := 2025.
Definition endYear : Z := 2032.

(** [itemData.values.filter((_, i) => itemData.years[i] === y)] *)
Definition valuesOfYear (itemData : CategoryData) (y : Z) : list R :=
  omap (λ '(i, v), if bool_decide (cd_years itemData !! i = Some y) then Some v else None)
       (imap pair (cd_values itemData)).

(** [xs.length > 0 ? xs.reduce((a, b) => a + b, 0) / xs.length : 0] *)
Definition averageOrZero (xs : list R) : R :=
  if (0 <? Z.of_nat (length xs))%Z then sumR xs / INR (length xs) else 0.

(** Source lines 846-853: the growth rate between the start-year and the
    end-year value, floored at zero. *)
Definition bubbleCagr (startValue endValue : R) : R :=
  let cagr := 0 in
  let cagr :=
    if Rlt_dec 0 startValue then
      if Rlt_dec 0 endValue then
        let years := IZR (endYear - startYear) in
        (Math_pow (endValue / startValue) (1 / years) - 1) * 100
      else cagr
    else cagr in
  Rmax 0 cagr.

(** The callback of [sortedItems.map((item, index) => ...)]. *)
Definition rawBubble (categoryDataMap : list (string * CategoryData)) (allItemsTotal : R)
    (sortedItems : list string) (index : nat) (item : string) : RawBubble :=
  let itemData := default emptyCategory (obj_get categoryDataMap item) in
  let startValues := valuesOfYear itemData startYear in
  let endValues := valuesOfYear itemData endYear in
  let startValue := averageOrZero startValues in
  let endValue := averageOrZero endValues in
  let cagr := bubbleCagr startValue endValue in
  let itemTotal := sumR (cd_values itemData) in
  let marketShare :=
    if Rlt_dec 0 allItemsTotal then itemTotal / allItemsTotal * 100 else 0 in
  let numItems := length sortedItems in
  let cagr := INR index / Rmax 1 (INR numItems - 1) * 25.0 in
  let goldenRatio := 1.618 in
  let sharePosition :=
    js_rem (INR index * goldenRatio) (INR numItems) / Rmax 1 (INR numItems - 1) in
  let marketShare := sharePosition * 30.0 in
  let incrementalOpportunity := endValue - startValue in
  {| region := item;
     cagr := cagr;
     marketShare := marketShare;
     incrementalOpportunity := Rabs incrementalOpportunity |}.

Definition sortedItemsOf (segmentType : string)
    (filteredAttractivenessData : list DataGenerator.ShovelMarketData) : list string :=
  sort_strings (map_keys (categoryDataMapOf segmentType filteredAttractivenessData)).

(** [rawBubbleData]; an empty [segmentType] is falsy and yields no bubbles. *)
Definition rawBubbleData (segmentType : string)
    (filteredAttractivenessData : list DataGenerator.ShovelMarketData) : list RawBubble :=
  if String.eqb segmentType "" then []
  else
    let categoryDataMap := categoryDataMapOf segmentType filteredAttractivenessData in
    let allItemsTotal := sumR (valueOf <$> filteredAttractivenessData) in
    let sortedItems := sortedItemsOf segmentType filteredAttractivenessData in
    imap (rawBubble categoryDataMap allItemsTotal sortedItems) sortedItems.

(** *** Normalisation to the 0-10 index range (source lines 885-926) *)

(** A bubble with its position; the normalised positions are computed here
    over the reals, the relaxation works on binary64 numbers. *)
Record Bubble (num : Type) : Type := {
  raw : RawBubble;
  cagrIndex : num;
  marketShareIndex : num
}.
Arguments Build_Bubble {num}.
Arguments raw {num} _.
Arguments cagrIndex {num} _.
Arguments marketShareIndex {num} _.

(** [[...xs].sort((a, b) => (b.incrementalOpportunity || 0) - (a.incrementalOpportunity || 0))]:
    a stable sort by descending opportunity. *)
Fixpoint insertByOpportunity (x : RawBubble) (sorted : list RawBubble) : list RawBubble :=
  match sorted with
  | [] => [x]
  | y :: rest =>
      if Rlt_dec (incrementalOpportunity x) (incrementalOpportunity y)
      then y :: insertByOpportunity x rest
      else x :: y :: rest
  end.

Definition sortByOpportunity (xs : list RawBubble) : list RawBubble :=
  foldr insertByOpportunity [] xs.

Definition normalize (minV range : R) (v : R) : R :=
  if Rlt_dec 0 range then (v - minV) / range * 10 else 5.0.

Definition normalizedData (rawBubbleData : list RawBubble) : list (Bubble R) :=
  let cagrValues := cagr <$> rawBubbleData in
  let marketShareValues := marketShare <$> rawBubbleData in
  let minCagr := Rmax 0 (Math_min cagrValues) in
  let maxCagr := Math_max cagrValues in
  let minShare := Math_min marketShareValues in
  let maxShare := Math_max marketShareValues in
  let cagrRange := maxCagr - minCagr in
  let shareRange := maxShare - minShare in
  let sortedByOpportunity := sortByOpportunity rawBubbleData in
  (λ item, {| raw := item;
              cagrIndex := normalize minCagr cagrRange (cagr item);
              marketShareIndex := normalize minShare shareRange (marketShare item) |})
    <$> sortedByOpportunity.

(** *** Overlap relaxation (source lines 928-983), on binary64 numbers *)

(** [Math.min(a, b)] and [Math.max(a, b)] on two numbers: NaN if either is,
    and [-0] counts as smaller than [+0]. *)
Definition isNegativeZero (x : float) : bool :=
  match PrimFloat.classify x with
  | NZero => true
  | _ => false
  end.

Definition Math_min2 (a b : float) : float :=
  if Number.isNaN a || Number.isNaN b then nan
  else if (a <? b)%float then a
  else if (b <? a)%float then b
  else if isNegativeZero a then a else b.

Definition Math_max2 (a b : float) : float :=
  if Number.isNaN a || Number.isNaN b then nan
  else if (a <? b)%float then b
  else if (b <? a)%float then a
  else if isNegativeZero b then a else b.

Definition minDistance : float := 3.5%float.
Definition maxIterations : nat := 100.

Definition clamp (x : float) : float := Math_max2 (-2) (Math_min2 12 x).

Section Relaxation.

(** [Math.atan2], [Math.cos] and [Math.sin] are approximations the host
    chooses; nothing is assumed of them. *)
Variable Math_atan2 : float → float → float.
Variable Math_cos : float → float.
Variable Math_sin : float → float.

(** The distance the inner loop computes between two bubbles. *)
Definition distance (bubble other : Bubble float) : float :=
  let dx := (cagrIndex bubble - cagrIndex other)%float in
  let dy := (marketShareIndex bubble - marketShareIndex other)%float in
  PrimFloat.sqrt (dx * dx + dy * dy)%float.

(** One turn of the inner loop for [i <> j]: the running position of the
    bubble and the shared [hasOverlap] flag. *)
Definition pushAway (bubble other : Bubble float) (acc : float * float * bool)
    : float * float * bool :=
  let '(newCagr, newShare, hasOverlap) := acc in
  let dx := (cagrIndex bubble - cagrIndex other)%float in
  let dy := (marketShareIndex bubble - marketShareIndex other)%float in
  let distance := PrimFloat.sqrt (dx * dx + dy * dy)%float in
  if (distance <? minDistance)%float && (0.001 <? distance)%float then
    let angle := Math_atan2 dy dx in
    let pushDistance := ((minDistance - distance) * 0.8)%float in
    ((newCagr + Math_cos angle * pushDistance)%float,
     (newShare + Math_sin angle * pushDistance)%float, true)
  else acc.

(** [for (let j = 0; j < adjustedData.length; j++) { if (i === j) continue; ... }],
    run over the bubbles from index [j] on. *)
Fixpoint innerLoop (bubble : Bubble float) (i j : nat) (others : list (Bubble float))
    (acc : float * float * bool) : float * float * bool :=
  match others with
  | [] => acc
  | other :: rest =>
      innerLoop bubble i (S j) rest
        (if Nat.eqb i j then acc else pushAway bubble other acc)
  end.

(** The callback of [adjustedData.map((bubble, i) => ...)]; it reads the
    array as it was before the [map], and may set [hasOverlap]. *)
Definition adjust (adjustedData : list (Bubble float)) (i : nat) (bubble : Bubble float)
    (hasOverlap : bool) : Bubble float * bool :=
  let '(newCagr, newShare, hasOverlap) :=
    innerLoop bubble i 0 adjustedData
              (cagrIndex bubble, marketShareIndex bubble, hasOverlap) in
  ({| raw := raw bubble;
      cagrIndex := clamp newCagr;
      marketShareIndex := clamp newShare |}, hasOverlap).

Fixpoint mapAdjust (adjustedData : list (Bubble float)) (i : nat)
    (todo : list (Bubble float)) (hasOverlap : bool) : list (Bubble float) * bool :=
  match todo with
  | [] => ([], hasOverlap)
  | bubble :: rest =>
      let '(bubble', hasOverlap) := adjust adjustedData i bubble hasOverlap in
      let '(rest', hasOverlap) := mapAdjust adjustedData (S i) rest hasOverlap in
      (bubble' :: rest', hasOverlap)
  end.

(** The body of the [for] loop: the new array and the final [hasOverlap]. *)
Definition relaxIteration (adjustedData : list (Bubble float))
    : list (Bubble float) * bool :=
  mapAdjust adjustedData 0 adjustedData false.

(** The [for] loop with [remaining] iterations left: the final array and the
    number of iterations run. *)
Fixpoint relaxLoop (remaining : nat) (adjustedData : list (Bubble float))
    : list (Bubble float) * nat :=
  match remaining with
  | O => (adjustedData, O)
  | S remaining' =>
      let '(next, hasOverlap) := relaxIteration adjustedData in
      if hasOverlap
      then let '(final, n) := relaxLoop remaining' next in (final, S n)
      else (next, 1%nat)
  end.

Definition relax (normalized : list (Bubble float)) : list (Bubble float) * nat :=
  relaxLoop maxIterations normalized.

End Relaxation.

(** *** The chart rows (source lines 985-1000) *)

Record BubblePoint (num : Type) : Type := {
  bp_region : string;
  bp_cagrIndex : num;
  bp_marketShareIndex : num;
  bp_incrementalOpportunity : R;
  bp_colorIndex : Z
}.
Arguments Build_BubblePoint {num}.
Arguments bp_region {num} _.
Arguments bp_cagrIndex {num} _.
Arguments bp_marketShareIndex {num} _.
Arguments bp_incrementalOpportunity {num} _.
Arguments bp_colorIndex {num} _.

(** [xs.findIndex(p)], [-1] when nothing matches. *)
Fixpoint findIndex {A : Type} (p : A → bool) (xs : list A) (i : Z) : Z :=
  match xs with
  | [] => (-1)%Z
  | x :: rest => if p x then i else findIndex p rest (i + 1)%Z
  end.

(** [sortedByOpportunity.map(item => ...)].  The callback reads
    [adjusted.cagrIndex] of the bubble found by name, or of the first bubble;
    with no bubble at all that read throws. *)
Definition bubbleData {num : Type} (sortedByOpportunity : list RawBubble)
    (adjusted : list (Bubble num)) : Completion (list (BubblePoint num)) :=
  foldr (λ item rest,
           let found :=
             match List.find (λ d, String.eqb (region (raw d)) (region item)) adjusted with
             | Some d => Some d
             | None => adjusted !! 0%nat
             end in
           match found, rest with
           | None, _ => Throw "TypeError"
           | _, Throw e => Throw e
           | Some d, Normal points =>
               Normal ({| bp_region := region item;
                          bp_cagrIndex := cagrIndex d;
                          bp_marketShareIndex := marketShareIndex d;
                          bp_incrementalOpportunity :=
                            if Req_dec_T (incrementalOpportunity item) 0 then 1000
                            else incrementalOpportunity item;
                          bp_colorIndex :=
                            findIndex (λ d', String.eqb (region d') (region item))
                                      sortedByOpportunity 0 |} :: points)
           end)
        (Normal []) sortedByOpportunity.

(** *** Bubble sizes (the [BubbleChart] component, source lines 2167-2186) *)

(** [sizeRange > 0 ? 30 + ((opportunity - minOpportunity) / sizeRange) * 170 : 100] *)
Definition normalizedSize (minOpportunity sizeRange opportunity : R) : R :=
  if Rlt_dec 0 sizeRange
  then 30 + ((opportunity - minOpportunity) / sizeRange) * 170
  else 100.

(** The [z] of every point of [transformedData]. *)
Definition bubbleSizes {num : Type} (data : list (BubblePoint num)) : list R :=
  let maxOpportunity := Math_max (bp_incrementalOpportunity <$> data) in
  let minOpportunity := Math_min (bp_incrementalOpportunity <$> data) in
  let sizeRange := maxOpportunity - minOpportunity in
  (λ item, normalizedSize minOpportunity sizeRange (bp_incrementalOpportunity item))
    <$> data.

End BubbleChart.

(* ===================================================================== *)
(** * Part II.  Properties                                                *)
(* ===================================================================== *)

(** ** The synthesizer *)
Module GeneratorFacts.
Import JS DataGenerator.

(** The seeds the generator can be in. *)
Definition seedOk (s : Z) : Prop := 0 ≤ s < 233280.

(** [m] run from [st] returns normally, in a result and state satisfying [post]. *)
Definition runs {A : Type} (m : Gen A) (st : GenState)
    (post : A → GenState → Prop) : Prop :=
  ∃ a st', m st = Normal (a, st') ∧ post a st'.

(** A draw advances the seed and leaves [recordId] and [data] alone. *)
Definition drawn (st st' : GenState) : Prop :=
  seedOk (st_seed st') ∧ st_recordId st' = st_recordId st ∧ st_data st' = st_data st.

(** The segmentation key of a record: the seven loop variables. *)
Definition Key : Type := Z * string * string * string * string * string * string.

Definition keyOf (r : ShovelMarketData) : Key :=
  (year r, region r, country r, serviceType r, endUserType r,
   deliveryChannel r, businessModel r).

(** The combinations the loops enumerate, in loop order. *)
Definition allCombinations : list Key :=
  y ← years; reg ← regions; c ← default [] (obj_get countryMap reg);
  s ← serviceTypes; e ← endUserTypes; d ← deliveryChannels; b ← businessModels;
  [(y, reg, c, s, e, d, b)].

(** The sub-type invariant of one record. *)
Definition subtypeOk (r : ShovelMarketData) : Prop :=
  let subtypes := default [] (obj_get applicationSubtypes (endUser r)) in
  if decide (subtypes = []) then distributionChannel r = endUser r
  else distributionChannel r ∈ subtypes.

(** [m] appends one record per key of [keys], numbered on from the current
    [recordId], each satisfying the sub-type invariant. *)
Definition Emits (m : Gen unit) (keys : list Key) : Prop :=
  ∀ st, seedOk (st_seed st) →
    runs m st (λ _ st',
      seedOk (st_seed st') ∧
      ∃ rs, st_data st' = st_data st ++ rs ∧
            st_recordId st' = st_recordId st + Z.of_nat (length rs) ∧
            keyOf <$> rs = keys ∧
            (∀ (i : nat) r, rs !! i = Some r → recordId r = st_recordId st + Z.of_nat i) ∧
            Forall subtypeOk rs).

(** [getData] called [k] times in a row: the results, and the final module state. *)
Fixpoint getDataTimes (generate : Completion (list ShovelMarketData)) (k : nat)
    (m : ModuleState) : list (list ShovelMarketData) * ModuleState :=
  match k with
  | O => ([], m)
  | S k' =>
      let '(r, m') := getDataWith generate m in
      let '(rs, m'') := getDataTimes generate k' m' in
      (r :: rs, m'')
  end.

Lemma runs_ret {A} (a : A) st (post : A → GenState → Prop) :
  post a st → runs (ret a) st post.
Proof. intros H. exists a, st. split; [reflexivity | exact H]. Qed.

Lemma runs_bind {A B} (m : Gen A) (k : A → Gen B) st (post : B → GenState → Prop) :
  runs m st (λ a st', runs (k a) st' post) → runs (bind m k) st post.
Proof.
  intros (a & st' & Hm & b & st'' & Hk & Hpost).
  exists b, st''. split; [| exact Hpost].
  unfold bind. rewrite Hm. exact Hk.
Qed.

Lemma runs_mono {A} (m : Gen A) st (post post' : A → GenState → Prop) :
  runs m st post → (∀ a st', post a st' → post' a st') → runs m st post'.
Proof. intros (a & st' & Hm & Hp) Himp. exists a, st'. auto. Qed.

Lemma drawn_trans st1 st2 st3 : drawn st1 st2 → drawn st2 st3 → drawn st1 st3.
Proof.
  unfold drawn. intros (? & ? & ?) (? & ? & ?).
  split; [assumption | split; congruence].
Qed.

Lemma seed_step s : 0 ≤ s → seedOk ((s * 9301 + 49297) `rem` 233280).
Proof.
  intros Hs. unfold seedOk.
  apply Z.rem_bound_pos; lia.
Qed.

Lemma unit_interval s : seedOk s → (0 <= inject_Z s / 233280 ∧ inject_Z s / 233280 < 1)%Q.
Proof.
  intros [Hlo Hhi]. unfold Qle, Qlt. simpl. lia.
Qed.

(** The index [Math.floor(r * n)] of a draw [r] in [0,1) is a valid index. *)
Lemma floor_index (r : Q) (n : nat) :
  (0 <= r)%Q → (r < 1)%Q → (0 < n)%nat →
  0 ≤ Math_floor (r * inject_Z (Z.of_nat n)) < Z.of_nat n.
Proof.
  intros Hr0 Hr1 Hn. unfold Math_floor.
  assert (Hn' : (0 < inject_Z (Z.of_nat n))%Q).
  { change 0%Q with (inject_Z 0). rewrite <- Zlt_Qlt. lia. }
  split.
  - rewrite <- (Qfloor_Z 0). apply Qfloor_resp_le.
    apply Qmult_le_0_compat; [exact Hr0 | apply Qlt_le_weak; exact Hn'].
  - rewrite Zlt_Qlt.
    eapply Qle_lt_trans; [apply Qfloor_le |].
    rewrite <- (Qmult_1_l (inject_Z (Z.of_nat n))) at 2.
    apply Qmult_lt_compat_r; assumption.
Qed.

Lemma runs_seededRandom st (post : Q → GenState → Prop) :
  seedOk (st_seed st) →
  (∀ r st', (0 <= r)%Q → (r < 1)%Q → drawn st st' → post r st') →
  runs seededRandom st post.
Proof.
  intros Hseed Hpost. unfold seededRandom.
  eexists _, _. split; [reflexivity |].
  assert (Hok : seedOk ((st_seed st * 9301 + 49297) `rem` 233280))
    by (apply seed_step; apply Hseed).
  destruct (unit_interval _ Hok) as [H0 H1].
  apply Hpost; [exact H0 | exact H1 |].
  repeat split; simpl; try reflexivity; apply Hok.
Qed.

(** A draw from a non-empty array succeeds and yields one of its elements. *)
Lemma pick_total {A} (arr : list A) st (post : A → GenState → Prop) :
  seedOk (st_seed st) → arr ≠ [] →
  (∀ x st', x ∈ arr → drawn st st' → post x st') →
  runs (pick arr) st post.
Proof.
  intros Hseed Hne Hpost. unfold pick.
  apply runs_bind. apply runs_seededRandom; [exact Hseed |].
  intros r st' Hr0 Hr1 Hdrawn.
  assert (Hlen : (0 < length arr)%nat) by (destruct arr; [congruence | simpl; lia]).
  pose proof (floor_index r (length arr) Hr0 Hr1 Hlen) as [Hlo Hhi].
  unfold arr_get.
  destruct (Z.leb_spec 0 (Math_floor (r * inject_Z (Z.of_nat (length arr))))) as [_ | Hneg];
    [| lia].
  destruct (lookup_lt_is_Some_2 arr
              (Z.to_nat (Math_floor (r * inject_Z (Z.of_nat (length arr))))))
    as [x Hx]; [lia |].
  rewrite Hx. apply runs_ret. apply Hpost; [| exact Hdrawn].
  eapply list_elem_of_lookup_2. exact Hx.
Qed.

Lemma runs_prop {A} (entry : option A) (v : A) st (post : A → GenState → Prop) :
  entry = Some v → post v st → runs (prop entry) st post.
Proof. intros -> Hpost. apply runs_ret. exact Hpost. Qed.

(** Every name a loop or a draw can produce has its multiplier entry. *)
Ltac by_cases_on H :=
  repeat (apply elem_of_cons in H as [-> | H]; [eexists; reflexivity |]);
  apply elem_of_nil in H; destruct H.

Lemma productMult_defined p :
  p ∈ productTypes → ∃ m, obj_get productTypeMultipliers p = Some m.
Proof. intros H. unfold productTypes in H. by_cases_on H. Qed.

Lemma bladeMult_defined b :
  b ∈ bladeMaterials → ∃ m, obj_get bladeMaterialMultipliers b = Some m.
Proof. intros H. unfold bladeMaterials in H. by_cases_on H. Qed.

Lemma appMult_defined a :
  a ∈ applications → ∃ m, obj_get applicationMultipliers a = Some m.
Proof. intros H. unfold applications in H. by_cases_on H. Qed.

Lemma userMult_defined u :
  u ∈ endUsers → ∃ m, obj_get endUserMultipliers u = Some m.
Proof. intros H. unfold endUsers in H. by_cases_on H. Qed.

Lemma regionMult_defined reg :
  reg ∈ regions → ∃ m, obj_get regionMultipliers reg = Some m.
Proof. intros H. unfold regions in H. by_cases_on H. Qed.

(** The draw of [distributionChannel]: one of the sub-types of [endUser] when
    there are any, [endUser] itself otherwise. *)
Lemma channel_total (endUser : string) st (post : string → GenState → Prop) :
  seedOk (st_seed st) →
  (∀ dc st',
     (let subtypes := default [] (obj_get applicationSubtypes endUser) in
      if decide (subtypes = []) then dc = endUser else dc ∈ subtypes) →
     drawn st st' → post dc st') →
  runs (if (0 <? Z.of_nat (length (default [] (obj_get applicationSubtypes endUser))))%Z
        then pick (default [] (obj_get applicationSubtypes endUser))
        else ret endUser) st post.
Proof.
  intros Hseed Hpost. cbv zeta in Hpost.
  destruct (default [] (obj_get applicationSubtypes endUser)) as [| s0 rest] eqn:Hsub.
  - simpl. apply runs_ret. apply Hpost.
    + destruct (decide ([] = [])) as [_ | Hne]; [reflexivity | congruence].
    + repeat split; [apply Hseed | apply Hseed].
  - replace (0 <? Z.of_nat (length (s0 :: rest)))%Z with true
      by (symmetry; apply Z.ltb_lt; simpl; lia).
    apply pick_total; [exact Hseed | discriminate |].
    intros x st' Hx Hd. apply Hpost; [| exact Hd].
    destruct (decide (s0 :: rest = [])) as [Heq | _]; [discriminate | exact Hx].
Qed.

Ltac chain Hd Hnew :=
  let H := fresh "Hd" in
  pose proof (drawn_trans _ _ _ Hd Hnew) as H; clear Hd Hnew; rename H into Hd.

Tactic Notation "draw_pick" hyp(Hd) ident(x) ident(Hx) :=
  let Hnew := fresh "Hnew" in
  let st := fresh "st" in
  cbv beta zeta; apply runs_bind; apply pick_total; [exact (proj1 Hd) | discriminate |];
  intros x st Hx Hnew; chain Hd Hnew.

Ltac draw_number Hd :=
  let Hnew := fresh "Hnew" in
  let st := fresh "st" in
  let r := fresh "r" in
  cbv beta zeta; apply runs_bind; apply runs_seededRandom; [exact (proj1 Hd) |];
  intros r st _ _ Hnew; chain Hd Hnew.

Ltac read_prop H :=
  cbv beta zeta; apply runs_bind; eapply runs_prop; [exact H |].

(** One turn of the innermost loop appends exactly one record. *)
Lemma genRecord_emits y reg regionMult c s e d b :
  is_Some regionMult →
  Emits (genRecord y reg regionMult c s e d b) [(y, reg, c, s, e, d, b)].
Proof.
  intros [rm Hrm] st0 Hseed.
  assert (Hd : drawn st0 st0) by (repeat split; apply Hseed).
  unfold genRecord.
  draw_pick Hd productType HproductType.
  draw_pick Hd bladeMaterial HbladeMaterial.
  draw_pick Hd handleLength HhandleLength.
  draw_pick Hd application Happlication.
  draw_pick Hd endUser HendUser.
  draw_number Hd.
  cbv beta zeta. apply runs_bind. apply channel_total; [exact (proj1 Hd) |].
  intros dc stc Hdc Hnew. chain Hd Hnew.
  draw_pick Hd brand Hbrand.
  draw_pick Hd company Hcompany.
  draw_number Hd.
  destruct (productMult_defined _ HproductType) as [pm Hpm].
  destruct (bladeMult_defined _ HbladeMaterial) as [bm Hbm].
  destruct (appMult_defined _ Happlication) as [am Ham].
  destruct (userMult_defined _ HendUser) as [um Hum].
  read_prop Hpm. read_prop Hbm.
  draw_number Hd.
  read_prop Hrm. read_prop Ham. read_prop Hum.
  draw_number Hd. draw_number Hd. draw_number Hd. draw_number Hd. draw_number Hd.
  cbv beta zeta.
  destruct Hd as (Hseed' & Hid & Hdata).
  eexists tt, _. split; [reflexivity |]. simpl.
  split; [exact Hseed' |].
  eexists [_]. rewrite Hdata, Hid. simpl.
  split; [reflexivity |]. split; [reflexivity |]. split; [reflexivity |].
  split.
  - intros [| i] r' Hr; simpl in Hr; [| discriminate].
    injection Hr as <-. simpl. lia.
  - constructor; [| constructor].
    unfold subtypeOk. simpl. exact Hdc.
Qed.

Lemma Emits_ret : Emits (ret tt) [].
Proof.
  intros st Hseed. apply runs_ret. split; [exact Hseed |].
  exists []. rewrite app_nil_r. simpl.
  repeat split; [lia | | constructor].
  intros i r Hr. rewrite lookup_nil in Hr. discriminate.
Qed.

Lemma Emits_seq (m1 m2 : Gen unit) keys1 keys2 :
  Emits m1 keys1 → Emits m2 keys2 → Emits (bind m1 (λ _, m2)) (keys1 ++ keys2).
Proof.
  intros H1 H2 st Hseed. apply runs_bind.
  eapply runs_mono; [apply H1; exact Hseed |].
  intros [] st1 (Hseed1 & rs1 & Hdata1 & Hid1 & Hkeys1 & Hnum1 & Hsub1).
  eapply runs_mono; [apply H2; exact Hseed1 |].
  intros [] st2 (Hseed2 & rs2 & Hdata2 & Hid2 & Hkeys2 & Hnum2 & Hsub2).
  split; [exact Hseed2 |].
  exists (rs1 ++ rs2). repeat split.
  - rewrite Hdata2, Hdata1, app_assoc. reflexivity.
  - rewrite Hid2, Hid1, length_app. lia.
  - rewrite fmap_app, Hkeys1, Hkeys2. reflexivity.
  - intros i r Hr. apply lookup_app_Some in Hr as [Hr | [Hge Hr]].
    + apply Hnum1. exact Hr.
    + apply Hnum2 in Hr. rewrite Hr, Hid1. lia.
  - apply Forall_app. split; assumption.
Qed.

(** A [for ... of] loop emits the concatenation of what its turns emit. *)
Lemma Emits_forOf {A} (xs : list A) (body : A → Gen unit) (f : A → list Key) :
  (∀ x, x ∈ xs → Emits (body x) (f x)) → Emits (forOf xs body) (xs ≫= f).
Proof.
  induction xs as [| x xs IH]; intros Hbody.
  - apply Emits_ret.
  - simpl forOf. rewrite bind_cons. apply Emits_seq.
    + apply Hbody. apply elem_of_cons. left. reflexivity.
    + apply IH. intros x' Hx'. apply Hbody. apply elem_of_cons. right. exact Hx'.
Qed.

Lemma generateLoops_emits : Emits generateLoops allCombinations.
Proof.
  unfold generateLoops, allCombinations.
  apply Emits_forOf. intros y _.
  apply Emits_forOf. intros reg Hreg. cbv zeta.
  destruct (regionMult_defined reg Hreg) as [rm Hrm].
  apply Emits_forOf. intros c _.
  apply Emits_forOf. intros s _.
  apply Emits_forOf. intros e _.
  apply Emits_forOf. intros d _.
  apply Emits_forOf. intros b _.
  apply genRecord_emits. rewrite Hrm. eexists. reflexivity.
Qed.

Lemma length_bind_const {A B} (l : list A) (f : A → list B) (n : Z) :
  (∀ x, x ∈ l → Z.of_nat (length (f x)) = n) →
  Z.of_nat (length (l ≫= f)) = Z.of_nat (length l) * n.
Proof.
  induction l as [| x l IH]; intros Hf; [reflexivity |].
  rewrite bind_cons, length_app, Nat2Z.inj_add.
  rewrite Hf by (apply elem_of_cons; left; reflexivity).
  rewrite IH; [simpl length; lia |].
  intros x' Hx'. apply Hf. apply elem_of_cons. right. exact Hx'.
Qed.

(** 15 years, 20 countries, 7 x 7 x 3 x 6 segment combinations. *)
Lemma allCombinations_length : Z.of_nat (length allCombinations) = 264600.
Proof.
  unfold allCombinations.
  rewrite (length_bind_const years _ 17640); [reflexivity |].
  intros y _.
  assert (Hinner : ∀ reg c : string,
    Z.of_nat (length (s ← serviceTypes; e ← endUserTypes; d ← deliveryChannels;
                      b ← businessModels; [(y, reg, c, s, e, d, b)])) = 882).
  { intros reg c.
    rewrite (length_bind_const serviceTypes _ 126); [reflexivity |]. intros s _.
    rewrite (length_bind_const endUserTypes _ 18); [reflexivity |]. intros e _.
    rewrite (length_bind_const deliveryChannels _ 6); [reflexivity |]. intros d _.
    rewrite (length_bind_const businessModels _ 1); [reflexivity |]. intros b _.
    reflexivity. }
  assert (Hregion : ∀ (reg : string) (cs : list string),
    Z.of_nat (length (c ← cs; s ← serviceTypes; e ← endUserTypes; d ← deliveryChannels;
                      b ← businessModels; [(y, reg, c, s, e, d, b)]))
    = Z.of_nat (length cs) * 882).
  { intros reg cs. apply length_bind_const. intros c _. apply Hinner. }
  unfold regions. rewrite !bind_cons, !length_app, !Nat2Z.inj_add, !Hregion.
  reflexivity.
Qed.

(** The generator never throws: started from any valid seed it returns one
    record per combination, numbered from 100000, each with a valid sub-type. *)
Lemma generateFrom_normal seed0 :
  seedOk seed0 →
  ∃ data, generateFrom seed0 = Normal data ∧
          keyOf <$> data = allCombinations ∧
          (∀ (i : nat) r, data !! i = Some r → recordId r = 100000 + Z.of_nat i) ∧
          Forall subtypeOk data.
Proof.
  intros Hseed. unfold generateFrom.
  destruct (generateLoops_emits
              {| st_seed := seed0; st_recordId := 100000; st_data := [] |} Hseed)
    as ([] & st' & Hrun & _ & rs & Hdata & _ & Hkeys & Hnum & Hsub).
  rewrite Hrun. simpl in Hdata, Hnum. exists (st_data st'). rewrite Hdata.
  repeat split; assumption.
Qed.

Lemma generateComprehensiveData_normal :
  ∃ data, generateComprehensiveData = Normal data ∧
          keyOf <$> data = allCombinations ∧
          (∀ (i : nat) r, data !! i = Some r → recordId r = 100000 + Z.of_nat i) ∧
          Forall subtypeOk data.
Proof. apply generateFrom_normal. unfold seedOk. lia. Qed.

(** Elements of a nested enumeration carry the value they were built from. *)
Lemma NoDup_bind_tagged {A B} (l : list A) (f : A → list B) (tag : B → A) :
  NoDup l →
  (∀ x y, x ∈ l → y ∈ f x → tag y = x) →
  (∀ x, x ∈ l → NoDup (f x)) →
  NoDup (l ≫= f).
Proof.
  intros Hl Htag Hf. apply NoDup_bind; [| exact Hf | exact Hl].
  intros x1 x2 y H1 H2 Hy1 Hy2.
  rewrite <- (Htag x1 y H1 Hy1). apply Htag; assumption.
Qed.

Ltac open_bind H :=
  repeat (let x := fresh "x" in let Hx := fresh "Hx" in
          apply list_elem_of_bind in H as (x & H & Hx));
  apply list_elem_of_singleton in H; subst.

Ltac nodup_by_computation := apply (bool_decide_unpack _); vm_compute; exact I.

Lemma NoDup_years : NoDup years.
Proof. nodup_by_computation. Qed.

Lemma NoDup_regions : NoDup regions.
Proof. nodup_by_computation. Qed.

Lemma NoDup_obj_get (tbl : list (string * list string)) (key : string) :
  Forall (λ entry, NoDup entry.2) tbl → NoDup (default [] (obj_get tbl key)).
Proof.
  induction 1 as [| [k v] tbl Hv _ IH]; simpl; [constructor |].
  destruct (String.eqb k key); [exact Hv | exact IH].
Qed.

Lemma NoDup_countries reg : NoDup (default [] (obj_get countryMap reg)).
Proof.
  apply NoDup_obj_get. unfold countryMap.
  repeat (constructor; [simpl; nodup_by_computation |]). constructor.
Qed.

Lemma NoDup_segments :
  NoDup serviceTypes ∧ NoDup endUserTypes ∧ NoDup deliveryChannels ∧ NoDup businessModels.
Proof. repeat split; nodup_by_computation. Qed.

(** No combination is enumerated twice. *)
Lemma NoDup_allCombinations : NoDup allCombinations.
Proof.
  destruct NoDup_segments as (Hs & He & Hd & Hb).
  unfold allCombinations.
  apply (NoDup_bind_tagged _ _ (λ k : Key, k.1.1.1.1.1.1)); [apply NoDup_years | |].
  { intros y k _ Hk. open_bind Hk. reflexivity. }
  intros y _.
  apply (NoDup_bind_tagged _ _ (λ k : Key, k.1.1.1.1.1.2)); [apply NoDup_regions | |].
  { intros reg k _ Hk. open_bind Hk. reflexivity. }
  intros reg _.
  apply (NoDup_bind_tagged _ _ (λ k : Key, k.1.1.1.1.2)); [apply NoDup_countries | |].
  { intros c k _ Hk. open_bind Hk. reflexivity. }
  intros c _.
  apply (NoDup_bind_tagged _ _ (λ k : Key, k.1.1.1.2)); [exact Hs | |].
  { intros sv k _ Hk. open_bind Hk. reflexivity. }
  intros sv _.
  apply (NoDup_bind_tagged _ _ (λ k : Key, k.1.1.2)); [exact He | |].
  { intros e k _ Hk. open_bind Hk. reflexivity. }
  intros e _.
  apply (NoDup_bind_tagged _ _ (λ k : Key, k.1.2)); [exact Hd | |].
  { intros d k _ Hk. open_bind Hk. reflexivity. }
  intros d _.
  apply (NoDup_bind_tagged _ _ (λ k : Key, k.2)); [exact Hb | |].
  { intros b k _ Hk. apply list_elem_of_singleton in Hk. subst. reflexivity. }
  intros b _. apply NoDup_singleton.
Qed.

(** C10.  [generateComprehensiveData] returns normally with exactly 264,600
    records: the list of their segmentation keys is the enumeration of the
    15 years x 20 countries (in their regions) x 7 service types x 7 end-user
    types x 3 delivery channels x 6 business models, each combination once,
    and the record at position [i] has [recordId = 100000 + i], so the
    identifiers run from 100000 through 364599 in generation order. *)
Theorem generate_all_combinations :
  ∃ data,
    generateComprehensiveData = Normal data ∧
    Z.of_nat (length data) = 264600 ∧
    keyOf <$> data = allCombinations ∧
    NoDup allCombinations ∧
    (∀ (i : nat) r, data !! i = Some r → recordId r = 100000 + Z.of_nat i) ∧
    (∀ id, 100000 ≤ id ≤ 364599 →
           ∃ r, data !! Z.to_nat (id - 100000) = Some r ∧ recordId r = id).
Proof.
  destruct generateComprehensiveData_normal as (data & Hgen & Hkeys & Hnum & _).
  assert (Hlen : Z.of_nat (length data) = 264600).
  { rewrite <- allCombinations_length, <- Hkeys, length_fmap. reflexivity. }
  exists data. split; [exact Hgen |]. split; [exact Hlen |].
  split; [exact Hkeys |]. split; [apply NoDup_allCombinations |].
  split; [exact Hnum |].
  intros id Hid.
  destruct (lookup_lt_is_Some_2 data (Z.to_nat (id - 100000))) as [r Hr]; [lia |].
  exists r. split; [exact Hr |].
  rewrite (Hnum _ _ Hr). lia.
Qed.

(** C4.  Every record returned by [generateComprehensiveData] has a
    [distributionChannel] that is a member of [applicationSubtypes[endUser]]
    when that list is non-empty, and equal to [endUser] otherwise. *)
Theorem generated_channel_in_subtypes :
  ∃ data,
    generateComprehensiveData = Normal data ∧
    data ≠ [] ∧
    ∀ r, r ∈ data →
      let subtypes := default [] (obj_get applicationSubtypes (endUser r)) in
      (subtypes ≠ [] → distributionChannel r ∈ subtypes) ∧
      (subtypes = [] → distributionChannel r = endUser r).
Proof.
  destruct generateComprehensiveData_normal as (data & Hgen & Hkeys & _ & Hsub).
  exists data. split; [exact Hgen |]. split.
  - intros ->. pose proof allCombinations_length as Hlen.
    rewrite <- Hkeys in Hlen. simpl in Hlen. lia.
  - intros r Hr. rewrite Forall_forall in Hsub. specialize (Hsub r Hr).
    unfold subtypeOk in Hsub. cbv zeta in *.
    destruct (decide (default [] (obj_get applicationSubtypes (endUser r)) = []))
      as [Hempty | Hfull].
    + split; [intros Hne; contradiction | intros _; exact Hsub].
    + split; [intros _; exact Hsub | intros He; contradiction].
Qed.

(** A call of [getData] on a cleared cache runs the generation step once
    and caches what it returned. *)
Lemma getDataWith_cleared generate data (m : ModuleState) :
  generate = Normal data →
  getDataWith generate (clearDataCache m)
  = (data, {| dataCache := Some data; generations := S (generations m) |}).
Proof. intros ->. reflexivity. Qed.

(** C1.  Two calls of [getData], each after the cache was cleared, both run
    the generator and return the same record sequence: the sequence the
    generator yields from the seed 42 it starts every call with. *)
Theorem generate_deterministic (m : ModuleState) :
  let first := getData (clearDataCache m) in
  let second := getData (clearDataCache first.2) in
  first.1 = second.1 ∧
  generateFrom 42 = Normal first.1 ∧
  Z.of_nat (length first.1) = 264600 ∧
  generations second.2 = S (S (generations m)).
Proof.
  destruct generateComprehensiveData_normal as (data & Hgen & Hkeys & _).
  assert (Hlen : Z.of_nat (length data) = 264600).
  { rewrite <- allCombinations_length, <- Hkeys, length_fmap. reflexivity. }
  assert (Hfrom : generateFrom 42 = Normal data) by exact Hgen.
  intros first second. subst first second. unfold getData.
  revert Hgen. generalize generateComprehensiveData. intros generate ->.
  unfold getDataWith, clearDataCache. cbn.
  split; [reflexivity |]. split; [exact Hfrom |]. split; [exact Hlen | reflexivity].
Qed.

(** Once something is cached, [getData] returns it and changes nothing. *)
Lemma getDataWith_cached generate (m : ModuleState) d :
  dataCache m = Some d → getDataWith generate m = (d, m).
Proof. intros H. unfold getDataWith. rewrite H. reflexivity. Qed.

Lemma getDataTimes_cached generate (n : nat) (m : ModuleState) d :
  dataCache m = Some d → getDataTimes generate n m = (replicate n d, m).
Proof.
  intros H. induction n as [| n IH]; [reflexivity |].
  simpl. rewrite (getDataWith_cached _ _ _ H), IH. reflexivity.
Qed.

(** C7.  When the generation step throws, [getData] returns the empty
    sequence instead of propagating the exception and caches it: however
    often [getData] is called afterwards, every call returns the empty
    sequence and the generation step has been invoked exactly once; only
    after [clearDataCache] is it invoked again. *)
Theorem getData_fails_closed (generate : Completion (list ShovelMarketData))
    (msg : string) (m : ModuleState) (k : nat) :
  generate = Throw msg →
  dataCache m = None →
  let run := getDataTimes generate (S k) m in
  length run.1 = S k ∧
  Forall (λ result, result = []) run.1 ∧
  dataCache run.2 = Some [] ∧
  generations run.2 = S (generations m) ∧
  generations (getDataWith generate (clearDataCache run.2)).2 = S (S (generations m)).
Proof.
  intros -> Hcache run. subst run.
  assert (Hfirst : getDataWith (Throw msg) m
                   = ([], {| dataCache := Some []; generations := S (generations m) |})).
  { unfold getDataWith. rewrite Hcache. reflexivity. }
  simpl getDataTimes. rewrite Hfirst.
  rewrite (getDataTimes_cached _ k {| dataCache := Some []; generations := S (generations m) |} []
             eq_refl). simpl.
  split; [rewrite length_replicate; reflexivity |].
  split; [| repeat split].
  constructor; [reflexivity |].
  apply Forall_replicate. reflexivity.
Qed.

Lemma getData_fails_closed_witness :
  let generate : Completion (list ShovelMarketData) := Throw "TypeError" in
  let m := {| dataCache := None; generations := 0 |} in
  let run := getDataTimes generate 3 m in
  length run.1 = 3%nat ∧
  Forall (λ result, result = []) run.1 ∧
  dataCache run.2 = Some [] ∧
  generations run.2 = 1%nat ∧
  generations (getDataWith generate (clearDataCache run.2)).2 = 2%nat.
Proof.
  exact (getData_fails_closed (Throw "TypeError")
           "TypeError" {| dataCache := None; generations := 0 |} 2 eq_refl eq_refl).
Defined.

End GeneratorFacts.

(** ** The filter engine *)
Module FilterFacts.
Import JS DataGenerator.

(** What one filter entry demands of a record: nothing, unless it is a
    non-empty array, in which case the record's field has to be listed. *)
Definition accepts (fractionToString : Q → string) (entry : string * filterValue)
    (item : ShovelMarketData) : bool :=
  match entry with
  | (field, FArray (v :: values)) => keeps fractionToString field (v :: values) item
  | _ => true
  end.

Section Composition.

Variable fractionToString : Q → string.

Lemma applyEntry_filter filtered entry :
  applyEntry fractionToString filtered entry
  = List.filter (accepts fractionToString entry) filtered.
Proof.
  destruct entry as [field [[| v values] | other]]; simpl.
  - induction filtered as [| x l IH]; [reflexivity | simpl; congruence].
  - reflexivity.
  - induction filtered as [| x l IH]; [reflexivity | simpl; congruence].
Qed.

Lemma filter_filter_and {A} (p q : A → bool) (l : list A) :
  List.filter q (List.filter p l) = List.filter (λ x, p x && q x) l.
Proof.
  induction l as [| x l IH]; [reflexivity |]. simpl.
  destruct (p x) eqn:Hp; simpl; [destruct (q x) |]; rewrite IH; reflexivity.
Qed.

(** [filterDataframe] keeps, in their order, the records every entry accepts. *)
Lemma filterDataframe_filter data filters :
  filterDataframe fractionToString data filters
  = List.filter (λ item, forallb (λ entry, accepts fractionToString entry item) filters) data.
Proof.
  unfold filterDataframe. revert data.
  induction filters as [| entry filters IH]; intros data; simpl.
  - induction data as [| x l IHl]; [reflexivity | simpl; congruence].
  - rewrite IH, applyEntry_filter, filter_filter_and. reflexivity.
Qed.

(** C3.  Applying two single-entry filters one after the other gives the same
    list as applying the filter object that holds both entries, whichever of
    the two comes first; a record is in the result exactly when it is in the
    input and both entries accept it. *)
Theorem filter_composition (data : list ShovelMarketData) (e1 e2 : string * filterValue) :
  filterDataframe fractionToString (filterDataframe fractionToString data [e1]) [e2]
  = filterDataframe fractionToString data [e1; e2] ∧
  filterDataframe fractionToString (filterDataframe fractionToString data [e2]) [e1]
  = filterDataframe fractionToString data [e1; e2] ∧
  filterDataframe fractionToString data [e2; e1]
  = filterDataframe fractionToString data [e1; e2] ∧
  ∀ item, In item (filterDataframe fractionToString data [e1; e2]) ↔
          In item data ∧ accepts fractionToString e1 item = true
                       ∧ accepts fractionToString e2 item = true.
Proof.
  rewrite !filterDataframe_filter, !filter_filter_and.
  assert (Hext : ∀ (p q : ShovelMarketData → bool), (∀ x, p x = q x) →
                 List.filter p data = List.filter q data).
  { intros p q Hpq. induction data as [| x l IH]; [reflexivity |].
    simpl. rewrite Hpq, IH. reflexivity. }
  split; [| split; [| split]].
  - apply Hext. intros x. simpl. rewrite !andb_true_r. reflexivity.
  - apply Hext. intros x. simpl. rewrite !andb_true_r. apply andb_comm.
  - apply Hext. intros x. simpl. rewrite !andb_true_r. apply andb_comm.
  - intros item. rewrite filter_In. simpl. rewrite andb_true_r, andb_true_iff.
    reflexivity.
Qed.

End Composition.

Section Stability.

Variable fractionToString : Q → string.

Lemma filter_sublist {A} (p : A → bool) (l : list A) : sublist (List.filter p l) l.
Proof.
  induction l as [| x l IH]; simpl; [constructor |].
  destruct (p x); [apply sublist_skip | apply sublist_cons]; exact IH.
Qed.

(** Filtering twice with the same filter object changes nothing more. *)
Theorem filter_idempotent (data : list ShovelMarketData) (filters : FilterOptions) :
  filterDataframe fractionToString (filterDataframe fractionToString data filters) filters
  = filterDataframe fractionToString data filters.
Proof.
  rewrite !filterDataframe_filter, filter_filter_and.
  induction data as [| x l IH]; [reflexivity |]. simpl.
  rewrite andb_diag. destruct (forallb _ filters); rewrite IH; reflexivity.
Qed.

(** [filterDataframe] selects: the result is a sub-sequence of the input
    (same records, same relative order, nothing added), and a filter object
    whose entries are all empty arrays or non-arrays returns the input. *)
Theorem filter_selects (data : list ShovelMarketData) (filters : FilterOptions) :
  sublist (filterDataframe fractionToString data filters) data ∧
  ((∀ field values, (field, FArray values) ∈ filters → values = []) →
   filterDataframe fractionToString data filters = data).
Proof.
  rewrite filterDataframe_filter. split; [apply filter_sublist |].
  intros Hempty.
  assert (Hall : ∀ item, forallb (λ entry, accepts fractionToString entry item) filters = true).
  { intros item. apply forallb_forall. intros [field [[| v values] | other]] Hin;
      try reflexivity.
    apply list_elem_of_In in Hin. specialize (Hempty _ _ Hin). discriminate. }
  induction data as [| x l IH]; [reflexivity |]. simpl.
  rewrite Hall, IH. reflexivity.
Qed.

Lemma Number_toString_int (y : Z) :
  Number_toString fractionToString (inject_Z y) = String_of_int y.
Proof.
  unfold Number_toString. cbv zeta.
  rewrite (Qcanon.Qred_identity (inject_Z y)) by (simpl; apply Z.gcd_1_r).
  reflexivity.
Qed.

Lemma existsb_eqb_pretty (y : Z) (ys : list Z) :
  existsb (String.eqb (String_of_int y)) (String_of_int <$> ys) = bool_decide (y ∈ ys).
Proof.
  induction ys as [| y' ys IH].
  - symmetry. apply bool_decide_eq_false_2. apply not_elem_of_nil.
  - rewrite fmap_cons. cbn [existsb]. rewrite IH. destruct (String.eqb_spec (String_of_int y) (String_of_int y')) as [Heq | Hne].
    + apply (inj pretty) in Heq. subst. simpl.
      symmetry. apply bool_decide_eq_true_2. left.
    + simpl. apply bool_decide_ext. rewrite elem_of_cons.
      split; [tauto |]. intros [-> | H]; [congruence | exact H].
Qed.

(** The year filter compares numerals: a selection of years given as
    strings ("2024") accepts the same records as the selection given as
    numbers (2024), namely those whose year is selected. *)
Theorem year_filter_by_numeral (ys : list Z) (item : ShovelMarketData) :
  keeps fractionToString "year" ((λ y, JString (String_of_int y)) <$> ys) item
  = bool_decide (year item ∈ ys) ∧
  keeps fractionToString "year" ((λ y, JNumber (inject_Z y)) <$> ys) item
  = bool_decide (year item ∈ ys).
Proof.
  assert (Hyear : item_get item "year" = JNumber (inject_Z (year item))) by reflexivity.
  unfold keeps. rewrite Hyear. cbn [String.eqb Ascii.eqb Bool.eqb andb is_number js_String].
  rewrite Number_toString_int, <- !list_fmap_compose.
  split.
  - rewrite <- existsb_eqb_pretty. reflexivity.
  - rewrite <- existsb_eqb_pretty. f_equal.
    apply list_fmap_ext. intros i y _. simpl. apply Number_toString_int.
Qed.

End Stability.

End FilterFacts.


(** ** Decimal numerals and the keys built from them *)
Module KeyFacts.
Import JS.

(** Strings made of decimal digits only. *)
Fixpoint digits (s : string) : Prop :=
  match s with
  | EmptyString => True
  | String c rest => c ≠ "-"%char ∧ digits rest
  end.

Lemma pretty_N_char_digit (x : N) : pretty_N_char x ≠ "-"%char.
Proof. unfold pretty_N_char. repeat case_match; discriminate. Qed.

Lemma pretty_N_go_digits (x : N) (s : string) : digits s → digits (pretty_N_go x s).
Proof.
  revert s. induction (N.lt_wf_0 x) as [x _ IH]; intros s Hs.
  destruct (decide (x = 0)%N) as [-> | Hx]; [exact Hs |].
  rewrite pretty_N_go_step by lia. apply IH.
  - apply N.div_lt; lia.
  - split; [apply pretty_N_char_digit | exact Hs].
Qed.

Lemma pretty_N_go_length (x : N) (s : string) :
  (String.length s ≤ String.length (pretty_N_go x s))%nat.
Proof.
  revert s. induction (N.lt_wf_0 x) as [x _ IH]; intros s.
  destruct (decide (x = 0)%N) as [-> | Hx]; [reflexivity |].
  rewrite pretty_N_go_step by lia.
  etrans; [| apply IH; apply N.div_lt; lia]. simpl. lia.
Qed.

(** The numeral of a natural number is a non-empty string of digits. *)
Lemma pretty_N_shape (x : N) :
  ∃ c rest, pretty x = String c rest ∧ digits (String c rest).
Proof.
  assert (Hd : digits (pretty x)).
  { unfold pretty, pretty_N. case_decide; [simpl; split; [discriminate | exact I] |].
    apply pretty_N_go_digits. exact I. }
  destruct (pretty x) as [| c rest] eqn:Hp; [| eauto].
  exfalso. unfold pretty, pretty_N in Hp. case_decide; [discriminate |].
  pose proof (pretty_N_go_step x "" ltac:(lia)) as Hstep.
  pose proof (pretty_N_go_length (x `div` 10)%N
                (String (pretty_N_char (x `mod` 10)%N) "")) as Hlen.
  rewrite <- Hstep, Hp in Hlen. simpl in Hlen. lia.
Qed.

(** In [a ++ "-" ++ s] with [a] made of digits, the first dash ends [a]. *)
Lemma digits_dash_split (a b s t : string) :
  digits a → digits b →
  a +:+ "-" +:+ s = b +:+ "-" +:+ t → a = b ∧ s = t.
Proof.
  revert b. induction a as [| c a IH]; intros [| c' b] Ha Hb Heq.
  - change (String "-" s = String "-" t) in Heq.
    injection Heq as Heq. split; [reflexivity | exact Heq].
  - change (String "-" s = String c' (b +:+ "-" +:+ t)) in Heq.
    injection Heq as Hc _. destruct Hb as [Hb _]. congruence.
  - change (String c (a +:+ "-" +:+ s) = String "-" t) in Heq.
    injection Heq as Hc _. destruct Ha as [Ha _]. congruence.
  - change (String c (a +:+ "-" +:+ s) = String c' (b +:+ "-" +:+ t)) in Heq.
    injection Heq as Hc Heq. destruct Ha as [_ Ha], Hb as [_ Hb].
    destruct (IH b Ha Hb Heq) as [Hab Hst]. split; congruence.
Qed.

(** The key [`${year}-${segment}`] determines the year and the segment. *)
Lemma year_segment_key_inj (y1 y2 : Z) (s1 s2 : string) :
  String_of_int y1 +:+ "-" +:+ s1 = String_of_int y2 +:+ "-" +:+ s2 →
  y1 = y2 ∧ s1 = s2.
Proof.
  unfold String_of_int.
  assert (Hnat : ∀ z : Z, 0 ≤ z → ∃ c rest,
            pretty z = String c rest ∧ digits (String c rest)).
  { intros [| p | p] Hz; [| | lia].
    - exists "0"%char, "". split; [reflexivity | simpl; split; [discriminate | exact I]].
    - apply (pretty_N_shape (N.pos p)). }
  assert (Hneg : ∀ p : positive, pretty (Z.neg p) = "-" +:+ pretty (N.pos p))
    by reflexivity.
  intros Heq.
  destruct (Z_lt_le_dec y1 0) as [H1 | H1], (Z_lt_le_dec y2 0) as [H2 | H2].
  - destruct y1 as [| p1 | p1], y2 as [| p2 | p2]; try lia.
    rewrite !Hneg in Heq. simpl in Heq. injection Heq as Heq.
    destruct (pretty_N_shape (N.pos p1)) as (c1 & r1 & E1 & D1).
    destruct (pretty_N_shape (N.pos p2)) as (c2 & r2 & E2 & D2).
    rewrite E1, E2 in Heq.
    destruct (digits_dash_split _ _ _ _ D1 D2 Heq) as [Hp ->].
    rewrite <- E1, <- E2 in Hp. apply (inj pretty) in Hp.
    split; [congruence | reflexivity].
  - destruct y1 as [| p1 | p1]; try lia.
    destruct (Hnat y2 H2) as (c2 & r2 & E2 & D2).
    rewrite Hneg, E2 in Heq. simpl in Heq. injection Heq as <- _.
    destruct D2 as [D2 _]. congruence.
  - destruct y2 as [| p2 | p2]; try lia.
    destruct (Hnat y1 H1) as (c1 & r1 & E1 & D1).
    rewrite Hneg, E1 in Heq. simpl in Heq. injection Heq as -> _.
    destruct D1 as [D1 _]. congruence.
  - destruct (Hnat y1 H1) as (c1 & r1 & E1 & D1).
    destruct (Hnat y2 H2) as (c2 & r2 & E2 & D2).
    rewrite E1, E2 in Heq.
    destruct (digits_dash_split _ _ _ _ D1 D2 Heq) as [Hp ->].
    rewrite <- E1, <- E2 in Hp. apply (inj pretty) in Hp.
    split; [exact Hp | reflexivity].
Qed.

End KeyFacts.

(** ** Records for examples *)
Module Samples.
Import DataGenerator.

(** A record with the given measures [usd] and [volume]; only the fields the
    analyses read vary, [other] fills the remaining measures. *)
Definition sampleOf {num : Type} (other : num) (y : Z) (reg ctry service : string)
    (usd volume : num) : ShovelMarketData_ num :=
  {| recordId := 100000; year := y; region := reg; country := ctry;
     serviceType := service;
     endUserType := "Public Figures";
     deliveryChannel := "Hybrid Engagement";
     businessModel := "Licensing / Affiliate Programs";
     productType := "Slow Pyrolysis"; bladeMaterial := "Bamboo";
     handleLength := "Industrial Grade"; application := "Liquid";
     endUser := "Food & Beverage"; distributionChannelType := "Direct";
     distributionChannel := "Natural Flavoring"; brand := "Ames";
     company := "Ames True Temper"; price := other; volumeUnits := volume;
     qty := volume; revenue := usd; marketValueUsd := usd; value := usd;
     marketSharePct := other; cagr := other; yoyGrowth := other |}.

(** A record of the generator's kind, and one of the page's kind. *)
Definition sample : Z → string → string → string → Q → Q → ShovelMarketData :=
  sampleOf 1%Q.

Definition pageSample
    : Z → string → string → string → float → float → ShovelMarketData_ float :=
  sampleOf 1%float.

(** Three records in two years and two segments. *)
Definition scenario : list ShovelMarketData :=
  [ sample 2024 "North America" "U.S." "A" 1000 10;
    sample 2024 "North America" "Canada" "B" 3000 30;
    sample 2025 "North America" "U.S." "A" 2000 20 ].

Definition pageScenario : list (ShovelMarketData_ float) :=
  [ pageSample 2024 "North America" "U.S." "A" 1000 10;
    pageSample 2024 "North America" "Canada" "B" 3000 30;
    pageSample 2025 "North America" "U.S." "A" 2000 20 ].

End Samples.

(** ** Objects built by assignment *)
Module ObjectFacts.
Import MarketAnalysis.

Lemma obj_assign_lookup (entry : gmap string cell) (s : string) (v : cell) :
  s ≠ "__proto__" → obj_assign entry s v !! s = Some v.
Proof.
  intros Hs. unfold obj_assign. rewrite (proj2 (String.eqb_neq _ _) Hs).
  apply lookup_insert_eq.
Qed.

Lemma obj_assign_lookup_ne (entry : gmap string cell) (k s : string) (v : cell) :
  k ≠ s → obj_assign entry k v !! s = entry !! s.
Proof.
  intros Hne. unfold obj_assign. destruct (String.eqb k "__proto__"); [reflexivity |].
  apply lookup_insert_ne. exact Hne.
Qed.

Lemma obj_assign_proto (entry : gmap string cell) (k : string) (v : cell) :
  obj_assign entry k v !! "__proto__" = entry !! "__proto__".
Proof.
  unfold obj_assign. destruct (String.eqb_spec k "__proto__") as [_ | Hne];
    [reflexivity |].
  apply lookup_insert_ne. exact Hne.
Qed.

(** Assigning [g k] under every name [k] of a list leaves [g s] under each
    listed name [s] other than [__proto__], whatever the object held. *)
Lemma assign_all_lookup (g : string → cell) (keys : list string)
    (init : gmap string cell) (s : string) :
  s ∈ keys → s ≠ "__proto__" →
  foldl (λ entry k, obj_assign entry k (g k)) init keys !! s = Some (g s).
Proof.
  intros Hs Hproto. revert init. induction keys as [| k keys IH]; intros init.
  - apply elem_of_nil in Hs. destruct Hs.
  - simpl. destruct (decide (s ∈ keys)) as [Hin | Hout]; [apply IH; exact Hin |].
    apply elem_of_cons in Hs as [<- | Hs]; [| contradiction].
    clear IH.
    assert (Hkeep : ∀ init : gmap string cell,
              foldl (λ entry k, obj_assign entry k (g k)) init keys !! s = init !! s).
    { induction keys as [| k' keys IH]; intros init'; [reflexivity |].
      rewrite not_elem_of_cons in Hout. destruct Hout as [Hne Hout].
      simpl. rewrite (IH Hout). apply obj_assign_lookup_ne. congruence. }
    rewrite Hkeep. apply obj_assign_lookup. exact Hproto.
Qed.

(** No assignment makes an own property [__proto__]. *)
Lemma assign_all_proto (g : string → cell) (keys : list string)
    (init : gmap string cell) :
  foldl (λ entry k, obj_assign entry k (g k)) init keys !! "__proto__"
  = init !! "__proto__".
Proof.
  revert init. induction keys as [| k keys IH]; intros init; [reflexivity |].
  simpl. rewrite IH. apply obj_assign_proto.
Qed.

End ObjectFacts.

(** ** The year x segment pivot *)
Module PivotFacts.
Import JS DataGenerator Number MarketAnalysis ObjectFacts Samples.

(** The records of year [y] whose segment is [s]. *)
Definition inCell (getSegmentValue : PageRecord → string) (y : Z) (s : string)
    (d : PageRecord) : bool :=
  Z.eqb (year d) y && String.eqb (getSegmentValue d) s.

(** The sum the page keeps of a sequence of numbers: they are added one by
    one, in binary64, and a sum that has become [0] or [NaN] counts as [0]
    when the next number is added. *)
Definition runningSum (xs : list float) : float :=
  foldl (λ acc x, (number_or (Some acc) 0 + x)%float) 0%float xs.

(** The metric of the records of a cell, in the order of the records. *)
Definition cellValues (marketEvaluation : string) (getSegmentValue : PageRecord → string)
    (y : Z) (s : string) (data : list PageRecord) : list float :=
  getDataValue marketEvaluation <$> List.filter (inCell getSegmentValue y s) data.

(** The number a cell shows. *)
Definition cellTotal (marketEvaluation : string) (getSegmentValue : PageRecord → string)
    (y : Z) (s : string) (data : list PageRecord) : float :=
  number_or (Some (runningSum (cellValues marketEvaluation getSegmentValue y s data))) 0.

Lemma set_of_spec {A} `{EqDecision A} (xs seen : list A) (x : A) :
  x ∈ set_of xs seen ↔ x ∈ xs ∧ x ∉ seen.
Proof.
  revert seen. induction xs as [| a xs IH]; intros seen; simpl.
  - rewrite elem_of_nil. tauto.
  - destruct (decide (a ∈ seen)) as [Ha | Ha].
    + rewrite IH, elem_of_cons. split; [tauto |].
      intros [[-> | Hx] Hn]; [contradiction | tauto].
    + rewrite elem_of_cons, IH, !elem_of_cons. split.
      * intros [-> | [Hx Hn]]; [tauto |]. split; [tauto |]. intros Hs. apply Hn. tauto.
      * intros [[-> | Hx] Hn]; [tauto |].
        destruct (decide (x = a)) as [-> | Hne]; [tauto |].
        right. split; [exact Hx |]. intros [-> | Hs]; [congruence | contradiction].
Qed.

Lemma set_of_NoDup {A} `{EqDecision A} (xs seen : list A) : NoDup (set_of xs seen).
Proof.
  revert seen. induction xs as [| a xs IH]; intros seen; simpl; [constructor |].
  destruct (decide (a ∈ seen)); [apply IH |].
  constructor; [| apply IH].
  rewrite set_of_spec, elem_of_cons. tauto.
Qed.

Lemma distinct_spec {A} `{EqDecision A} (xs : list A) (x : A) :
  x ∈ distinct xs ↔ x ∈ xs.
Proof. unfold distinct. rewrite set_of_spec, elem_of_nil. tauto. Qed.

(** The rows of the pivot: one per year that occurs in the data. *)
Lemma analysisYears_spec (data : list PageRecord) (y : Z) :
  y ∈ analysisYears data ↔ ∃ d, d ∈ data ∧ year d = y.
Proof.
  unfold analysisYears, sort_numbers.
  rewrite merge_sort_Permutation, distinct_spec, list_elem_of_fmap.
  split; intros (d & H1 & H2); exists d; auto.
Qed.

Lemma analysisYears_NoDup (data : list PageRecord) : NoDup (analysisYears data).
Proof.
  unfold analysisYears, sort_numbers.
  rewrite merge_sort_Permutation. apply set_of_NoDup.
Qed.

Lemma sorted_truthy_spec (sel : list string) (s : string) :
  s ∈ sort_strings (List.filter truthy sel) ↔ s ∈ sel ∧ s ≠ "".
Proof.
  unfold sort_strings. rewrite merge_sort_Permutation, list_elem_of_In, filter_In.
  rewrite <- list_elem_of_In. unfold truthy. rewrite negb_true_iff, String.eqb_neq.
  reflexivity.
Qed.

Section Pivot.

Variable marketEvaluation : string.
Variable getSegmentValue : PageRecord → string.

(** What [segmentMap] holds under the key of [(y, s)] after the [forEach]:
    the records of the cell have been added to it one by one. *)
Lemma accumulate_lookup data (m : gmap string float) (y : Z) (s : string) :
  foldl (accumulate marketEvaluation getSegmentValue) m data !! segmentKeyOf y s
  = foldl (λ acc x, Some (number_or acc 0 + x)%float) (m !! segmentKeyOf y s)
          (cellValues marketEvaluation getSegmentValue y s data).
Proof.
  unfold cellValues. revert m. induction data as [| d data IH]; intros m; [reflexivity |].
  simpl foldl at 1. rewrite IH. unfold accumulate, inCell. cbn [List.filter].
  destruct (decide (segmentKeyOf (year d) (getSegmentValue d) = segmentKeyOf y s))
    as [Hkey | Hkey].
  - rewrite Hkey, lookup_insert_eq.
    apply KeyFacts.year_segment_key_inj in Hkey as [-> ->].
    rewrite Z.eqb_refl, String.eqb_refl. reflexivity.
  - rewrite lookup_insert_ne by exact Hkey.
    destruct (Z.eqb_spec (year d) y) as [Hy | Hy]; simpl; [| reflexivity].
    destruct (String.eqb_spec (getSegmentValue d) s) as [Hs | Hs]; [| reflexivity].
    exfalso. apply Hkey. rewrite Hy, Hs. reflexivity.
Qed.

Lemma fold_from_some (a : float) (xs : list float) :
  foldl (λ acc x, Some (number_or acc 0 + x)%float) (Some a) xs
  = Some (foldl (λ acc x, (number_or (Some acc) 0 + x)%float) a xs).
Proof.
  revert a. induction xs as [| x xs IH]; intros a; [reflexivity |].
  simpl. apply IH.
Qed.

(** A cell that no record has reached reads as [0], like the sum of no number. *)
Lemma fold_from_none (xs : list float) :
  number_or (foldl (λ acc x, Some (number_or acc 0 + x)%float) None xs) 0
  = number_or (Some (runningSum xs)) 0.
Proof.
  destruct xs as [| x xs]; [reflexivity |].
  unfold runningSum. simpl foldl. rewrite fold_from_some. reflexivity.
Qed.

Lemma segmentMap_cell data (y : Z) (s : string) :
  number_or (foldl (accumulate marketEvaluation getSegmentValue) ∅ data
               !! segmentKeyOf y s) 0
  = cellTotal marketEvaluation getSegmentValue y s data.
Proof.
  rewrite accumulate_lookup, lookup_empty. apply fold_from_none.
Qed.

Lemma cellTotal_empty data (y : Z) (s : string) :
  (∀ d, d ∈ data → inCell getSegmentValue y s d = false) →
  cellTotal marketEvaluation getSegmentValue y s data = 0%float.
Proof.
  intros Hnone. unfold cellTotal, cellValues.
  assert (Hempty : List.filter (inCell getSegmentValue y s) data = []).
  { induction data as [| d data IH]; [reflexivity |]. simpl.
    rewrite (Hnone d) by left. apply IH. intros d' Hd'. apply Hnone. right. exact Hd'. }
  rewrite Hempty. reflexivity.
Qed.

(** A row holds, for each listed segment other than [__proto__], the number
    of its key, and never an own property [__proto__]. *)
Lemma chartRow_lookup (m : gmap string float) (segments : list string) (y : Z)
    (s : string) :
  s ∈ segments → s ≠ "__proto__" →
  chartRow m segments y !! s = Some (CNumber (number_or (m !! segmentKeyOf y s) 0)).
Proof.
  intros Hs Hproto. unfold chartRow.
  apply (assign_all_lookup
           (λ k, CNumber (number_or (m !! segmentKeyOf y k) 0)) segments _ s Hs Hproto).
Qed.

Lemma chartRow_proto (m : gmap string float) (segments : list string) (y : Z) :
  chartRow m segments y !! "__proto__" = None.
Proof.
  unfold chartRow.
  rewrite (assign_all_proto (λ k, CNumber (number_or (m !! segmentKeyOf y k) 0))).
  reflexivity.
Qed.

End Pivot.

(** C2.  For an explicit segment list, every year that occurs
    in the filtered records has a row, and the row of year [y] holds, for
    every listed segment whose name is neither empty nor [__proto__], the
    running binary64 sum of the metric over the records of that year and
    segment, in the order of the records ([0] when there is none).  Empty
    names are dropped from the segment list, and no row ever gets an entry
    [__proto__]. *)
Theorem segment_pivot_complete (filteredData : list PageRecord)
    (marketEvaluation segmentKey : string)
    (getSegmentValue : PageRecord → string) (sel : list string)
    (i : nat) (y : Z) :
  analysisYears filteredData !! i = Some y →
  let out := generateSegmentChartData filteredData marketEvaluation segmentKey
               getSegmentValue (Some sel) in
  (∀ y', (∃ d, d ∈ filteredData ∧ year d = y') ↔ y' ∈ analysisYears filteredData) ∧
  length out.1 = length (analysisYears filteredData) ∧
  (∀ s, s ∈ sel → s ≠ "" → s ∈ out.2) ∧
  ∃ row, out.1 !! i = Some row ∧
    row !! "__proto__" = None ∧
    ∀ s, s ∈ sel → s ≠ "" → s ≠ "__proto__" →
      row !! s
      = Some (CNumber (cellTotal marketEvaluation getSegmentValue y s filteredData)) ∧
      ((∀ d, d ∈ filteredData → inCell getSegmentValue y s d = false) →
       row !! s = Some (CNumber 0%float)).
Proof.
  intros Hy out. subst out. unfold generateSegmentChartData. cbn [fst snd].
  set (segments := if (0 <? Z.of_nat (length sel))%Z
                   then sort_strings (List.filter truthy sel) else _).
  set (segmentMap := foldl (accumulate marketEvaluation getSegmentValue) ∅ filteredData).
  assert (Hsegs : ∀ s, s ∈ sel → s ≠ "" → s ∈ segments).
  { intros s Hs Hne. unfold segments.
    replace (0 <? Z.of_nat (length sel))%Z with true.
    - apply sorted_truthy_spec. split; assumption.
    - symmetry. apply Z.ltb_lt. destruct sel; [apply elem_of_nil in Hs; destruct Hs |].
      simpl. lia. }
  split; [intros y'; symmetry; apply analysisYears_spec |].
  split; [apply length_fmap |].
  split; [exact Hsegs |].
  exists (chartRow segmentMap segments y).
  split; [rewrite list_lookup_fmap, Hy; reflexivity |].
  split; [apply chartRow_proto |].
  intros s Hs Hne Hproto.
  assert (Hrow : chartRow segmentMap segments y !! s
                 = Some (CNumber (cellTotal marketEvaluation getSegmentValue y s
                                    filteredData))).
  { rewrite (chartRow_lookup _ _ _ _ (Hsegs s Hs Hne) Hproto).
    unfold segmentMap. rewrite segmentMap_cell. reflexivity. }
  split; [exact Hrow |].
  intros Hnone. rewrite Hrow, (cellTotal_empty _ _ _ _ _ Hnone). reflexivity.
Qed.

Lemma segment_pivot_complete_witness :
  let out := generateSegmentChartData pageScenario "By Value" "serviceType"
               serviceType (Some ["A"; "B"]) in
  (∀ y', (∃ d, d ∈ pageScenario ∧ year d = y') ↔ y' ∈ analysisYears pageScenario) ∧
  length out.1 = length (analysisYears pageScenario) ∧
  (∀ s, s ∈ ["A"; "B"] → s ≠ "" → s ∈ out.2) ∧
  ∃ row, out.1 !! 1%nat = Some row ∧
    row !! "__proto__" = None ∧
    ∀ s, s ∈ ["A"; "B"] → s ≠ "" → s ≠ "__proto__" →
      row !! s = Some (CNumber (cellTotal "By Value" serviceType 2025 s pageScenario)) ∧
      ((∀ d, d ∈ pageScenario → inCell serviceType 2025 s d = false) →
       row !! s = Some (CNumber 0%float)).
Proof.
  apply (segment_pivot_complete pageScenario "By Value" "serviceType" serviceType
           ["A"; "B"] 1 2025).
  reflexivity.
Defined.

(** Four records of one year, two in each of two segments, with two-decimal
    volumes. *)
Definition unevenScenario : list PageRecord :=
  [ pageSample 2024 "Europe" "U.K." "A" 1000 21.52;
    pageSample 2024 "Europe" "U.K." "B" 1000 61.78;
    pageSample 2024 "Europe" "U.K." "A" 1000 98.0;
    pageSample 2024 "Europe" "U.K." "B" 1000 54.29 ].

(** C2, as stated, fails in three ways.  The listed segments [""] and
    [__proto__] get no entry in the row of a year that occurs in the data.
    And the entries of a row do not add up to the sum of the metric over the
    year's records: the cells of [A] and [B] add up to 235.58999999999997,
    while the four volumes, added in any of their 24 orders, give 235.59. *)
Lemma segment_pivot_counterexample :
  let sel := [""; "__proto__"; "A"; "B"] in
  let out := generateSegmentChartData unevenScenario "By Volume" "serviceType"
               serviceType (Some sel) in
  "" ∈ sel ∧ "__proto__" ∈ sel ∧
  analysisYears unevenScenario = [2024] ∧
  out.2 = ["A"; "B"; "__proto__"] ∧
  ∃ row, out.1 = [row] ∧ row !! "" = None ∧ row !! "__proto__" = None ∧
    row !! "A" = Some (CNumber 119.52%float) ∧
    row !! "B" = Some (CNumber 116.07%float) ∧
    (119.52 + 116.07 = 235.58999999999997)%float ∧
    Forall (λ order, PrimFloat.eqb (foldl PrimFloat.add 0%float order) 235.59 = true)
           (permutations (volumeUnits <$> unevenScenario)).
Proof.
  cbv zeta. split; [left |]. split; [right; left |].
  split; [reflexivity |]. split; [reflexivity |].
  eexists. split; [reflexivity |].
  split; [reflexivity |]. split; [reflexivity |].
  split; [reflexivity |]. split; [reflexivity |].
  split; [reflexivity |].
  apply Forall_forall. intros order Horder. apply list_elem_of_In in Horder.
  revert order Horder. apply forallb_forall. vm_compute. reflexivity.
Qed.

End PivotFacts.

(** ** Binary64 arithmetic: when an operation gives NaN *)
Module Binary64Facts.
Import Number.

Section Rounding.

Variables prec emax : Z.










End Rounding.

(** A number is NaN exactly when its specification is. *)
Lemma isNaN_spec (x : float) : isNaN x = true ↔ Prim2SF x = S754_nan.
Proof.
  unfold isNaN. rewrite negb_true_iff, FloatAxioms.eqb_spec. unfold SFeqb, SFcompare.
  destruct (Prim2SF x) as [s | s | | s m e].
  - split; discriminate.
  - destruct s; split; discriminate.
  - split; reflexivity.
  - rewrite Z.compare_refl. rewrite Pos.compare_cont_refl.
    destruct s; simpl; split; discriminate.
Qed.

Lemma isNaN_false (x : float) : isNaN x = false ↔ Prim2SF x ≠ S754_nan.
Proof.
  rewrite <- isNaN_spec. destruct (isNaN x); split; congruence.
Qed.




End Binary64Facts.

(** ** Year-over-year growth *)
Module YoYFacts.
Import JS DataGenerator Number MarketAnalysis ObjectFacts Samples Binary64Facts.

(** The value of a segment's series in one year: what [yearSegmentDataMap]
    holds for it, [0] when it holds nothing. *)
Definition seriesValue (yearSegmentDataMap : gmap Z (gmap string float)) (year : Z)
    (segmentType : string) : float :=
  number_or (default ∅ (yearSegmentDataMap !! year) !! segmentType) 0.

(** The growth from [previousValue] to [currentValue] in percent, guarded;
    every operation is a binary64 one. *)
Definition growth (previousValue currentValue : float) : float :=
  if (0 <? previousValue)%float
  then ((currentValue - previousValue) / previousValue * 100)%float
  else 0%float.





End YoYFacts.

(** ** The bubble chart *)
Module BubbleFacts.
Import JS BubbleChart.
Local Open Scope R_scope.

(** The growth rate as the specification words it: for a start value [S],
    an end value [E] and a gap of [N] years, [((E/S)^(1/N) - 1) * 100] floored
    at zero when both values are positive, and [0] otherwise. *)
Definition cagrFormula (S E : R) (N : Z) : R :=
  if Rlt_dec 0 S then
    if Rlt_dec 0 E then Rmax 0 ((Rpower (E / S) (1 / IZR N) - 1) * 100) else 0
  else 0.

Lemma seventh_root_of_two : Rpower 2 (1 / 7) ^ 7 = 2.
Proof.
  rewrite <- (Rpower_pow 7) by apply exp_pos.
  rewrite Rpower_mult.
  replace (1 / 7 * INR 7) with 1 by (simpl; field).
  apply Rpower_1. lra.
Qed.

Lemma seventh_root_bounds : 1.10405 < Rpower 2 (1 / 7) < 1.10415.
Proof.
  pose proof seventh_root_of_two as Hpow.
  assert (Hpos : 0 < Rpower 2 (1 / 7)) by apply exp_pos.
  split.
  - apply Rnot_le_lt. intros Hle.
    assert (H7 : Rpower 2 (1 / 7) ^ 7 <= 1.10405 ^ 7)
      by (apply pow_incr; lra).
    rewrite Hpow in H7. simpl in H7. lra.
  - apply Rnot_le_lt. intros Hle.
    assert (H7 : 1.10415 ^ 7 <= Rpower 2 (1 / 7) ^ 7)
      by (apply pow_incr; lra).
    rewrite Hpow in H7. simpl in H7. lra.
Qed.

Lemma root_of_half_below_one : Rpower (1 / 2) (1 / 7) < 1.
Proof.
  assert (Hln : ln (1 / 2) < 0).
  { rewrite <- ln_1. apply ln_increasing; lra. }
  assert (Hmul : 1 / 7 * ln (1 / 2) < 0).
  { assert (H : 1 / 7 * ln (1 / 2) < 1 / 7 * 0)
      by (apply Rmult_lt_compat_l; [lra | exact Hln]).
    lra. }
  unfold Rpower. apply Rlt_le_trans with (exp 0).
  - apply exp_increasing. exact Hmul.
  - rewrite exp_0. lra.
Qed.

(** C5.  The growth rate computed for the bubble chart is the specified
    formula for the gap of 7 years between 2025 and 2032; it is never
    negative; it is [0] for a start value of [0], [0] for a decline from 100
    to 50, and [(2^(1/7) - 1) * 100], which lies between 10.405 and 10.415,
    for a doubling from 100 to 200. *)
Theorem bubble_cagr_formula :
  (∀ startValue endValue,
     bubbleCagr startValue endValue
     = cagrFormula startValue endValue (endYear - startYear)) ∧
  (endYear - startYear = 7)%Z ∧
  (∀ startValue endValue, 0 <= bubbleCagr startValue endValue) ∧
  bubbleCagr 0 100 = 0 ∧
  bubbleCagr 100 50 = 0 ∧
  bubbleCagr 100 200 = (Rpower 2 (1 / 7) - 1) * 100 ∧
  10.405 < bubbleCagr 100 200 < 10.415.
Proof.
  assert (Hdoubling : bubbleCagr 100 200 = (Rpower 2 (1 / 7) - 1) * 100).
  { unfold bubbleCagr, Math_pow.
    destruct (Rlt_dec 0 100) as [_ | Hn]; [| lra].
    destruct (Rlt_dec 0 200) as [_ | Hn]; [| lra].
    replace (IZR (endYear - startYear)) with 7 by reflexivity.
    replace (200 / 100) with 2 by field.
    apply Rmax_right. pose proof seventh_root_bounds. lra. }
  split; [| split; [| split; [| split; [| split; [| split]]]]].
  - intros startValue endValue. unfold bubbleCagr, cagrFormula, Math_pow.
    destruct (Rlt_dec 0 startValue); [destruct (Rlt_dec 0 endValue) |];
      try reflexivity; apply Rmax_left; lra.
  - reflexivity.
  - intros startValue endValue. unfold bubbleCagr. apply Rmax_l.
  - unfold bubbleCagr.
    destruct (Rlt_dec 0 0) as [Hn | _]; [lra |]. apply Rmax_left. lra.
  - unfold bubbleCagr, Math_pow.
    destruct (Rlt_dec 0 100) as [_ | Hn]; [| lra].
    destruct (Rlt_dec 0 50) as [_ | Hn]; [| lra].
    replace (IZR (endYear - startYear)) with 7 by reflexivity.
    replace (50 / 100) with (1 / 2) by field.
    apply Rmax_left. pose proof root_of_half_below_one. lra.
  - exact Hdoubling.
  - rewrite Hdoubling. pose proof seventh_root_bounds. lra.
Qed.

(** *** The order of [sort()] on strings is a total order *)

Lemma compare_trans_le (a b c : string) :
  String.compare a b ≠ Gt → String.compare b c ≠ Gt → String.compare a c ≠ Gt.
Proof.
  revert b c. induction a as [| x a IH]; intros [| y b] [| z c]; simpl;
    try congruence.
  unfold Ascii.compare.
  destruct (N.compare_spec (N_of_ascii x) (N_of_ascii y)) as [Hxy | Hxy | Hxy];
    destruct (N.compare_spec (N_of_ascii y) (N_of_ascii z)) as [Hyz | Hyz | Hyz];
    destruct (N.compare_spec (N_of_ascii x) (N_of_ascii z)) as [Hxz | Hxz | Hxz];
    try congruence; try (exfalso; lia).
  apply IH.
Qed.

#[global] Instance str_le_trans : Transitive str_le.
Proof.
  intros a b c. unfold str_le, String.leb. intros Hab Hbc.
  pose proof (compare_trans_le a b c) as Hac.
  destruct (String.compare a b), (String.compare b c), (String.compare a c);
    try reflexivity; try discriminate; exfalso; apply Hac; congruence.
Qed.

#[global] Instance str_le_total : Total str_le.
Proof. intros a b. apply String.leb_total. Qed.

#[global] Instance str_le_antisym : AntiSymm (=) str_le.
Proof. intros a b. apply String.leb_antisym. Qed.

(** Sorting two duplicate-free lists with the same elements gives one list. *)
Lemma sort_strings_unique (l1 l2 : list string) :
  NoDup l1 → NoDup l2 → (∀ x, x ∈ l1 ↔ x ∈ l2) → sort_strings l1 = sort_strings l2.
Proof.
  intros H1 H2 Hsame. unfold sort_strings.
  apply (StronglySorted_unique str_le).
  - apply StronglySorted_merge_sort; apply _.
  - apply StronglySorted_merge_sort; apply _.
  - rewrite !merge_sort_Permutation. apply NoDup_Permutation; assumption.
Qed.

(** *** The category map *)

Lemma map_set_keys {V} (m : list (string * V)) (k : string) (v : V) :
  map_keys (map_set m k v)
  = if decide (k ∈ map_keys m) then map_keys m else map_keys m ++ [k].
Proof.
  unfold map_keys. induction m as [| [k' v'] m IH]; csimpl.
  - destruct (decide (k ∈ [])) as [Hin | _]; [| reflexivity].
    apply elem_of_nil in Hin. destruct Hin.
  - destruct (String.eqb_spec k' k) as [-> | Hne]; csimpl.
    + rewrite decide_True by left. reflexivity.
    + rewrite IH. destruct (decide (k ∈ m.*1)) as [Hin | Hout].
      * rewrite decide_True by (right; exact Hin). reflexivity.
      * rewrite decide_False; [reflexivity |].
        rewrite elem_of_cons. intros [-> | Hin]; [congruence | contradiction].
Qed.

(** The categories of a data set: the non-empty values its records have
    in the dimension the segment type names. *)
Definition hasCategory (segmentType : string) (d : DataGenerator.ShovelMarketData)
    (k : string) : Prop :=
  getCategoryValue d segmentType = Some k ∧ k ≠ "".

Lemma addToCategory_keys segmentType m d :
  NoDup (map_keys m) →
  NoDup (map_keys (addToCategory segmentType m d)) ∧
  ∀ k, k ∈ map_keys (addToCategory segmentType m d)
       ↔ k ∈ map_keys m ∨ hasCategory segmentType d k.
Proof.
  intros Hnd. unfold addToCategory, hasCategory.
  destruct (getCategoryValue d segmentType) as [cv |].
  - destruct (String.eqb_spec cv "") as [-> | Hne].
    + split; [exact Hnd |]. intros k. split; [tauto |].
      intros [Hk | [[= <-] Hk]]; [exact Hk | congruence].
    + rewrite map_set_keys. destruct (decide (cv ∈ map_keys m)) as [Hin | Hout].
      * split; [exact Hnd |]. intros k. split; [tauto |].
        intros [Hk | [[= <-] Hk]]; [exact Hk | exact Hin].
      * split.
        { apply NoDup_app. split; [exact Hnd |]. split; [| apply NoDup_singleton].
          intros x Hx Hx'. apply list_elem_of_singleton in Hx'. congruence. }
        intros k. rewrite elem_of_app, list_elem_of_singleton. split.
        { intros [Hk | ->]; [left; exact Hk | right; split; [reflexivity | exact Hne]]. }
        intros [Hk | [[= <-] Hk]]; [left; exact Hk | right; reflexivity].
  - split; [exact Hnd |]. intros k. split; [tauto |].
    intros [Hk | [Hk _]]; [exact Hk | discriminate].
Qed.

(** The keys of [categoryDataMap] are the categories of the data, each once. *)
Lemma categoryDataMapOf_keys segmentType data :
  NoDup (map_keys (categoryDataMapOf segmentType data)) ∧
  ∀ k, k ∈ map_keys (categoryDataMapOf segmentType data)
       ↔ ∃ d, d ∈ data ∧ hasCategory segmentType d k.
Proof.
  unfold categoryDataMapOf.
  assert (Hgen : ∀ m, NoDup (map_keys m) →
            NoDup (map_keys (foldl (addToCategory segmentType) m data)) ∧
            ∀ k, k ∈ map_keys (foldl (addToCategory segmentType) m data)
                 ↔ k ∈ map_keys m ∨ ∃ d, d ∈ data ∧ hasCategory segmentType d k).
  { induction data as [| d data IH]; intros m Hm; simpl.
    - split; [exact Hm |]. intros k. split; [tauto |].
      intros [Hk | (d & Hd & _)]; [exact Hk |]. apply elem_of_nil in Hd. destruct Hd.
    - destruct (addToCategory_keys segmentType m d Hm) as [Hnd Hkeys].
      destruct (IH _ Hnd) as [Hnd' Hkeys']. split; [exact Hnd' |].
      intros k. rewrite Hkeys', Hkeys. split.
      + intros [[Hk | Hk] | (d' & Hd' & Hk)]; [tauto | |].
        * right. exists d. split; [left | exact Hk].
        * right. exists d'. split; [right; exact Hd' | exact Hk].
      + intros [Hk | (d' & Hd' & Hk)]; [tauto |].
        apply elem_of_cons in Hd' as [-> | Hd']; [tauto |].
        right. exists d'. split; assumption. }
  destruct (Hgen [] ltac:(constructor)) as [Hnd Hkeys].
  split; [exact Hnd |]. intros k. rewrite Hkeys. split.
  - intros [Hk | Hk]; [apply elem_of_nil in Hk; destruct Hk | exact Hk].
  - intros Hk. right. exact Hk.
Qed.

(** *** Pre-layout positions *)

Definition position (b : RawBubble) : string * R * R :=
  (region b, cagr b, marketShare b).

(** The index-based spacing of the [index]-th of [numItems] names. *)
Definition spacedCagr (index numItems : nat) : R :=
  INR index / Rmax 1 (INR numItems - 1) * 25.

Definition spacedShare (index numItems : nat) : R :=
  js_rem (INR index * 1.618) (INR numItems) / Rmax 1 (INR numItems - 1) * 30.

Lemma sortedItemsOf_same segmentType data1 data2 :
  (∀ k, (∃ d, d ∈ data1 ∧ hasCategory segmentType d k)
        ↔ (∃ d, d ∈ data2 ∧ hasCategory segmentType d k)) →
  sortedItemsOf segmentType data1 = sortedItemsOf segmentType data2.
Proof.
  intros Hsame. unfold sortedItemsOf.
  destruct (categoryDataMapOf_keys segmentType data1) as [Hnd1 Hk1].
  destruct (categoryDataMapOf_keys segmentType data2) as [Hnd2 Hk2].
  apply sort_strings_unique; [exact Hnd1 | exact Hnd2 |].
  intros k. rewrite Hk1, Hk2. apply Hsame.
Qed.

Lemma rawBubbleData_positions segmentType data :
  segmentType ≠ "" →
  position <$> rawBubbleData segmentType data
  = imap (λ index item,
            (item,
             spacedCagr index (length (sortedItemsOf segmentType data)),
             spacedShare index (length (sortedItemsOf segmentType data))))
         (sortedItemsOf segmentType data).
Proof.
  intros Hseg. unfold rawBubbleData.
  destruct (String.eqb_spec segmentType "") as [-> | _]; [congruence |].
  cbv zeta. apply list_eq. intros i.
  rewrite list_lookup_fmap, !list_lookup_imap.
  destruct (sortedItemsOf segmentType data !! i) as [item |]; [| reflexivity].
  simpl. f_equal. unfold position, rawBubble, spacedCagr, spacedShare.
  cbn [region cagr marketShare].
  f_equal; [f_equal |]; lra.
Qed.

(** The names the bubbles are laid out over: the categories of the data,
    each once, in ascending order. *)
Lemma sortedItemsOf_spec segmentType data :
  NoDup (sortedItemsOf segmentType data) ∧
  StronglySorted str_le (sortedItemsOf segmentType data) ∧
  ∀ k, k ∈ sortedItemsOf segmentType data ↔ ∃ d, d ∈ data ∧ hasCategory segmentType d k.
Proof.
  destruct (categoryDataMapOf_keys segmentType data) as [Hnd Hkeys].
  unfold sortedItemsOf, sort_strings. split; [| split].
  - rewrite merge_sort_Permutation. exact Hnd.
  - apply StronglySorted_merge_sort; apply _.
  - intros k. rewrite merge_sort_Permutation. apply Hkeys.
Qed.

(** Without a segment type there are no categories and no bubbles. *)
Lemma rawBubbleData_none data :
  sortedItemsOf "" data = [] ∧ rawBubbleData "" data = [].
Proof.
  split; [| reflexivity]. unfold sortedItemsOf, categoryDataMapOf.
  assert (Hnone : ∀ m, foldl (addToCategory "") m data = m)
    by (induction data as [| d data IH]; intros m; [reflexivity | apply IH]).
  rewrite Hnone. reflexivity.
Qed.

Lemma rawBubbleData_layout segmentType data :
  position <$> rawBubbleData segmentType data
  = imap (λ index item,
            (item,
             spacedCagr index (length (sortedItemsOf segmentType data)),
             spacedShare index (length (sortedItemsOf segmentType data))))
         (sortedItemsOf segmentType data).
Proof.
  destruct (String.eqb_spec segmentType "") as [-> | Hne].
  - destruct (rawBubbleData_none data) as [-> ->]. reflexivity.
  - apply rawBubbleData_positions. exact Hne.
Qed.

(** C9.  The bubbles are laid out over the category names of the data (the
    non-empty values of the grouping field), each once, in ascending order.
    Two filtered data sets with the same set of category names get the same
    names and the same pre-layout bubbles: the name of rank [index] among the
    [n] sorted names gets the growth rate [index / max(1, n-1) * 25] and the
    market share [((index * 1.618) % n) / max(1, n-1) * 30].  The values
    computed from the records do not enter. *)
Theorem bubble_positions_from_names (segmentType : string)
    (data1 data2 : list DataGenerator.ShovelMarketData) :
  (∀ k, (∃ d, d ∈ data1 ∧ hasCategory segmentType d k)
        ↔ (∃ d, d ∈ data2 ∧ hasCategory segmentType d k)) →
  let names := sortedItemsOf segmentType data1 in
  (∀ k, k ∈ names ↔ ∃ d, d ∈ data1 ∧ hasCategory segmentType d k) ∧
  NoDup names ∧
  StronglySorted str_le names ∧
  sortedItemsOf segmentType data2 = names ∧
  position <$> rawBubbleData segmentType data2
  = position <$> rawBubbleData segmentType data1 ∧
  position <$> rawBubbleData segmentType data1
  = imap (λ index item,
            (item, spacedCagr index (length names), spacedShare index (length names)))
         names.
Proof.
  intros Hsame names.
  destruct (sortedItemsOf_spec segmentType data1) as (Hnd & Hsorted & Hkeys).
  pose proof (sortedItemsOf_same segmentType data1 data2 Hsame) as Hnames.
  split; [exact Hkeys |]. split; [exact Hnd |]. split; [exact Hsorted |].
  split; [symmetry; exact Hnames |]. split.
  - rewrite !rawBubbleData_layout, <- Hnames. reflexivity.
  - apply rawBubbleData_layout.
Qed.

(** Two data sets with the categories "A" and "B" and different numbers. *)
Definition otherScenario : list DataGenerator.ShovelMarketData :=
  [ Samples.sample 2025 "Europe" "U.K." "B" 5 7;
    Samples.sample 2032 "Europe" "U.K." "A" 99 1 ].

Lemma scenario_categories (k : string) :
  (∃ d, d ∈ Samples.scenario ∧ hasCategory "By Service Type" d k)
  ↔ (∃ d, d ∈ otherScenario ∧ hasCategory "By Service Type" d k).
Proof.
  rewrite <- !(proj2 (categoryDataMapOf_keys _ _)).
  change (map_keys (categoryDataMapOf "By Service Type" Samples.scenario))
    with ["A"; "B"].
  change (map_keys (categoryDataMapOf "By Service Type" otherScenario))
    with ["B"; "A"].
  rewrite !elem_of_cons, !elem_of_nil. tauto.
Qed.

Lemma bubble_positions_from_names_witness :
  let names := sortedItemsOf "By Service Type" Samples.scenario in
  (∀ k, k ∈ names ↔ ∃ d, d ∈ Samples.scenario ∧ hasCategory "By Service Type" d k) ∧
  NoDup names ∧
  StronglySorted str_le names ∧
  sortedItemsOf "By Service Type" otherScenario = names ∧
  position <$> rawBubbleData "By Service Type" otherScenario
  = position <$> rawBubbleData "By Service Type" Samples.scenario ∧
  position <$> rawBubbleData "By Service Type" Samples.scenario
  = imap (λ index item,
            (item, spacedCagr index (length names), spacedShare index (length names)))
         names.
Proof.
  apply (bubble_positions_from_names "By Service Type" Samples.scenario otherScenario).
  exact scenario_categories.
Defined.

End BubbleFacts.

(** ** The overlap relaxation *)
Module RelaxFacts.
Import JS BubbleChart Number Binary64Facts.

(** *** Comparisons and clamping of binary64 numbers *)

Lemma SFcompare_antisym (x y : spec_float) :
  SFcompare y x = option_map CompOpp (SFcompare x y).
Proof.
  destruct x as [sx | sx | | sx mx ex], y as [sy | sy | | sy my ey];
    try reflexivity;
    try (destruct sx; reflexivity); try (destruct sy; reflexivity);
    try (destruct sx, sy; reflexivity).
  pose proof (Pos.compare_cont_antisym mx my Eq) as Hm. simpl in Hm.
  simpl. destruct sx, sy; try reflexivity.
  - rewrite (Z.compare_antisym ex ey). destruct (ex ?= ey)%Z; try reflexivity.
    simpl. rewrite Hm. reflexivity.
  - rewrite (Z.compare_antisym ex ey). destruct (ex ?= ey)%Z; try reflexivity.
    simpl. rewrite Hm. reflexivity.
Qed.

Lemma SFcompare_nan (x y : spec_float) :
  SFcompare x y = None ↔ x = S754_nan ∨ y = S754_nan.
Proof.
  destruct x as [sx | sx | | sx mx ex], y as [sy | sy | | sy my ey]; simpl;
    try (split; [discriminate | intros [H | H]; discriminate]);
    try (split; [intros _; auto | reflexivity]).
Qed.

(** Among numbers that are not NaN, [a < b] fails exactly when [b <= a]. *)
Lemma ltb_false_leb (a b : float) :
  isNaN a = false → isNaN b = false → (a <? b)%float = false → (b <=? a)%float = true.
Proof.
  intros Ha Hb. apply isNaN_false in Ha, Hb.
  rewrite FloatAxioms.ltb_spec, FloatAxioms.leb_spec. unfold SFltb, SFleb.
  rewrite (SFcompare_antisym (Prim2SF a) (Prim2SF b)).
  destruct (SFcompare (Prim2SF a) (Prim2SF b)) as [[] |] eqn:Hc; simpl;
    try reflexivity; try discriminate.
  apply SFcompare_nan in Hc. tauto.
Qed.

Lemma leb_ltb_false (a b : float) : (a <=? b)%float = true → (b <? a)%float = false.
Proof.
  rewrite FloatAxioms.ltb_spec, FloatAxioms.leb_spec. unfold SFltb, SFleb.
  rewrite (SFcompare_antisym (Prim2SF a) (Prim2SF b)).
  destruct (SFcompare (Prim2SF a) (Prim2SF b)) as [[] |]; simpl;
    try reflexivity; discriminate.
Qed.

Lemma ltb_leb (a b : float) : (a <? b)%float = true → (a <=? b)%float = true.
Proof.
  rewrite FloatAxioms.ltb_spec, FloatAxioms.leb_spec. unfold SFltb, SFleb.
  destruct (SFcompare (Prim2SF a) (Prim2SF b)) as [[] |]; simpl;
    try reflexivity; discriminate.
Qed.

Lemma leb_not_nan (a b : float) :
  (a <=? b)%float = true → isNaN a = false ∧ isNaN b = false.
Proof.
  rewrite FloatAxioms.leb_spec. unfold SFleb. intros Hle.
  rewrite !isNaN_false.
  destruct (SFcompare (Prim2SF a) (Prim2SF b)) eqn:Hc; [| discriminate].
  split; intros Hn; rewrite Hn in Hc;
    [| destruct (Prim2SF a)]; discriminate.
Qed.

(** Every NaN is the one NaN. *)
Lemma isNaN_eq (x : float) : isNaN x = true → x = nan.
Proof.
  intros Hx. apply isNaN_spec in Hx. apply Prim2SF_inj. rewrite Hx. reflexivity.
Qed.

Lemma negativeZero_below (x : float) :
  isNegativeZero x = true → (-2 <? x)%float = true.
Proof.
  unfold isNegativeZero. rewrite classify_spec, FloatAxioms.ltb_spec.
  unfold SF64classify, SFclassify.
  destruct (Prim2SF x) as [[] | [] | | [] m e]; try discriminate;
    try (destruct (Z.eqb _ _); discriminate).
  reflexivity.
Qed.

(** A position inside the square's side [-2, 12]. *)
Definition within (x : float) : bool := (-2 <=? x)%float && (x <=? 12)%float.

(** What [clamp] returns: NaN for NaN, and a number of [-2, 12] otherwise. *)
Lemma clamp_range (x : float) :
  (isNaN x = true ∧ clamp x = nan) ∨ (isNaN x = false ∧ within (clamp x) = true).
Proof.
  unfold clamp, Math_min2, Math_max2.
  destruct (isNaN x) eqn:Hx; [left; split; reflexivity | right; split; [reflexivity |]].
  change (isNaN 12 || false) with false. cbv iota.
  change (isNegativeZero 12) with false. cbv iota.
  assert (Hm : (if (12 <? x)%float then 12%float
                else if (x <? 12)%float then x else x)
               = if (12 <? x)%float then 12%float else x)
    by (destruct (12 <? x)%float, (x <? 12)%float; reflexivity).
  rewrite Hm. clear Hm.
  destruct (12 <? x)%float eqn:H12; [reflexivity |].
  rewrite Hx. change (isNaN (-2) || false) with false. cbv iota.
  assert (Hle : (x <=? 12)%float = true)
    by (apply ltb_false_leb; [reflexivity | exact Hx | exact H12]).
  unfold within.
  destruct (-2 <? x)%float eqn:Hlo.
  - rewrite (ltb_leb _ _ Hlo), Hle. reflexivity.
  - destruct (x <? -2)%float eqn:Hlo'; [reflexivity |].
    destruct (isNegativeZero x); [reflexivity |].
    rewrite (ltb_false_leb x (-2) Hx eq_refl Hlo'), Hle. reflexivity.
Qed.

(** [clamp] leaves the numbers of [-2, 12] and NaN as they are. *)
Lemma clamp_within (x : float) : within x = true → clamp x = x.
Proof.
  unfold within. intros Hx. apply andb_true_iff in Hx as [Hlo Hhi].
  destruct (leb_not_nan _ _ Hhi) as [Hnan _].
  assert (Hmin : Math_min2 12 x = x).
  { unfold Math_min2. rewrite Hnan, (leb_ltb_false _ _ Hhi).
    change (isNaN 12 || false) with false. change (isNegativeZero 12) with false.
    destruct (x <? 12)%float; reflexivity. }
  unfold clamp. rewrite Hmin. unfold Math_max2. rewrite Hnan.
  change (isNaN (-2) || false) with false. cbv iota.
  destruct (-2 <? x)%float eqn:Hlt; [reflexivity |].
  rewrite (leb_ltb_false _ _ Hlo).
  destruct (isNegativeZero x) eqn:Hz; [| reflexivity].
  rewrite (negativeZero_below x Hz) in Hlt. discriminate.
Qed.

Lemma clamp_idempotent (x : float) : clamp (clamp x) = clamp x.
Proof.
  destruct (clamp_range x) as [[_ ->] | [_ Hin]]; [reflexivity |].
  apply clamp_within. exact Hin.
Qed.

(** *** The loop *)

Section Relax.

Variable Math_atan2 : float → float → float.
Variable Math_cos : float → float.
Variable Math_sin : float → float.

Abbreviation pushAway := (BubbleChart.pushAway Math_atan2 Math_cos Math_sin).
Abbreviation innerLoop := (BubbleChart.innerLoop Math_atan2 Math_cos Math_sin).
Abbreviation adjust := (BubbleChart.adjust Math_atan2 Math_cos Math_sin).
Abbreviation mapAdjust := (BubbleChart.mapAdjust Math_atan2 Math_cos Math_sin).
Abbreviation relaxIteration := (BubbleChart.relaxIteration Math_atan2 Math_cos Math_sin).
Abbreviation relaxLoop := (BubbleChart.relaxLoop Math_atan2 Math_cos Math_sin).

(** The test of the inner loop: the computed distance is below
    [minDistance] and above 0.001. *)
Definition overlapping (p q : Bubble float) : bool :=
  (distance p q <? minDistance)%float && (0.001 <? distance p q)%float.

(** No two bubbles at different indices overlap. *)
Definition noOverlap (l : list (Bubble float)) : Prop :=
  ∀ (i j : nat) p q, i ≠ j → l !! i = Some p → l !! j = Some q → overlapping p q = false.

Definition clampBubble (b : Bubble float) : Bubble float :=
  {| raw := raw b;
     cagrIndex := clamp (cagrIndex b);
     marketShareIndex := clamp (marketShareIndex b) |}.

(** A bubble the clamp leaves where it is. *)
Definition settled (b : Bubble float) : Prop := clampBubble b = b.

Lemma pushAway_quiet bubble other acc :
  overlapping bubble other = false → pushAway bubble other acc = acc.
Proof.
  unfold overlapping, distance, BubbleChart.pushAway. cbv zeta. intros Hsep.
  destruct acc as [[newCagr newShare] hasOverlap]. rewrite Hsep. reflexivity.
Qed.

Lemma pushAway_overlap bubble other acc :
  overlapping bubble other = true → (pushAway bubble other acc).2 = true.
Proof.
  unfold overlapping, distance, BubbleChart.pushAway. cbv zeta. intros Hov.
  destruct acc as [[newCagr newShare] hasOverlap]. rewrite Hov. reflexivity.
Qed.

Lemma pushAway_flag bubble other acc :
  acc.2 = true → (pushAway bubble other acc).2 = true.
Proof.
  unfold BubbleChart.pushAway. cbv zeta. destruct acc as [[newCagr newShare] hasOverlap].
  simpl. intros ->. destruct (_ && _); reflexivity.
Qed.

Lemma innerLoop_flag bubble i j others acc :
  acc.2 = true → (innerLoop bubble i j others acc).2 = true.
Proof.
  revert j acc. induction others as [| other rest IH]; intros j acc Hacc; simpl.
  - exact Hacc.
  - apply IH. destruct (Nat.eqb i j); [exact Hacc | apply pushAway_flag; exact Hacc].
Qed.

Lemma innerLoop_quiet bubble i j others acc :
  (∀ k other, others !! k = Some other → i ≠ (j + k)%nat →
              overlapping bubble other = false) →
  innerLoop bubble i j others acc = acc.
Proof.
  revert j acc. induction others as [| other rest IH]; intros j acc Hsep; simpl.
  - reflexivity.
  - rewrite IH.
    + destruct (Nat.eqb_spec i j) as [_ | Hne]; [reflexivity |].
      apply pushAway_quiet. apply (Hsep 0%nat); [reflexivity | lia].
    + intros k o Hk Hne. apply (Hsep (S k)); [exact Hk | lia].
Qed.

Lemma innerLoop_overlap bubble i j others acc k other :
  others !! k = Some other → i ≠ (j + k)%nat → overlapping bubble other = true →
  (innerLoop bubble i j others acc).2 = true.
Proof.
  revert j acc k. induction others as [| o rest IH]; intros j acc k Hk Hne Hov.
  - rewrite lookup_nil in Hk. discriminate.
  - simpl. destruct k as [| k].
    + injection Hk as ->. apply innerLoop_flag.
      destruct (Nat.eqb_spec i j) as [-> | _]; [lia |].
      apply pushAway_overlap. exact Hov.
    + apply (IH (S j) _ k); [exact Hk | lia | exact Hov].
Qed.

Lemma adjust_flag adjustedData i bubble hasOverlap :
  (adjust adjustedData i bubble hasOverlap).2
  = (innerLoop bubble i 0 adjustedData
       (cagrIndex bubble, marketShareIndex bubble, hasOverlap)).2.
Proof.
  unfold BubbleChart.adjust. destruct (innerLoop _ _ _ _ _) as [[c s] h]. reflexivity.
Qed.

Lemma adjust_quiet adjustedData i bubble hasOverlap :
  (∀ j other, adjustedData !! j = Some other → i ≠ j →
              overlapping bubble other = false) →
  adjust adjustedData i bubble hasOverlap = (clampBubble bubble, hasOverlap).
Proof.
  intros Hsep. unfold BubbleChart.adjust. rewrite innerLoop_quiet; [reflexivity |].
  intros k o Hk Hne. apply (Hsep k); [exact Hk | lia].
Qed.

(** Whatever it does, [adjust] returns the same bubble at a clamped position. *)
Lemma adjust_clamped adjustedData i bubble hasOverlap :
  raw (adjust adjustedData i bubble hasOverlap).1 = raw bubble ∧
  settled (adjust adjustedData i bubble hasOverlap).1.
Proof.
  unfold BubbleChart.adjust, settled, clampBubble.
  destruct (innerLoop _ _ _ _ _) as [[c s] h]. simpl.
  rewrite !clamp_idempotent. split; reflexivity.
Qed.

Lemma mapAdjust_flag adjustedData i todo :
  (mapAdjust adjustedData i todo true).2 = true.
Proof.
  revert i. induction todo as [| b rest IH]; intros i; simpl; [reflexivity |].
  pose proof (adjust_flag adjustedData i b true) as Hflag.
  rewrite innerLoop_flag in Hflag by reflexivity.
  destruct (adjust adjustedData i b true) as [b' h]. simpl in Hflag. subst h.
  specialize (IH (S i)).
  destruct (mapAdjust adjustedData (S i) rest true) as [rest' h']. exact IH.
Qed.

Lemma mapAdjust_quiet adjustedData i todo hasOverlap :
  (∀ k b, todo !! k = Some b →
     ∀ j other, adjustedData !! j = Some other → (i + k)%nat ≠ j →
                overlapping b other = false) →
  mapAdjust adjustedData i todo hasOverlap = (clampBubble <$> todo, hasOverlap).
Proof.
  revert i. induction todo as [| b rest IH]; intros i Hsep; simpl; [reflexivity |].
  rewrite adjust_quiet.
  - rewrite IH; [reflexivity |].
    intros k b' Hk j o Hj Hne. apply (Hsep (S k) b' Hk j o Hj). lia.
  - intros j o Hj Hne. apply (Hsep 0%nat b eq_refl j o Hj). lia.
Qed.

Lemma mapAdjust_overlap adjustedData i todo hasOverlap k b j other :
  todo !! k = Some b → adjustedData !! j = Some other → (i + k)%nat ≠ j →
  overlapping b other = true →
  (mapAdjust adjustedData i todo hasOverlap).2 = true.
Proof.
  revert i hasOverlap k. induction todo as [| b0 rest IH]; intros i h k Hk Hj Hne Hov.
  - rewrite lookup_nil in Hk. discriminate.
  - simpl. destruct k as [| k].
    + injection Hk as ->.
      pose proof (adjust_flag adjustedData i b h) as Hflag.
      rewrite (innerLoop_overlap b i 0 adjustedData _ j other Hj) in Hflag
        by (try exact Hov; lia).
      destruct (adjust adjustedData i b h) as [b' h1]. simpl in Hflag. subst h1.
      pose proof (mapAdjust_flag adjustedData (S i) rest) as Hrest.
      destruct (mapAdjust adjustedData (S i) rest true) as [rest' h']. exact Hrest.
    + destruct (adjust adjustedData i b0 h) as [b' h1].
      specialize (IH (S i) h1 k Hk Hj ltac:(lia) Hov).
      destruct (mapAdjust adjustedData (S i) rest h1) as [rest' h']. exact IH.
Qed.

Lemma mapAdjust_clamped adjustedData i todo hasOverlap :
  raw <$> (mapAdjust adjustedData i todo hasOverlap).1 = raw <$> todo ∧
  Forall settled (mapAdjust adjustedData i todo hasOverlap).1.
Proof.
  revert i hasOverlap. induction todo as [| b rest IH]; intros i h.
  - split; [reflexivity | constructor].
  - cbn [BubbleChart.mapAdjust].
    destruct (adjust_clamped adjustedData i b h) as [Hraw Hset].
    destruct (adjust adjustedData i b h) as [b' h1].
    destruct (IH (S i) h1) as [IHraw IHset].
    destruct (mapAdjust adjustedData (S i) rest h1) as [rest' h2].
    cbn [fst] in *. split.
    + csimpl. rewrite Hraw, IHraw. reflexivity.
    + constructor; assumption.
Qed.

(** An iteration finds no overlap exactly when no two bubbles overlap, and
    then it only clamps. *)
Lemma relaxIteration_quiet adjustedData :
  noOverlap adjustedData →
  relaxIteration adjustedData = (clampBubble <$> adjustedData, false).
Proof.
  intros Hsep. unfold BubbleChart.relaxIteration. apply mapAdjust_quiet.
  intros k b Hk j o Hj Hne. apply (Hsep k j); assumption.
Qed.

Lemma relaxIteration_no_overlap adjustedData :
  (relaxIteration adjustedData).2 = false → noOverlap adjustedData.
Proof.
  intros Hflag i j p q Hne Hi Hj.
  destruct (overlapping p q) eqn:Hov; [| reflexivity].
  unfold BubbleChart.relaxIteration in Hflag.
  rewrite (mapAdjust_overlap adjustedData 0 adjustedData false i p j q Hi Hj Hne Hov)
    in Hflag.
  discriminate.
Qed.

Lemma settled_all (l : list (Bubble float)) : Forall settled l → clampBubble <$> l = l.
Proof.
  induction 1 as [| b l Hb _ IH]; [reflexivity |].
  csimpl. rewrite Hb, IH. reflexivity.
Qed.

(** The loop run with [fuel] iterations allowed. *)
Lemma relaxLoop_trace (fuel : nat) (adjustedData : list (Bubble float)) :
  let final := (relaxLoop (S fuel) adjustedData).1 in
  let n := (relaxLoop (S fuel) adjustedData).2 in
  (1 <= n <= S fuel)%nat ∧
  raw <$> final = raw <$> adjustedData ∧
  Forall settled final ∧
  (n = 1%nat ↔ noOverlap adjustedData ∨ fuel = 0%nat) ∧
  ((n <= fuel)%nat →
   ∃ last, noOverlap last ∧ final = clampBubble <$> last ∧
           ((2 <= n)%nat ∨ Forall settled adjustedData → final = last)).
Proof.
  revert adjustedData. induction fuel as [| fuel IH]; intros adjustedData; cbv zeta.
  - simpl.
    destruct (mapAdjust_clamped adjustedData 0 adjustedData false) as [Hraw Hset].
    fold (relaxIteration adjustedData) in Hraw, Hset.
    destruct (relaxIteration adjustedData) as [next [|]]; simpl in *;
      (split; [lia |]); (split; [exact Hraw |]); (split; [exact Hset |]);
      (split; [split; auto | lia]).
  - change (relaxLoop (S (S fuel)) adjustedData)
      with (let '(next, hasOverlap) := relaxIteration adjustedData in
            if hasOverlap
            then let '(final, n) := relaxLoop (S fuel) next in (final, S n)
            else (next, 1%nat)).
    destruct (mapAdjust_clamped adjustedData 0 adjustedData false) as [Hraw Hset].
    fold (relaxIteration adjustedData) in Hraw, Hset.
    destruct (relaxIteration adjustedData) as [next hasOverlap] eqn:Hiter.
    cbn [fst] in Hraw, Hset. destruct hasOverlap.
    + specialize (IH next). cbv zeta in IH.
      destruct (relaxLoop (S fuel) next) as [final n]. cbn [fst snd] in *.
      destruct IH as (Hn & Hfinal & Hsettled & _ & Hlast).
      split; [lia |]. split; [congruence |]. split; [exact Hsettled |].
      split.
      * split; [lia |]. intros [Hquiet | Hfuel]; [| discriminate].
        rewrite (relaxIteration_quiet _ Hquiet) in Hiter. discriminate.
      * intros Hle. destruct Hlast as (last & Hquiet & Hclamp & Hsame); [lia |].
        exists last. split; [exact Hquiet |]. split; [exact Hclamp |].
        intros _. apply Hsame. right. exact Hset.
    + cbn [fst snd].
      assert (Hquiet : noOverlap adjustedData)
        by (apply relaxIteration_no_overlap; rewrite Hiter; reflexivity).
      assert (Hnext : next = clampBubble <$> adjustedData).
      { rewrite (relaxIteration_quiet _ Hquiet) in Hiter. congruence. }
      split; [lia |]. split; [exact Hraw |]. split; [exact Hset |].
      split; [split; auto |].
      intros _. exists adjustedData. split; [exact Hquiet |]. split; [exact Hnext |].
      intros [Hn | Hsettled]; [lia |].
      rewrite Hnext. apply settled_all. exact Hsettled.
Qed.

End Relax.

(** A bubble whose coordinates lie in [-2, 12] is left where it is. *)
Lemma within_settled (b : Bubble float) :
  within (cagrIndex b) = true → within (marketShareIndex b) = true → settled b.
Proof.
  intros Hc Hs. unfold settled, clampBubble.
  rewrite (clamp_within _ Hc), (clamp_within _ Hs). destruct b; reflexivity.
Qed.

(** The relaxation, whatever the host's [Math.atan2], [Math.cos] and
    [Math.sin] return: it runs between 1 and 100 iterations and returns the
    bubbles it was given, in their order, at clamped positions (each
    coordinate NaN or in [-2, 12]).  It stops after the first iteration
    exactly when no two input bubbles overlap.  When it stops before the
    100th iteration, no two of the bubbles it last examined overlap: for
    every two of them the computed distance is not both below 3.5 and above
    0.001; and these bubbles are the output, if the loop ran at least twice
    or the input positions were in [-2, 12] already. *)
Theorem relax_stops_without_overlap (Math_atan2 : float → float → float)
    (Math_cos Math_sin : float → float) (input : list (Bubble float)) :
  let out := (relax Math_atan2 Math_cos Math_sin input).1 in
  let iterations := (relax Math_atan2 Math_cos Math_sin input).2 in
  (1 <= iterations <= maxIterations)%nat ∧
  raw <$> out = raw <$> input ∧
  Forall (λ b, (isNaN (cagrIndex b) = true ∨ within (cagrIndex b) = true) ∧
               (isNaN (marketShareIndex b) = true ∨ within (marketShareIndex b) = true))
         out ∧
  (iterations = 1%nat ↔ noOverlap input) ∧
  ((iterations < maxIterations)%nat →
   (2 <= iterations)%nat ∨
   Forall (λ b, within (cagrIndex b) = true ∧ within (marketShareIndex b) = true) input →
   noOverlap out).
Proof.
  intros out iterations. subst out iterations. unfold relax.
  change maxIterations with (S 99).
  destruct (relaxLoop_trace Math_atan2 Math_cos Math_sin 99 input)
    as (Hn & Hraw & Hsettled & Hone & Hlast).
  split; [exact Hn |]. split; [exact Hraw |]. split; [| split].
  - eapply Forall_impl; [exact Hsettled |]. intros b Hb.
    unfold settled, clampBubble in Hb.
    assert (Hc : clamp (cagrIndex b) = cagrIndex b) by (rewrite <- Hb at 2; reflexivity).
    assert (Hs : clamp (marketShareIndex b) = marketShareIndex b)
      by (rewrite <- Hb at 2; reflexivity).
    split.
    + destruct (clamp_range (cagrIndex b)) as [[Hnan _] | [_ Hin]];
        [left; exact Hnan | right; rewrite <- Hc; exact Hin].
    + destruct (clamp_range (marketShareIndex b)) as [[Hnan _] | [_ Hin]];
        [left; exact Hnan | right; rewrite <- Hs; exact Hin].
  - rewrite Hone. split; [intros [H | H]; [exact H | discriminate] | auto].
  - intros Hlt Hcase.
    destruct Hlast as (last & Hquiet & _ & Hsame); [lia |].
    rewrite Hsame; [exact Hquiet |].
    destruct Hcase as [Htwo | Hbox]; [left; exact Htwo | right].
    eapply Forall_impl; [exact Hbox |]. intros b [Hc Hs].
    apply within_settled; assumption.
Qed.

End RelaxFacts.

(** ** More about the synthesizer and its cache *)
Module GeneratorInvariants.
Import JS DataGenerator GeneratorFacts.

(** Every generated record carries a year from 2021 to 2035, one of the six
    regions, a country of that region, and one value of each of the four
    segmentation lists. *)
Theorem generated_keys_valid :
  ∃ data,
    generateComprehensiveData = Normal data ∧
    ∀ r, r ∈ data →
      2021 ≤ year r ≤ 2035 ∧
      region r ∈ regions ∧
      country r ∈ default [] (obj_get countryMap (region r)) ∧
      serviceType r ∈ serviceTypes ∧
      endUserType r ∈ endUserTypes ∧
      deliveryChannel r ∈ deliveryChannels ∧
      businessModel r ∈ businessModels.
Proof.
  destruct generateComprehensiveData_normal as (data & Hgen & Hkeys & _).
  exists data. split; [exact Hgen |]. intros r Hr.
  assert (Hk : keyOf r ∈ allCombinations).
  { rewrite <- Hkeys. apply list_elem_of_fmap_2. exact Hr. }
  unfold allCombinations in Hk.
  apply list_elem_of_bind in Hk as (y & Hk & Hy).
  apply list_elem_of_bind in Hk as (reg & Hk & Hreg).
  apply list_elem_of_bind in Hk as (c & Hk & Hc).
  apply list_elem_of_bind in Hk as (s & Hk & Hs).
  apply list_elem_of_bind in Hk as (e & Hk & He).
  apply list_elem_of_bind in Hk as (d & Hk & Hd).
  apply list_elem_of_bind in Hk as (b & Hk & Hb).
  apply list_elem_of_singleton in Hk. unfold keyOf in Hk.
  injection Hk as -> -> -> -> -> -> ->.
  split; [| repeat split; assumption].
  unfold years in Hy. apply list_elem_of_fmap in Hy as (i & -> & Hi).
  apply elem_of_seq in Hi. lia.
Qed.

(** No two generated records share a [recordId]. *)
Theorem generated_ids_unique :
  ∃ data, generateComprehensiveData = Normal data ∧ NoDup (recordId <$> data).
Proof.
  destruct generateComprehensiveData_normal as (data & Hgen & _ & Hnum & _).
  exists data. split; [exact Hgen |].
  apply NoDup_alt. intros i j id Hi Hj.
  rewrite list_lookup_fmap in Hi, Hj.
  destruct (data !! i) as [ri |] eqn:Hri; [| discriminate].
  destruct (data !! j) as [rj |] eqn:Hrj; [| discriminate].
  simpl in Hi, Hj. injection Hi as Hi. injection Hj as Hj.
  rewrite (Hnum _ _ Hri) in Hi. rewrite (Hnum _ _ Hrj) in Hj. lia.
Qed.

(** A draw advances the seed within [0, 233280) and yields a number in
    [0, 1); an element drawn from a non-empty array is always one of its
    elements (the computed index is never out of range); neither touches
    [recordId] or [data]. *)
Theorem draws_in_range {A : Type} (arr : list A) (st : GenState) :
  seedOk (st_seed st) →
  arr ≠ [] →
  (∃ r st', seededRandom st = Normal (r, st') ∧
            (0 <= r)%Q ∧ (r < 1)%Q ∧ drawn st st') ∧
  (∃ x st', pick arr st = Normal (x, st') ∧ x ∈ arr ∧ drawn st st').
Proof.
  intros Hseed Hne. split.
  - destruct (runs_seededRandom st (λ r st', (0 <= r)%Q ∧ (r < 1)%Q ∧ drawn st st') Hseed)
      as (r & st' & Hrun & Hpost); [auto |].
    exists r, st'. split; [exact Hrun | exact Hpost].
  - destruct (pick_total arr st (λ x st', x ∈ arr ∧ drawn st st') Hseed Hne)
      as (x & st' & Hrun & Hpost); [auto |].
    exists x, st'. split; [exact Hrun | exact Hpost].
Qed.

Lemma draws_in_range_witness :
  let st := {| st_seed := 42; st_recordId := 100000; st_data := [] |} in
  (∃ r st', seededRandom st = Normal (r, st') ∧
            (0 <= r)%Q ∧ (r < 1)%Q ∧ drawn st st') ∧
  (∃ x st', pick productTypes st = Normal (x, st') ∧ x ∈ productTypes ∧ drawn st st').
Proof.
  apply (draws_in_range productTypes
           {| st_seed := 42; st_recordId := 100000; st_data := [] |}).
  - unfold seedOk. simpl. lia.
  - discriminate.
Defined.

(** [getData] memoizes: on an empty cache the first call runs the generation
    step once and every further call returns the cached sequence without
    running it again. *)
Theorem getData_memoizes (generate : Completion (list ShovelMarketData))
    (data : list ShovelMarketData) (m : ModuleState) (k : nat) :
  generate = Normal data →
  dataCache m = None →
  let run := getDataTimes generate (S k) m in
  run.1 = replicate (S k) data ∧
  dataCache run.2 = Some data ∧
  generations run.2 = S (generations m).
Proof.
  intros -> Hcache run. subst run.
  assert (Hfirst : getDataWith (Normal data) m
                   = (data, {| dataCache := Some data; generations := S (generations m) |})).
  { unfold getDataWith. rewrite Hcache. reflexivity. }
  simpl getDataTimes. rewrite Hfirst.
  rewrite (getDataTimes_cached _ k
             {| dataCache := Some data; generations := S (generations m) |} data eq_refl).
  repeat split.
Qed.

Lemma getData_memoizes_witness :
  let data := [Samples.sample 2024 "Europe" "U.K." "A" 1 1] in
  let run := getDataTimes (Normal data) 3 {| dataCache := None; generations := 0 |} in
  run.1 = replicate 3 data ∧
  dataCache run.2 = Some data ∧
  generations run.2 = 1%nat.
Proof.
  exact (getData_memoizes (Normal [Samples.sample 2024 "Europe" "U.K." "A" 1 1])
           [Samples.sample 2024 "Europe" "U.K." "A" 1 1]
           {| dataCache := None; generations := 0 |} 2 eq_refl eq_refl).
Defined.

(** *** What every generated record satisfies *)

(** The fields drawn per record come from their fixed lists. *)
Definition legacyOk (r : ShovelMarketData) : Prop :=
  productType r ∈ productTypes ∧
  bladeMaterial r ∈ bladeMaterials ∧
  handleLength r ∈ handleLengths ∧
  application r ∈ applications ∧
  endUser r ∈ endUsers ∧
  distributionChannelType r ∈ ["Direct"; "Indirect (Via Distributors)"] ∧
  brand r ∈ brands ∧
  company r ∈ companies.

(** [value] duplicates [marketValueUsd]; money, volumes and shares are not
    negative; volumes and quantities are whole numbers. *)
Definition measuresOk (r : ShovelMarketData) : Prop :=
  value r = marketValueUsd r ∧
  (0 <= price r)%Q ∧ (0 <= volumeUnits r)%Q ∧ (0 <= qty r)%Q ∧
  (0 <= revenue r)%Q ∧ (0 <= marketValueUsd r)%Q ∧ (0 <= marketSharePct r)%Q ∧
  (∃ z, volumeUnits r = inject_Z z) ∧ (∃ z, qty r = inject_Z z).

(** [m] returns normally and only appends records that satisfy [P]. *)
Definition Appends (P : ShovelMarketData → Prop) (m : Gen unit) : Prop :=
  ∀ st, seedOk (st_seed st) →
    runs m st (λ _ st',
      seedOk (st_seed st') ∧ ∃ rs, st_data st' = st_data st ++ rs ∧ Forall P rs).

Lemma Appends_forOf {A} (P : ShovelMarketData → Prop) (xs : list A) (body : A → Gen unit) :
  (∀ x, x ∈ xs → Appends P (body x)) → Appends P (forOf xs body).
Proof.
  induction xs as [| x xs IH]; intros Hbody st Hseed.
  - apply runs_ret. split; [exact Hseed |]. exists []. rewrite app_nil_r.
    split; [reflexivity | constructor].
  - simpl forOf. apply runs_bind.
    eapply runs_mono; [apply (Hbody x); [left | exact Hseed] |].
    intros [] st1 (Hseed1 & rs1 & Hdata1 & HP1).
    eapply runs_mono; [apply IH; [| exact Hseed1] |].
    + intros x' Hx'. apply Hbody. right. exact Hx'.
    + intros [] st2 (Hseed2 & rs2 & Hdata2 & HP2).
      split; [exact Hseed2 |]. exists (rs1 ++ rs2).
      split; [rewrite Hdata2, Hdata1, app_assoc; reflexivity |].
      apply Forall_app. split; assumption.
Qed.

Ltac positive_cases H :=
  repeat (apply elem_of_cons in H as [-> | H];
          [eexists; split; [reflexivity | repeat split; reflexivity] |]);
  apply elem_of_nil in H; destruct H.

Lemma productMult_positive p :
  p ∈ productTypes →
  ∃ m, obj_get productTypeMultipliers p = Some m ∧ (0 < pm_price m)%Q ∧ (0 < pm_volume m)%Q.
Proof. intros H. unfold productTypes in H. positive_cases H. Qed.

Lemma bladeMult_positive b :
  b ∈ bladeMaterials →
  ∃ m, obj_get bladeMaterialMultipliers b = Some m ∧ (0 < pv_price m)%Q ∧ (0 < pv_volume m)%Q.
Proof. intros H. unfold bladeMaterials in H. positive_cases H. Qed.

Lemma appMult_positive a :
  a ∈ applications →
  ∃ m, obj_get applicationMultipliers a = Some m ∧ (0 < pv_volume m)%Q.
Proof. intros H. unfold applications in H. positive_cases H. Qed.

Lemma userMult_positive u :
  u ∈ endUsers →
  ∃ m, obj_get endUserMultipliers u = Some m ∧ (0 < pv_volume m)%Q.
Proof. intros H. unfold endUsers in H. positive_cases H. Qed.

Lemma regionMult_positive reg :
  reg ∈ regions →
  ∃ m, obj_get regionMultipliers reg = Some m ∧ (0 < rm_volume m)%Q ∧ (0 < rm_marketShare m)%Q.
Proof. intros H. unfold regions in H. positive_cases H. Qed.

Lemma brandMult_positive b :
  b ∈ brands → (0 < num_or (obj_get brandPremiumMap b) 1.0)%Q.
Proof.
  intros H. unfold brands in H.
  repeat (apply elem_of_cons in H as [-> | H]; [reflexivity |]).
  apply elem_of_nil in H. destruct H.
Qed.

Lemma handleMult_positive (h : string) :
  (0 < (if String.eqb h "Long Handle" then 1.1
        else if String.eqb h "Short Handle" then 0.9 else 1.0))%Q.
Proof. destruct (String.eqb h _); [| destruct (String.eqb h _)]; reflexivity. Qed.

Lemma Qplus_nonneg (a b : Q) : (0 <= a → 0 <= b → 0 <= a + b)%Q.
Proof.
  intros Ha Hb. rewrite <- (Qplus_0_l 0). apply Qplus_le_compat; assumption.
Qed.

Lemma floor_nonneg (x : Q) : (0 <= x)%Q → (0 <= inject_Z (Math_floor x))%Q.
Proof.
  intros Hx. unfold Math_floor. rewrite <- (Zle_Qle 0).
  rewrite <- (Qfloor_Z 0). apply Qfloor_resp_le. exact Hx.
Qed.

Lemma round2_nonneg (x : Q) : (0 <= x)%Q → (0 <= round2 x)%Q.
Proof.
  intros Hx. unfold round2, Math_round.
  apply Qle_shift_div_l; [reflexivity |]. rewrite Qmult_0_l.
  apply floor_nonneg. apply Qplus_nonneg; [| discriminate].
  apply Qmult_le_0_compat; [exact Hx | discriminate].
Qed.

Lemma yearFactor_nonneg (year : Z) (step : Q) :
  2021 ≤ year → (0 <= step)%Q → (0 <= 1 + inject_Z (year - 2021) * step)%Q.
Proof.
  intros Hy Hs. apply Qplus_nonneg; [discriminate |].
  apply Qmult_le_0_compat; [| exact Hs].
  rewrite <- (Zle_Qle 0). lia.
Qed.

Lemma affine_nonneg (a b r : Q) : (0 <= a → 0 <= b → 0 <= r → 0 <= a + r * b)%Q.
Proof.
  intros Ha Hb Hr. apply Qplus_nonneg; [exact Ha |].
  apply Qmult_le_0_compat; assumption.
Qed.

Ltac nonneg :=
  lazymatch goal with
  | |- (0 <= round2 _)%Q => apply round2_nonneg; nonneg
  | |- (0 <= inject_Z (Math_floor _))%Q => apply floor_nonneg; nonneg
  | |- (0 <= _ * _)%Q => apply Qmult_le_0_compat; nonneg
  | |- (0 <= 1 + inject_Z (_ - 2021) * _)%Q =>
      apply yearFactor_nonneg; [assumption | discriminate]
  | |- (0 <= _ + _ * _)%Q =>
      apply affine_nonneg; [discriminate | discriminate | assumption]
  | |- (0 <= if _ then _ else _)%Q => apply Qlt_le_weak; apply handleMult_positive
  | |- _ => first [assumption | apply Qlt_le_weak; assumption]
  end.

Tactic Notation "draw_pick'" hyp(Hd) ident(x) ident(Hx) :=
  let Hnew := fresh "Hnew" in
  let st := fresh "st" in
  cbv beta zeta; apply runs_bind; apply pick_total; [exact (proj1 Hd) | discriminate |];
  intros x st Hx Hnew; chain Hd Hnew.

Tactic Notation "draw_number'" hyp(Hd) ident(r) ident(Hr) :=
  let Hnew := fresh "Hnew" in
  let st := fresh "st" in
  cbv beta zeta; apply runs_bind; apply runs_seededRandom; [exact (proj1 Hd) |];
  intros r st Hr _ Hnew; chain Hd Hnew.

(** One turn of the innermost loop appends a record with valid drawn fields
    and non-negative measures. *)
Lemma genRecord_ok y reg rm c s e d b :
  2021 ≤ y → (0 < rm_volume rm)%Q → (0 < rm_marketShare rm)%Q →
  Appends (λ r, legacyOk r ∧ measuresOk r) (genRecord y reg (Some rm) c s e d b).
Proof.
  intros Hy Hrv Hrs st0 Hseed.
  assert (Hd : drawn st0 st0) by (repeat split; apply Hseed).
  unfold genRecord.
  draw_pick' Hd productType HproductType.
  draw_pick' Hd bladeMaterial HbladeMaterial.
  draw_pick' Hd handleLength HhandleLength.
  draw_pick' Hd application Happlication.
  draw_pick' Hd endUser HendUser.
  draw_number' Hd rDirect HrDirect.
  cbv beta zeta. apply runs_bind. apply channel_total; [exact (proj1 Hd) |].
  intros dc stc _ Hnew. chain Hd Hnew.
  draw_pick' Hd brand Hbrand.
  draw_pick' Hd company Hcompany.
  draw_number' Hd rPrice HrPrice.
  destruct (productMult_positive _ HproductType) as (pm & Hpm & Hpm1 & Hpm2).
  destruct (bladeMult_positive _ HbladeMaterial) as (bm & Hbm & Hbm1 & Hbm2).
  destruct (appMult_positive _ Happlication) as (am & Ham & Ham1).
  destruct (userMult_positive _ HendUser) as (um & Hum & Hum1).
  pose proof (brandMult_positive _ Hbrand) as Hbrand1.
  read_prop Hpm. read_prop Hbm.
  draw_number' Hd rVolume HrVolume.
  cbv beta zeta. apply runs_bind. eapply runs_prop; [reflexivity |].
  read_prop Ham. read_prop Hum.
  draw_number' Hd rValue HrValue.
  draw_number' Hd rShare HrShare.
  draw_number' Hd rCagr HrCagr.
  draw_number' Hd rYoy HrYoy.
  draw_number' Hd rQty HrQty.
  cbv beta zeta.
  destruct Hd as (Hseed' & Hid & Hdata).
  eexists tt, _. split; [reflexivity |]. cbn [st_seed st_data].
  split; [exact Hseed' |].
  eexists [_]. rewrite Hdata. split; [reflexivity |].
  constructor; [| constructor]. split.
  - unfold legacyOk. cbn. repeat split; try assumption.
    destruct (Qle_bool rDirect 0.5); cbn; [right; left | left].
  - unfold measuresOk. cbn [value marketValueUsd price volumeUnits qty revenue marketSharePct].
    split; [reflexivity |].
    split; [nonneg |]. split; [nonneg |]. split; [nonneg |].
    split; [nonneg |]. split; [nonneg |]. split; [nonneg |].
    split; eexists; reflexivity.
Qed.

(** The generation loops only append such records. *)
Lemma generateLoops_ok : Appends (λ r, legacyOk r ∧ measuresOk r) generateLoops.
Proof.
  unfold generateLoops.
  apply Appends_forOf. intros y Hy.
  assert (Hy' : 2021 ≤ y).
  { unfold years in Hy. apply list_elem_of_fmap in Hy as (i & -> & _). lia. }
  apply Appends_forOf. intros reg Hreg. cbv zeta.
  destruct (regionMult_positive reg Hreg) as (rm & Hrm & Hrv & Hrs). rewrite Hrm.
  apply Appends_forOf. intros c _.
  apply Appends_forOf. intros s _.
  apply Appends_forOf. intros e _.
  apply Appends_forOf. intros d _.
  apply Appends_forOf. intros b _.
  apply genRecord_ok; assumption.
Qed.

Lemma generated_records_ok :
  ∃ data, generateComprehensiveData = Normal data ∧
          Forall (λ r, legacyOk r ∧ measuresOk r) data.
Proof.
  destruct generateComprehensiveData_normal as (data & Hgen & _).
  exists data. split; [exact Hgen |].
  revert Hgen. unfold generateComprehensiveData, generateFrom.
  destruct (generateLoops_ok {| st_seed := 42; st_recordId := 100000; st_data := [] |})
    as ([] & st' & Hrun & _ & rs & Hdata & Hok); [unfold seedOk; simpl; lia |].
  rewrite Hrun. intros [= <-]. rewrite Hdata. exact Hok.
Qed.

(** Every generated record has its product type, source material, grade,
    form, application, channel type, brand and company drawn from the
    generator's fixed lists. *)
Theorem generated_fields_from_lists :
  ∃ data, generateComprehensiveData = Normal data ∧ ∀ r, r ∈ data → legacyOk r.
Proof.
  destruct generated_records_ok as (data & Hgen & Hok).
  exists data. split; [exact Hgen |].
  intros r Hr. rewrite Forall_forall in Hok. apply (Hok r Hr).
Qed.

(** Every generated record has [value] equal to [marketValueUsd], no
    negative price, volume, quantity, revenue, market value or market share,
    and whole-number volume and quantity. *)
Theorem generated_measures_valid :
  ∃ data, generateComprehensiveData = Normal data ∧ ∀ r, r ∈ data → measuresOk r.
Proof.
  destruct generated_records_ok as (data & Hgen & Hok).
  exists data. split; [exact Hgen |].
  intros r Hr. rewrite Forall_forall in Hok. apply (Hok r Hr).
Qed.

End GeneratorInvariants.

(** ** More about the bubble layout *)
Module LayoutFacts.
Import JS BubbleChart BubbleFacts.
Local Open Scope R_scope.

(** Descending order of opportunity. *)
Definition byOpportunity (a b : RawBubble) : Prop :=
  incrementalOpportunity b <= incrementalOpportunity a.

Lemma insertByOpportunity_perm x l : insertByOpportunity x l ≡ₚ x :: l.
Proof.
  induction l as [| y l IH]; simpl; [reflexivity |].
  destruct (Rlt_dec _ _); [| reflexivity].
  rewrite IH. apply Permutation_swap.
Qed.

Lemma insertByOpportunity_sorted x l :
  Sorted byOpportunity l → Sorted byOpportunity (insertByOpportunity x l).
Proof.
  induction 1 as [| y l Hl IH Hhd]; simpl.
  - repeat constructor.
  - destruct (Rlt_dec (incrementalOpportunity x) (incrementalOpportunity y)) as [Hlt | Hge].
    + constructor; [exact IH |].
      destruct l as [| z l]; simpl.
      * constructor. unfold byOpportunity. lra.
      * destruct (Rlt_dec _ _); constructor.
        -- inversion Hhd; assumption.
        -- unfold byOpportunity. lra.
    + constructor; [constructor; assumption |].
      constructor. unfold byOpportunity. lra.
Qed.

Lemma sortByOpportunity_perm_sorted (l : list RawBubble) :
  sortByOpportunity l ≡ₚ l ∧ Sorted byOpportunity (sortByOpportunity l).
Proof.
  unfold sortByOpportunity. induction l as [| x l [IHp IHs]]; simpl.
  - split; [reflexivity | constructor].
  - split.
    + rewrite insertByOpportunity_perm, IHp. reflexivity.
    + apply insertByOpportunity_sorted. exact IHs.
Qed.

(** The bubbles whose opportunity is [v]. *)
Definition withOpportunity (v : R) (l : list RawBubble) : list RawBubble :=
  List.filter (λ b, if Req_dec_T (incrementalOpportunity b) v then true else false) l.

Lemma insertByOpportunity_stable v x l :
  withOpportunity v (insertByOpportunity x l) = withOpportunity v (x :: l).
Proof.
  unfold withOpportunity. induction l as [| y l IH]; [reflexivity |].
  simpl insertByOpportunity.
  destruct (Rlt_dec (incrementalOpportunity x) (incrementalOpportunity y)) as [Hlt | _];
    [| reflexivity].
  simpl. simpl in IH. rewrite IH.
  destruct (Req_dec_T (incrementalOpportunity y) v) as [Hy | _];
    destruct (Req_dec_T (incrementalOpportunity x) v) as [Hx | _];
    try reflexivity.
  exfalso. lra.
Qed.

(** Sorting by opportunity rearranges the bubbles into descending order of
    [incrementalOpportunity], loses or adds none, and is stable: bubbles of
    equal opportunity keep their relative order. *)
Theorem sortByOpportunity_sorts (l : list RawBubble) :
  sortByOpportunity l ≡ₚ l ∧
  Sorted byOpportunity (sortByOpportunity l) ∧
  ∀ v, withOpportunity v (sortByOpportunity l) = withOpportunity v l.
Proof.
  destruct (sortByOpportunity_perm_sorted l) as [Hp Hs].
  split; [exact Hp |]. split; [exact Hs |].
  intros v. unfold sortByOpportunity. induction l as [| x l IH]; [reflexivity |].
  simpl foldr. rewrite insertByOpportunity_stable.
  unfold withOpportunity in *. simpl.
  destruct (Req_dec_T _ v); rewrite IH; try reflexivity.
  - exact (proj1 (sortByOpportunity_perm_sorted l)).
  - exact (proj2 (sortByOpportunity_perm_sorted l)).
  - exact (proj1 (sortByOpportunity_perm_sorted l)).
  - exact (proj2 (sortByOpportunity_perm_sorted l)).
Qed.

Lemma foldl_Rmin_bounds (a : R) (l : list R) :
  foldl Rmin a l <= a ∧ ∀ x, x ∈ l → foldl Rmin a l <= x.
Proof.
  revert a. induction l as [| y l IH]; intros a; simpl.
  - split; [lra |]. intros x Hx. apply elem_of_nil in Hx. destruct Hx.
  - destruct (IH (Rmin a y)) as [Hle Hall]. split.
    + pose proof (Rmin_l a y). lra.
    + intros x Hx. apply elem_of_cons in Hx as [-> | Hx]; [| apply Hall; exact Hx].
      pose proof (Rmin_r a y). lra.
Qed.

Lemma foldl_Rmax_bounds (a : R) (l : list R) :
  a <= foldl Rmax a l ∧ ∀ x, x ∈ l → x <= foldl Rmax a l.
Proof.
  revert a. induction l as [| y l IH]; intros a; simpl.
  - split; [lra |]. intros x Hx. apply elem_of_nil in Hx. destruct Hx.
  - destruct (IH (Rmax a y)) as [Hle Hall]. split.
    + pose proof (Rmax_l a y). lra.
    + intros x Hx. apply elem_of_cons in Hx as [-> | Hx]; [| apply Hall; exact Hx].
      pose proof (Rmax_r a y). lra.
Qed.

(** [Math.min] and [Math.max] bound every element of the array. *)
Lemma Math_min_max_bounds (l : list R) (x : R) :
  x ∈ l → Math_min l <= x <= Math_max l.
Proof.
  destruct l as [| a l]; intros Hx; [apply elem_of_nil in Hx; destruct Hx |].
  simpl. destruct (foldl_Rmin_bounds a l) as [Hmin Hmins].
  destruct (foldl_Rmax_bounds a l) as [Hmax Hmaxs].
  apply elem_of_cons in Hx as [-> | Hx]; [lra |].
  split; [apply Hmins | apply Hmaxs]; exact Hx.
Qed.

Lemma normalize_range (minV range v : R) :
  0 <= v - minV <= range → 0 <= normalize minV range v <= 10.
Proof.
  intros [Hlo Hhi]. unfold normalize.
  destruct (Rlt_dec 0 range) as [Hpos | _]; [| lra].
  assert (Hq : 0 <= (v - minV) / range <= 1).
  { split.
    - apply Rmult_le_pos; [exact Hlo |]. left. apply Rinv_0_lt_compat. exact Hpos.
    - apply (Rmult_le_reg_r range); [exact Hpos |].
      unfold Rdiv. rewrite Rmult_assoc, Rinv_l, Rmult_1_r by lra. lra. }
  lra.
Qed.

(** The normalised bubbles are the raw ones in order of opportunity. *)
Lemma normalizedData_raw (raws : list RawBubble) :
  raw <$> normalizedData raws = sortByOpportunity raws.
Proof.
  unfold normalizedData. cbv zeta. apply list_eq. intros i.
  rewrite !list_lookup_fmap. destruct (sortByOpportunity raws !! i); reflexivity.
Qed.

(** The positions normalisation gives one bubble of the data. *)
Lemma normalize_item_bounds (raws : list RawBubble) (item : RawBubble) :
  item ∈ raws → 0 <= cagr item →
  let cagrValues := cagr <$> raws in
  let marketShareValues := marketShare <$> raws in
  let minCagr := Rmax 0 (Math_min cagrValues) in
  let minShare := Math_min marketShareValues in
  0 <= normalize minCagr (Math_max cagrValues - minCagr) (cagr item) <= 10 ∧
  0 <= normalize minShare (Math_max marketShareValues - minShare) (marketShare item) <= 10.
Proof.
  intros Hitem H0. cbv zeta.
  assert (Hc : Math_min (cagr <$> raws) <= cagr item <= Math_max (cagr <$> raws)).
  { apply Math_min_max_bounds. apply list_elem_of_fmap_2. exact Hitem. }
  assert (Hs : Math_min (marketShare <$> raws) <= marketShare item
               <= Math_max (marketShare <$> raws)).
  { apply Math_min_max_bounds. apply list_elem_of_fmap_2. exact Hitem. }
  split; apply normalize_range.
  - assert (Hm : Rmax 0 (Math_min (cagr <$> raws)) <= cagr item)
      by (apply Rmax_lub; lra).
    lra.
  - lra.
Qed.

(** Normalisation maps raw bubbles whose growth rates are not negative into
    the square [0,10] x [0,10]. *)
Theorem normalizedData_in_range (raws : list RawBubble) :
  Forall (λ b, 0 <= cagr b) raws →
  Forall (λ b, 0 <= cagrIndex b <= 10 ∧ 0 <= marketShareIndex b <= 10)
         (normalizedData raws).
Proof.
  intros Hpos. unfold normalizedData. cbv zeta.
  apply Forall_fmap. apply Forall_forall. intros item Hitem. simpl.
  rewrite (proj1 (sortByOpportunity_perm_sorted raws)) in Hitem.
  assert (Hc : Math_min (cagr <$> raws) <= cagr item <= Math_max (cagr <$> raws)).
  { apply Math_min_max_bounds. apply list_elem_of_fmap_2. exact Hitem. }
  assert (Hs : Math_min (marketShare <$> raws) <= marketShare item
               <= Math_max (marketShare <$> raws)).
  { apply Math_min_max_bounds. apply list_elem_of_fmap_2. exact Hitem. }
  assert (H0 : 0 <= cagr item) by (rewrite Forall_forall in Hpos; apply Hpos; exact Hitem).
  split; apply normalize_range.
  - assert (Hm : Rmax 0 (Math_min (cagr <$> raws)) <= cagr item)
      by (apply Rmax_lub; lra).
    lra.
  - lra.
Qed.

(** A raw bubble for examples. *)
Definition rawAt (name : string) (growth share opportunity : R) : RawBubble :=
  {| region := name; cagr := growth; marketShare := share;
     incrementalOpportunity := opportunity |}.

Lemma normalizedData_in_range_witness :
  Forall (λ b, 0 <= cagrIndex b <= 10 ∧ 0 <= marketShareIndex b <= 10)
         (normalizedData [rawAt "A" 0 0 5; rawAt "B" 25 30 7]).
Proof.
  apply (normalizedData_in_range [rawAt "A" 0 0 5; rawAt "B" 25 30 7]).
  repeat constructor; simpl; lra.
Defined.

(** The size of every bubble lies between 30 and 200. *)
Theorem bubbleSizes_range {num : Type} (data : list (BubblePoint num)) :
  length (bubbleSizes data) = length data ∧
  Forall (λ z, 30 <= z <= 200) (bubbleSizes data).
Proof.
  unfold bubbleSizes. cbv zeta. split; [apply length_fmap |].
  apply Forall_fmap. apply Forall_forall. intros item Hitem. simpl.
  assert (Hb : Math_min (bp_incrementalOpportunity <$> data)
               <= bp_incrementalOpportunity item
               <= Math_max (bp_incrementalOpportunity <$> data)).
  { apply Math_min_max_bounds. apply list_elem_of_fmap_2. exact Hitem. }
  unfold normalizedSize.
  destruct (Rlt_dec 0 _) as [Hpos | _]; [| lra].
  set (range := Math_max _ - Math_min _) in *.
  set (v := bp_incrementalOpportunity item - Math_min _).
  assert (Hv : 0 <= v <= range) by (unfold v, range; lra).
  assert (Hq : 0 <= v / range <= 1).
  { split.
    - apply Rmult_le_pos; [lra |]. left. apply Rinv_0_lt_compat. exact Hpos.
    - apply (Rmult_le_reg_r range); [exact Hpos |].
      unfold Rdiv. rewrite Rmult_assoc, Rinv_l, Rmult_1_r by lra. lra. }
  lra.
Qed.

End LayoutFacts.

(** ** The stacked pivot *)
Module ChartFacts.
Import JS DataGenerator Number MarketAnalysis ObjectFacts PivotFacts Samples.

Section Stacked.

Variable marketEvaluation : string.
Variable getSegmentValue : PageRecord → string.

(** The flat map keyed by [`${year}-${segment}`] and the nested map keyed by
    year and then segment hold the same number for every non-empty segment:
    both add the same numbers in the same order. *)
Lemma accumulate_agree data (m : gmap string float) (ym : gmap Z (gmap string float)) :
  (∀ y s, truthy s = true → m !! segmentKeyOf y s = default ∅ (ym !! y) !! s) →
  ∀ y s, truthy s = true →
    foldl (accumulate marketEvaluation getSegmentValue) m data !! segmentKeyOf y s
    = default ∅ (foldl (accumulateYearWise marketEvaluation getSegmentValue) ym data !! y)
        !! s.
Proof.
  revert m ym. induction data as [| d data IH]; intros m ym Hinv; [exact Hinv |].
  simpl foldl. apply IH. intros y s Hs.
  unfold accumulate, accumulateYearWise. cbv zeta.
  destruct (truthy (getSegmentValue d)) eqn:Ht.
  - destruct (decide (year d = y)) as [Hy | Hy].
    + destruct (decide (getSegmentValue d = s)) as [Hseg | Hseg].
      * subst y s. rewrite !lookup_insert_eq. simpl. rewrite lookup_insert_eq.
        rewrite Hinv by exact Ht. reflexivity.
      * subst y. rewrite lookup_insert_ne.
        2:{ intros Hkey. apply KeyFacts.year_segment_key_inj in Hkey as [_ Hkey].
            contradiction. }
        rewrite lookup_insert_eq. simpl. rewrite lookup_insert_ne by exact Hseg.
        apply Hinv. exact Hs.
    + rewrite lookup_insert_ne.
      2:{ intros Hkey. apply KeyFacts.year_segment_key_inj in Hkey as [Hkey _].
          contradiction. }
      rewrite lookup_insert_ne by exact Hy. apply Hinv. exact Hs.
  - rewrite lookup_insert_ne; [apply Hinv; exact Hs |].
    intros Hkey. apply KeyFacts.year_segment_key_inj in Hkey as [_ Hkey].
    rewrite Hkey, Hs in Ht. discriminate.
Qed.

Lemma rows_agree (m : gmap string float) (ym : gmap Z (gmap string float))
    (segments : list string) (y : Z) :
  (∀ s, s ∈ segments → truthy s = true) →
  (∀ s, truthy s = true → m !! segmentKeyOf y s = default ∅ (ym !! y) !! s) →
  chartRow m segments y = stackedRow ym segments y.
Proof.
  intros Hsegs Hinv. unfold chartRow, stackedRow. cbv zeta.
  generalize ({["year" := CString (String_of_int y)]} : gmap string cell).
  induction segments as [| s segments IH]; intros init; [reflexivity |].
  simpl. rewrite Hinv by (apply Hsegs; left).
  apply IH. intros s' Hs'. apply Hsegs. right. exact Hs'.
Qed.

Lemma sorted_truthy_all (l : list string) (s : string) :
  s ∈ sort_strings (List.filter truthy l) → truthy s = true.
Proof.
  rewrite sorted_truthy_spec. intros [_ Hne]. unfold truthy.
  apply negb_true_iff, String.eqb_neq. exact Hne.
Qed.

(** The segment list both pivots lay their rows out over. *)
Definition segmentsOf (filteredData : list PageRecord)
    (selectedSegments : option (list string)) : list string :=
  (generateSegmentChartData filteredData marketEvaluation "" getSegmentValue
     selectedSegments).2.

Lemma segmentsOf_truthy filteredData selectedSegments s :
  s ∈ segmentsOf filteredData selectedSegments → truthy s = true.
Proof.
  unfold segmentsOf, generateSegmentChartData. cbn [snd].
  destruct selectedSegments as [sel |];
    [destruct (0 <? Z.of_nat (length sel)) |]; apply sorted_truthy_all.
Qed.

(** What the nested map holds for a year and a non-empty segment. *)
Lemma yearwise_cell filteredData (y : Z) (s : string) :
  truthy s = true →
  number_or (default ∅ (foldl (accumulateYearWise marketEvaluation getSegmentValue) ∅
                          filteredData !! y) !! s) 0
  = cellTotal marketEvaluation getSegmentValue y s filteredData.
Proof.
  intros Hs.
  rewrite <- (accumulate_agree filteredData ∅ ∅) by
    (exact Hs || (intros y' s' _; rewrite !lookup_empty; reflexivity)).
  apply segmentMap_cell.
Qed.

Lemma stacked_rows filteredData selectedSegments :
  (generateYearWiseStackedBarData filteredData marketEvaluation getSegmentValue
     selectedSegments).1
  = chartRow (foldl (accumulate marketEvaluation getSegmentValue) ∅ filteredData)
             (segmentsOf filteredData selectedSegments)
      <$> analysisYears filteredData.
Proof.
  unfold generateYearWiseStackedBarData. cbn [fst].
  apply list_fmap_ext. intros i y _. symmetry.
  apply rows_agree.
  - apply segmentsOf_truthy.
  - intros s Hs. apply accumulate_agree; [| exact Hs].
    intros y' s' _. rewrite !lookup_empty. reflexivity.
Qed.

Lemma stackedRow_lookup (ym : gmap Z (gmap string float)) (segments : list string)
    (y : Z) (s : string) :
  s ∈ segments → s ≠ "__proto__" →
  stackedRow ym segments y !! s
  = Some (CNumber (number_or (default ∅ (ym !! y) !! s) 0)).
Proof.
  intros Hs Hproto. unfold stackedRow. cbv zeta.
  apply (assign_all_lookup
           (λ k, CNumber (number_or (default ∅ (ym !! y) !! k) 0)) segments _ s Hs Hproto).
Qed.

Lemma stackedRow_proto (ym : gmap Z (gmap string float)) (segments : list string) (y : Z) :
  stackedRow ym segments y !! "__proto__" = None.
Proof.
  unfold stackedRow. cbv zeta.
  rewrite (assign_all_proto (λ k, CNumber (number_or (default ∅ (ym !! y) !! k) 0))).
  reflexivity.
Qed.

End Stacked.

(** The stacked pivot has the rows of the grouped pivot: for the same
    records, metric, segment accessor and selection, the two tables are
    equal, row for row and cell for cell.  Both add the same binary64
    numbers in the same order, so the cells agree to the last bit. *)
Theorem stacked_rows_equal_grouped (filteredData : list PageRecord)
    (marketEvaluation segmentKey : string)
    (getSegmentValue : PageRecord → string)
    (selectedSegments : option (list string)) :
  (generateYearWiseStackedBarData filteredData marketEvaluation getSegmentValue
     selectedSegments).1
  = (generateSegmentChartData filteredData marketEvaluation segmentKey getSegmentValue
       selectedSegments).1.
Proof. rewrite stacked_rows. reflexivity. Qed.

(** The segments the stacked pivot reports are, in the order of the segment
    list, those whose cell is greater than zero in at least one year of the
    data.  A segment named [__proto__] is never reported: assigning its
    number leaves the row without such a property. *)
Theorem stacked_active_segments (filteredData : list PageRecord)
    (marketEvaluation : string) (getSegmentValue : PageRecord → string)
    (selectedSegments : option (list string)) :
  let active :=
    (generateYearWiseStackedBarData filteredData marketEvaluation getSegmentValue
       selectedSegments).2 in
  let segments := segmentsOf marketEvaluation getSegmentValue filteredData
                    selectedSegments in
  sublist active segments ∧
  ∀ s, s ∈ active ↔
       s ∈ segments ∧ s ≠ "__proto__" ∧
       ∃ y, y ∈ analysisYears filteredData ∧
            (0 <? cellTotal marketEvaluation getSegmentValue y s filteredData)%float
            = true.
Proof.
  intros active segments.
  set (ym := foldl (accumulateYearWise marketEvaluation getSegmentValue) ∅ filteredData).
  assert (Hactive : active
            = List.filter
                (λ segment,
                   existsb (λ entry : gmap string cell, positiveCell (entry !! segment))
                     (stackedRow ym segments <$> analysisYears filteredData))
                segments) by reflexivity.
  rewrite Hactive. split; [apply FilterFacts.filter_sublist |].
  intros s. rewrite list_elem_of_In, filter_In, <- list_elem_of_In.
  rewrite existsb_exists. split.
  - intros (Hs & entry & Hentry & Hpos). split; [exact Hs |].
    apply list_elem_of_In, list_elem_of_fmap in Hentry as (y & -> & Hy).
    destruct (decide (s = "__proto__")) as [-> | Hproto].
    { rewrite stackedRow_proto in Hpos. discriminate. }
    split; [exact Hproto |]. exists y. split; [exact Hy |].
    rewrite (stackedRow_lookup _ _ _ _ Hs Hproto) in Hpos. simpl in Hpos.
    unfold ym in Hpos.
    rewrite yearwise_cell in Hpos by (apply (segmentsOf_truthy _ _ _ _ _ Hs)).
    exact Hpos.
  - intros (Hs & Hproto & y & Hy & Hpos). split; [exact Hs |].
    exists (stackedRow ym segments y).
    split; [apply list_elem_of_In, list_elem_of_fmap_2; exact Hy |].
    rewrite (stackedRow_lookup _ _ _ _ Hs Hproto). simpl.
    unfold ym. rewrite yearwise_cell by (apply (segmentsOf_truthy _ _ _ _ _ Hs)).
    exact Hpos.
Qed.

End ChartFacts.

(** ** The incremental-opportunity waterfall *)
Module WaterfallFacts.
Import JS DataGenerator Number MarketAnalysis Samples.

(** The base value of the waterfall: the 2024 total, or the default. *)
Definition baseValueOf (data : list PageRecord) : float :=
  number_or (Some (valueOfYear data 2024)) 57159.

(** The chart with its seven increments named. *)
Definition chartOf (baseValue : float) (v : Z → float) : list WaterfallRow :=
  let row (y : Z) (total : float) :=
    {| wf_year := String_of_int y; wf_baseValue := None;
       wf_incrementalValue := Some (v y); wf_totalValue := total;
       wf_isBase := false; wf_isTotal := false |} in
  let t25 := (baseValue + v 2025%Z)%float in
  let t26 := (t25 + v 2026%Z)%float in
  let t27 := (t26 + v 2027%Z)%float in
  let t28 := (t27 + v 2028%Z)%float in
  let t29 := (t28 + v 2029%Z)%float in
  let t30 := (t29 + v 2030%Z)%float in
  let t31 := (t30 + v 2031%Z)%float in
  [ {| wf_year := "2024"; wf_baseValue := Some baseValue; wf_incrementalValue := None;
       wf_totalValue := baseValue; wf_isBase := true; wf_isTotal := false |};
    row 2025 t25; row 2026 t26; row 2027 t27; row 2028 t28; row 2029 t29;
    row 2030 t30; row 2031 t31;
    {| wf_year := "2032"; wf_baseValue := Some t31; wf_incrementalValue := None;
       wf_totalValue := t31; wf_isBase := false; wf_isTotal := true |} ].

Lemma waterfallData_unfold (data : list PageRecord) :
  let v := incrementalOf data (baseValueOf data) in
  waterfallData data
  = (chartOf (baseValueOf data) v,
     (0 + v 2025%Z + v 2026%Z + v 2027%Z + v 2028%Z + v 2029%Z + v 2030%Z
      + v 2031%Z)%float).
Proof. reflexivity. Qed.

(** The waterfall has nine rows: the 2024 base, one row per year 2025-2031
    and the 2032 total.  The total of every year's row is the total of the
    row before it plus the year's increment (a binary64 addition), the last
    row repeats the total of 2031, and the reported incremental opportunity
    is the sum of the seven increments, added in their order from [0]. *)
Theorem waterfall_running_total (data : list PageRecord) :
  let chart := (waterfallData data).1 in
  let incrementalOpportunity := (waterfallData data).2 in
  length chart = 9%nat ∧
  wf_year <$> chart
  = ["2024"; "2025"; "2026"; "2027"; "2028"; "2029"; "2030"; "2031"; "2032"] ∧
  (∃ first, chart !! 0%nat = Some first ∧ wf_isBase first = true ∧
            wf_baseValue first = Some (baseValueOf data) ∧
            wf_incrementalValue first = None ∧
            wf_totalValue first = baseValueOf data) ∧
  (∀ i row next, (i < 7)%nat → chart !! i = Some row → chart !! S i = Some next →
     ∃ v, wf_incrementalValue next = Some v ∧
          wf_totalValue next = (wf_totalValue row + v)%float) ∧
  (∃ before last, chart !! 7%nat = Some before ∧ chart !! 8%nat = Some last ∧
                  wf_isTotal last = true ∧ wf_incrementalValue last = None ∧
                  wf_totalValue last = wf_totalValue before ∧
                  wf_baseValue last = Some (wf_totalValue before)) ∧
  incrementalOpportunity = foldl PrimFloat.add 0%float (omap wf_incrementalValue chart).
Proof.
  cbv zeta. rewrite waterfallData_unfold. cbv zeta. cbn [fst snd].
  generalize (incrementalOf data (baseValueOf data)). intros v.
  generalize (baseValueOf data). intros b.
  unfold chartOf. cbv zeta.
  split; [reflexivity |]. split; [reflexivity |].
  split; [eexists; repeat split; reflexivity |].
  split; [| split].
  - intros i row next Hi Hrow Hnext.
    do 7 (destruct i as [| i];
          [injection Hrow as <-; injection Hnext as <-; eexists; split; reflexivity |]).
    lia.
  - eexists _, _. repeat split; reflexivity.
  - reflexivity.
Qed.

(** The years the waterfall reads. *)
Definition inWindow (d : PageRecord) : bool := (2024 <=? year d)%Z && (year d <=? 2031)%Z.

Lemma valueOfYear_window (data : list PageRecord) (y : Z) :
  2024 ≤ y ≤ 2031 →
  valueOfYear (List.filter inWindow data) y = valueOfYear data y.
Proof.
  intros Hy. unfold valueOfYear. f_equal.
  induction data as [| d data IH]; [reflexivity |]. simpl.
  destruct (inWindow d) eqn:Hw; simpl.
  - destruct (Z.eqb (year d) y); rewrite IH; reflexivity.
  - destruct (Z.eqb_spec (year d) y) as [Heq | _]; [| exact IH].
    exfalso. unfold inWindow in Hw. apply andb_false_iff in Hw as [Hw | Hw];
      [apply Z.leb_gt in Hw | apply Z.leb_gt in Hw]; lia.
Qed.

Lemma waterfallData_ext (data1 data2 : list PageRecord) :
  (∀ y, 2024 ≤ y ≤ 2031 → valueOfYear data1 y = valueOfYear data2 y) →
  waterfallData data1 = waterfallData data2.
Proof.
  intros Hsame. rewrite !waterfallData_unfold. cbv zeta.
  assert (Hbase : baseValueOf data1 = baseValueOf data2)
    by (unfold baseValueOf; rewrite (Hsame 2024) by lia; reflexivity).
  assert (Hinc : ∀ b y, 2025 ≤ y ≤ 2031 →
            incrementalOf data1 b y = incrementalOf data2 b y).
  { intros b y Hy. unfold incrementalOf.
    rewrite (Hsame y), (Hsame (y - 1)) by lia. reflexivity. }
  unfold chartOf. cbv zeta. rewrite Hbase, !Hinc by lia. reflexivity.
Qed.

(** Only the records of the years 2024-2031 enter the waterfall.  With no
    such record the chart is the default forecast: the base value 57159,
    the seven default increments, and their running binary64 totals. *)
Theorem waterfall_reads_window (data : list PageRecord) :
  waterfallData data = waterfallData (List.filter inWindow data) ∧
  (List.filter inWindow data = [] →
   wf_totalValue <$> (waterfallData data).1
   = [57159; 59797.400000000001; 62647.800000000003; 65703.400000000009;
      68934.400000000009; 72367.300000000003; 76041.5; 79926.600000000006;
      79926.600000000006]%float ∧
   omap wf_incrementalValue (waterfallData data).1 = defaultIncrements ∧
   (waterfallData data).2 = 22767.599999999999%float).
Proof.
  assert (Hwindow : waterfallData data = waterfallData (List.filter inWindow data)).
  { apply waterfallData_ext. intros y Hy. symmetry. apply valueOfYear_window. exact Hy. }
  split; [exact Hwindow |].
  intros Hnone. rewrite Hwindow, Hnone. repeat split; reflexivity.
Qed.

End WaterfallFacts.

(** ** The page's filters *)
Module PageFilterFacts.
Import JS DataGenerator MarketAnalysis.

Section PageFilters.

Variable fractionToString : Q → string.

(** A selection of strings as a filter entry of [filterDataframe]. *)
Definition stringsEntry (field : string) (selection : list string) : string * filterValue :=
  (field, FArray (JString <$> selection)).

(** The filter object that lists the page's selections under the fields the
    page compares them with, in the order the page applies them. *)
Definition filterOptionsOf (filters : Filters) : FilterOptions :=
  [ ("year", FArray ((λ y, JNumber (inject_Z y)) <$> f_year filters));
    stringsEntry "country" (f_byRegion filters);
    stringsEntry "serviceType" (f_byServiceType filters);
    stringsEntry "endUserType" (f_byEndUser filters);
    stringsEntry "deliveryChannel" (f_byDeliveryChannel filters);
    stringsEntry "businessModel" (f_byBusinessModel filters);
    stringsEntry "productType" (f_productType filters);
    stringsEntry "bladeMaterial" (f_bladeMaterial filters);
    stringsEntry "handleLength" (f_handleLength filters);
    stringsEntry "application" (f_application filters);
    stringsEntry "endUser" (f_endUser filters);
    stringsEntry "distributionChannelType" (f_distributionChannelType filters);
    stringsEntry "distributionChannel" (f_distributionChannel filters) ].

Lemma filter_ext {A} (p q : A → bool) (l : list A) :
  (∀ x, p x = q x) → List.filter p l = List.filter q l.
Proof.
  intros Hpq. induction l as [| x l IH]; [reflexivity |].
  simpl. rewrite Hpq, IH. reflexivity.
Qed.

Lemma includes_strings (selection : list string) (v : string) :
  includes (JString <$> selection) (JString v) = includes_string selection v.
Proof.
  unfold includes, includes_string.
  induction selection as [| w selection IH]; [reflexivity |].
  csimpl. rewrite IH. reflexivity.
Qed.

Lemma includes_number_spec (ys : list Z) (y : Z) :
  includes_number ys y = bool_decide (y ∈ ys).
Proof.
  unfold includes_number. induction ys as [| y' ys IH].
  - symmetry. apply bool_decide_eq_false_2. apply not_elem_of_nil.
  - cbn [existsb]. rewrite IH. destruct (Z.eqb_spec y' y) as [-> | Hne]; simpl.
    + symmetry. apply bool_decide_eq_true_2. left.
    + apply bool_decide_ext. rewrite elem_of_cons.
      split; [tauto |]. intros [-> | H]; [congruence | exact H].
Qed.

Lemma keeps_year (ys : list Z) (item : ShovelMarketData) :
  keeps fractionToString "year" ((λ y, JNumber (inject_Z y)) <$> ys) item
  = includes_number ys (year item).
Proof.
  assert (Hyear : item_get item "year" = JNumber (inject_Z (year item))) by reflexivity.
  unfold keeps. rewrite Hyear. cbn [String.eqb Ascii.eqb Bool.eqb andb is_number js_String].
  rewrite FilterFacts.Number_toString_int, <- list_fmap_compose.
  rewrite includes_number_spec, <- FilterFacts.existsb_eqb_pretty. f_equal.
  apply list_fmap_ext. intros i y _. simpl. apply FilterFacts.Number_toString_int.
Qed.

Lemma applyEntry_year (ys : list Z) (filtered : list ShovelMarketData) :
  applyEntry fractionToString filtered
    ("year", FArray ((λ y, JNumber (inject_Z y)) <$> ys))
  = narrow ys (λ d, includes_number ys (year d)) filtered.
Proof.
  unfold applyEntry, narrow. rewrite length_fmap.
  destruct (0 <? Z.of_nat (length ys)); [| reflexivity].
  apply filter_ext. intros item. apply keeps_year.
Qed.

Lemma applyEntry_strings (field : string) (read : ShovelMarketData → string)
    (selection : list string) (filtered : list ShovelMarketData) :
  String.eqb field "year" = false →
  (∀ item, item_get item field = JString (read item)) →
  applyEntry fractionToString filtered (stringsEntry field selection)
  = narrow selection (λ d, includes_string selection (read d)) filtered.
Proof.
  intros Hfield Hread. unfold applyEntry, stringsEntry, narrow. rewrite length_fmap.
  destruct (0 <? Z.of_nat (length selection)); [| reflexivity].
  apply filter_ext. intros item. unfold keeps. rewrite Hfield, Hread. simpl.
  apply includes_strings.
Qed.

End PageFilters.

(** The page's own filter and [filterDataframe] agree: [filteredData] returns
    what [filterDataframe] returns for the filter object that lists the same
    selections under the fields the page compares them with (the region
    selection under [country]). *)
Theorem page_filter_is_filterDataframe (fractionToString : Q → string)
    (data : list ShovelMarketData) (filters : Filters) :
  filteredData data filters
  = filterDataframe fractionToString data (filterOptionsOf filters).
Proof.
  unfold filterDataframe, filterOptionsOf, filteredData. cbv zeta. cbn [foldl].
  rewrite applyEntry_year.
  rewrite (applyEntry_strings fractionToString "country" country _ _ eq_refl (λ item, eq_refl)).
  rewrite (applyEntry_strings fractionToString "serviceType" serviceType _ _ eq_refl (λ item, eq_refl)).
  rewrite (applyEntry_strings fractionToString "endUserType" endUserType _ _ eq_refl (λ item, eq_refl)).
  rewrite (applyEntry_strings fractionToString "deliveryChannel" deliveryChannel _ _ eq_refl (λ item, eq_refl)).
  rewrite (applyEntry_strings fractionToString "businessModel" businessModel _ _ eq_refl (λ item, eq_refl)).
  rewrite (applyEntry_strings fractionToString "productType" productType _ _ eq_refl (λ item, eq_refl)).
  rewrite (applyEntry_strings fractionToString "bladeMaterial" bladeMaterial _ _ eq_refl (λ item, eq_refl)).
  rewrite (applyEntry_strings fractionToString "handleLength" handleLength _ _ eq_refl (λ item, eq_refl)).
  rewrite (applyEntry_strings fractionToString "application" application _ _ eq_refl (λ item, eq_refl)).
  rewrite (applyEntry_strings fractionToString "endUser" endUser _ _ eq_refl (λ item, eq_refl)).
  rewrite (applyEntry_strings fractionToString "distributionChannelType" distributionChannelType _ _ eq_refl (λ item, eq_refl)).
  rewrite (applyEntry_strings fractionToString "distributionChannel" distributionChannel _ _ eq_refl (λ item, eq_refl)).
  reflexivity.
Qed.

(** What a selection demands of a value: nothing when it is empty. *)
Definition selected (selection : list string) (v : string) : Prop :=
  selection = [] ∨ v ∈ selection.

Lemma includes_string_spec (selection : list string) (v : string) :
  includes_string selection v = true ↔ v ∈ selection.
Proof.
  unfold includes_string. rewrite existsb_exists. split.
  - intros (w & Hw & Heq). apply String.eqb_eq in Heq. subst w.
    apply list_elem_of_In. exact Hw.
  - intros Hv. exists v. split; [apply list_elem_of_In; exact Hv | apply String.eqb_refl].
Qed.

Lemma narrow_elem {num : Type} (selection : list string)
    (read : ShovelMarketData_ num → string)
    (filtered : list (ShovelMarketData_ num)) (d : ShovelMarketData_ num) :
  d ∈ narrow selection (λ d, includes_string selection (read d)) filtered
  ↔ d ∈ filtered ∧ selected selection (read d).
Proof.
  unfold narrow, selected. destruct selection as [| w selection].
  - simpl. split; [intros Hd; split; [exact Hd | left; reflexivity] | tauto].
  - replace (0 <? Z.of_nat (length (w :: selection))) with true
      by (symmetry; apply Z.ltb_lt; simpl; lia).
    rewrite list_elem_of_In, filter_In, <- list_elem_of_In, includes_string_spec.
    split; [intros [Hd Hv]; split; [exact Hd | right; exact Hv] |].
    intros [Hd [Hnil | Hv]]; [discriminate | split; assumption].
Qed.

Lemma narrow_sublist {num A : Type} (selection : list A)
    (p : ShovelMarketData_ num → bool) (filtered : list (ShovelMarketData_ num)) :
  sublist (narrow selection p filtered) filtered.
Proof.
  unfold narrow. destruct (0 <? Z.of_nat (length selection)); [| reflexivity].
  apply FilterFacts.filter_sublist.
Qed.

(** The attractiveness filter keeps, in their order, exactly the records of
    the years 2025-2032 that every non-empty selection lists; the year window
    applies whatever is selected. *)
Theorem attractiveness_filter_selects {num : Type} (data : list (ShovelMarketData_ num))
    (attractivenessFilters : AttractivenessFilters) :
  sublist (filteredAttractivenessData data attractivenessFilters) data ∧
  ∀ d, d ∈ filteredAttractivenessData data attractivenessFilters ↔
       d ∈ data ∧ 2025 ≤ year d ≤ 2032 ∧
       selected (af_region attractivenessFilters) (region d) ∧
       selected (af_country attractivenessFilters) (country d) ∧
       selected (af_serviceType attractivenessFilters) (serviceType d) ∧
       selected (af_endUserType attractivenessFilters) (endUserType d) ∧
       selected (af_deliveryChannel attractivenessFilters) (deliveryChannel d) ∧
       selected (af_businessModel attractivenessFilters) (businessModel d).
Proof.
  unfold filteredAttractivenessData. cbv zeta. split.
  - do 6 (etrans; [apply narrow_sublist |]). apply FilterFacts.filter_sublist.
  - intros d. rewrite !narrow_elem.
    rewrite list_elem_of_In, filter_In, <- list_elem_of_In.
    rewrite andb_true_iff, Z.leb_le, Z.leb_le. tauto.
Qed.

End PageFilterFacts.

(** ** The year-over-year series *)
Module YoYSeriesFacts.
Import JS DataGenerator Number MarketAnalysis PivotFacts YoYFacts Samples.

Section Series.

Variable selectedSegmentTypes : list string.

(** The maps the [forEach] over the records of one entity builds. *)
Definition yoyMaps (entityFilteredData : list PageRecord)
    : gmap Z (gmap string float) * list Z :=
  foldl (yoyAccumulate selectedSegmentTypes) (∅, []) entityFilteredData.

(** The value a record adds: its market value in millions. *)
Definition yoyValue (d : PageRecord) : float :=
  (number_or (Some (marketValueUsd d)) 0 / 1000)%float.

(** The four segment fields of a record, in the order the page reads them. *)
Definition segmentFields (d : PageRecord) : list string :=
  [serviceType d; endUserType d; deliveryChannel d; businessModel d].

(** A series is kept for the selected, non-empty names. *)
Definition tracked (s : string) : bool :=
  truthy s && bool_decide (s ∈ selectedSegmentTypes).

(** What a list of records adds to the series of [s] in the year [y]: the
    value of each record of that year, once for each of its segment fields
    that carries the name. *)
Definition contributions (s : string) (y : Z) (data : list PageRecord) : list float :=
  List.filter (λ d, Z.eqb (year d) y) data ≫=
    λ d, const (yoyValue d) <$> List.filter (String.eqb s) (segmentFields d).

Lemma yoyEntityData_unfold (data : list PageRecord) :
  yoyEntityData data selectedSegmentTypes
  = let years := sort_numbers (yoyMaps data).2 in
    if (Z.of_nat (length years) <? 2)%Z then None
    else Some (yoyChartData years (yoyMaps data).1 selectedSegmentTypes).
Proof.
  unfold yoyEntityData, yoyMaps.
  destruct (foldl (yoyAccumulate selectedSegmentTypes) (∅, []) data) as [m l].
  reflexivity.
Qed.

(** *** The years *)

Lemma set_of_ext {A} `{EqDecision A} (xs seen1 seen2 : list A) :
  (∀ x, x ∈ seen1 ↔ x ∈ seen2) → set_of xs seen1 = set_of xs seen2.
Proof.
  revert seen1 seen2. induction xs as [| a xs IH]; intros seen1 seen2 Hsame;
    [reflexivity |].
  simpl. destruct (decide (a ∈ seen1)) as [H1 | H1], (decide (a ∈ seen2)) as [H2 | H2].
  - apply IH. exact Hsame.
  - exfalso. apply H2, Hsame, H1.
  - exfalso. apply H1, Hsame, H2.
  - f_equal. apply IH. intros x. rewrite !elem_of_cons, Hsame. reflexivity.
Qed.

Lemma yoyAccumulate_years (data : list PageRecord)
    (acc : gmap Z (gmap string float) * list Z) :
  (foldl (yoyAccumulate selectedSegmentTypes) acc data).2
  = acc.2 ++ set_of (year <$> data) acc.2.
Proof.
  revert acc. induction data as [| d data IH]; intros [m l].
  - simpl. rewrite app_nil_r. reflexivity.
  - simpl foldl. rewrite IH. unfold yoyAccumulate. cbn [snd]. csimpl.
    destruct (decide (year d ∈ l)) as [Hin | Hout].
    + rewrite bool_decide_eq_true_2 by exact Hin. reflexivity.
    + rewrite bool_decide_eq_false_2 by exact Hout.
      rewrite <- app_assoc. simpl. do 2 f_equal.
      apply set_of_ext. intros x. rewrite elem_of_app, !elem_of_cons, elem_of_nil.
      tauto.
Qed.

(** The years of the chart are the years of the pivot. *)
Lemma yoyMaps_years (data : list PageRecord) :
  sort_numbers (yoyMaps data).2 = analysisYears data.
Proof.
  unfold yoyMaps. rewrite yoyAccumulate_years. reflexivity.
Qed.

(** *** The series *)

(** Adding [value] to what a map holds, as [segmentMap.set] does. *)
Definition addTo (acc : option float) (value : float) : option float :=
  Some (number_or acc 0 + value)%float.

Lemma addToSegment_lookup (value : float) (segmentMap : gmap string float)
    (k s : string) :
  addToSegment selectedSegmentTypes value segmentMap k !! s
  = if String.eqb s k && tracked s then addTo (segmentMap !! s) value
    else segmentMap !! s.
Proof.
  unfold addToSegment, tracked.
  destruct (String.eqb_spec s k) as [<- | Hne]; simpl.
  - destruct (truthy s && bool_decide (s ∈ selectedSegmentTypes)); [| reflexivity].
    apply lookup_insert_eq.
  - destruct (truthy k && bool_decide (k ∈ selectedSegmentTypes)); [| reflexivity].
    apply lookup_insert_ne. congruence.
Qed.

Lemma addToSegment_fold (value : float) (names : list string)
    (segmentMap : gmap string float) (s : string) :
  foldl (addToSegment selectedSegmentTypes value) segmentMap names !! s
  = if tracked s
    then foldl addTo (segmentMap !! s) (const value <$> List.filter (String.eqb s) names)
    else segmentMap !! s.
Proof.
  revert segmentMap. induction names as [| k names IH]; intros segmentMap.
  - simpl. destruct (tracked s); reflexivity.
  - simpl foldl. rewrite IH, addToSegment_lookup. cbn [List.filter].
    destruct (tracked s); [| rewrite andb_false_r; reflexivity].
    rewrite andb_true_r. destruct (String.eqb s k); reflexivity.
Qed.

Lemma yoyAccumulate_fst (acc : gmap Z (gmap string float) * list Z) (d : PageRecord) :
  (yoyAccumulate selectedSegmentTypes acc d).1
  = <[year d := foldl (addToSegment selectedSegmentTypes (yoyValue d))
                  (default ∅ (acc.1 !! year d)) (segmentFields d)]> acc.1.
Proof. destruct acc as [m l]. reflexivity. Qed.

Lemma yoyAccumulate_lookup (data : list PageRecord)
    (acc : gmap Z (gmap string float) * list Z) (y : Z) (s : string) :
  default ∅ ((foldl (yoyAccumulate selectedSegmentTypes) acc data).1 !! y) !! s
  = if tracked s
    then foldl addTo (default ∅ (acc.1 !! y) !! s) (contributions s y data)
    else default ∅ (acc.1 !! y) !! s.
Proof.
  unfold contributions. revert acc. induction data as [| d data IH]; intros acc.
  - simpl. destruct (tracked s); reflexivity.
  - change (foldl (yoyAccumulate selectedSegmentTypes) acc (d :: data))
      with (foldl (yoyAccumulate selectedSegmentTypes)
              (yoyAccumulate selectedSegmentTypes acc d) data).
    rewrite IH, yoyAccumulate_fst. cbn [List.filter].
    destruct (Z.eqb_spec (year d) y) as [<- | Hne].
    + rewrite lookup_insert_eq.
      change (default ∅ (Some ?x)) with x.
      rewrite addToSegment_fold.
      destruct (tracked s); [| reflexivity].
      rewrite bind_cons, foldl_app. reflexivity.
    + rewrite lookup_insert_ne by exact Hne. reflexivity.
Qed.

End Series.

(** An entity's records give a year-over-year chart exactly when they span
    at least two distinct years; the chart then has one row per distinct
    year, laid out over the same years as the pivot. *)
Theorem yoy_needs_two_years (entityFilteredData : list PageRecord)
    (selectedSegmentTypes : list string) :
  let years := analysisYears entityFilteredData in
  yoyEntityData entityFilteredData selectedSegmentTypes
  = (if (Z.of_nat (length years) <? 2)%Z then None
     else Some (yoyChartData years (yoyMaps selectedSegmentTypes entityFilteredData).1
                  selectedSegmentTypes)) ∧
  (yoyEntityData entityFilteredData selectedSegmentTypes = None ↔
   ∀ d1 d2, d1 ∈ entityFilteredData → d2 ∈ entityFilteredData → year d1 = year d2) ∧
  (∀ rows, yoyEntityData entityFilteredData selectedSegmentTypes = Some rows →
           length rows = length years).
Proof.
  intros years.
  assert (Hunfold : yoyEntityData entityFilteredData selectedSegmentTypes
            = (if (Z.of_nat (length years) <? 2)%Z then None
               else Some (yoyChartData years
                            (yoyMaps selectedSegmentTypes entityFilteredData).1
                            selectedSegmentTypes))).
  { rewrite yoyEntityData_unfold. cbv zeta. rewrite yoyMaps_years. reflexivity. }
  split; [exact Hunfold |]. rewrite Hunfold.
  pose proof (analysisYears_NoDup entityFilteredData) as Hnd. fold years in Hnd.
  assert (Hspec : ∀ y, y ∈ years ↔ ∃ d, d ∈ entityFilteredData ∧ year d = y)
    by apply analysisYears_spec.
  split.
  - destruct (Z.ltb_spec (Z.of_nat (length years)) 2) as [Hlt | Hge]; split.
    + intros _ d1 d2 Hd1 Hd2.
      assert (H1 : year d1 ∈ years) by (apply Hspec; eauto).
      assert (H2 : year d2 ∈ years) by (apply Hspec; eauto).
      destruct years as [| a [| b rest]]; simpl in Hlt; [| | lia].
      * apply elem_of_nil in H1. destruct H1.
      * apply list_elem_of_singleton in H1, H2. congruence.
    + reflexivity.
    + discriminate.
    + intros Hsame. exfalso.
      destruct years as [| a [| b rest]] eqn:Hyears; simpl in Hge; [lia | lia |].
      assert (Ha : a ∈ a :: b :: rest) by left.
      assert (Hb : b ∈ a :: b :: rest) by (right; left).
      apply Hspec in Ha as (d1 & Hd1 & <-). apply Hspec in Hb as (d2 & Hd2 & <-).
      apply NoDup_cons in Hnd as [Hnot _]. apply Hnot.
      rewrite (Hsame d1 d2 Hd1 Hd2). left.
  - intros rows Hrows.
    destruct (Z.of_nat (length years) <? 2)%Z; [discriminate |].
    injection Hrows as <-. unfold yoyChartData. apply length_imap.
Qed.

(** The series the growth rates are computed from.  For a selected,
    non-empty segment name, the value of a year is the running binary64 sum
    of what the entity's records of that year add, in their order: each
    record adds its value in millions once for each of its four segment
    fields that carries the name.  Every other name has no series, and its
    value reads as [0] in every year. *)
Theorem yoy_series_totals (entityFilteredData : list PageRecord)
    (selectedSegmentTypes : list string) (y : Z) (s : string) :
  let yearSegmentDataMap := (yoyMaps selectedSegmentTypes entityFilteredData).1 in
  seriesValue yearSegmentDataMap y s
  = (if tracked selectedSegmentTypes s
     then number_or (Some (runningSum (contributions s y entityFilteredData))) 0
     else 0%float) ∧
  (tracked selectedSegmentTypes s = false →
   default ∅ (yearSegmentDataMap !! y) !! s = None).
Proof.
  intros yearSegmentDataMap. unfold yearSegmentDataMap, seriesValue, yoyMaps.
  rewrite yoyAccumulate_lookup. cbn [fst]. rewrite lookup_empty. simpl default.
  rewrite lookup_empty. split.
  - destruct (tracked selectedSegmentTypes s); [| reflexivity].
    apply fold_from_none.
  - intros ->. reflexivity.
Qed.

End YoYSeriesFacts.

(** ** The points of the bubble chart *)
Module BubblePointFacts.
Import JS BubbleChart.

Section Points.

Context {num : Type}.

(** The point the chart shows for the [i]-th adjusted bubble. *)
Definition pointOf (i : nat) (d : Bubble num) : BubblePoint num :=
  {| bp_region := region (raw d);
     bp_cagrIndex := cagrIndex d;
     bp_marketShareIndex := marketShareIndex d;
     bp_incrementalOpportunity :=
       if Req_dec_T (incrementalOpportunity (raw d)) 0 then 1000
       else incrementalOpportunity (raw d);
     bp_colorIndex := Z.of_nat i |}.

(** The point of one item, once its bubble [d] is found. *)
Definition pointFor (sortedByOpportunity : list RawBubble) (item : RawBubble)
    (d : Bubble num) : BubblePoint num :=
  {| bp_region := region item;
     bp_cagrIndex := cagrIndex d;
     bp_marketShareIndex := marketShareIndex d;
     bp_incrementalOpportunity :=
       if Req_dec_T (incrementalOpportunity item) 0 then 1000
       else incrementalOpportunity item;
     bp_colorIndex :=
       findIndex (λ d', String.eqb (region d') (region item)) sortedByOpportunity 0 |}.

(** One step of the [map] of [bubbleData] over the items. *)
Definition pointStep (sortedByOpportunity : list RawBubble) (adjusted : list (Bubble num))
    (item : RawBubble) (rest : Completion (list (BubblePoint num)))
    : Completion (list (BubblePoint num)) :=
  let found :=
    match List.find (λ d, String.eqb (region (raw d)) (region item)) adjusted with
    | Some d => Some d
    | None => adjusted !! 0%nat
    end in
  match found, rest with
  | None, _ => Throw "TypeError"
  | _, Throw e => Throw e
  | Some d, Normal points => Normal (pointFor sortedByOpportunity item d :: points)
  end.

Lemma bubbleData_steps (sortedByOpportunity : list RawBubble) (adjusted : list (Bubble num)) :
  bubbleData sortedByOpportunity adjusted
  = foldr (pointStep sortedByOpportunity adjusted) (Normal []) sortedByOpportunity.
Proof. reflexivity. Qed.

Lemma find_by_region (l : list (Bubble num)) (i : nat) (d : Bubble num) :
  NoDup (region <$> (raw <$> l)) → l !! i = Some d →
  List.find (λ d', String.eqb (region (raw d')) (region (raw d))) l = Some d.
Proof.
  revert i. induction l as [| h l IH]; intros i Hnd Hi; [discriminate |].
  csimpl in Hnd. apply NoDup_cons in Hnd as [Hh Hnd].
  destruct i as [| i]; simpl in *.
  - injection Hi as ->. rewrite String.eqb_refl. reflexivity.
  - destruct (String.eqb_spec (region (raw h)) (region (raw d))) as [Heq | _].
    + exfalso. apply Hh. rewrite Heq.
      apply list_elem_of_fmap_2, list_elem_of_fmap_2.
      apply list_elem_of_lookup_2 in Hi. exact Hi.
    + apply (IH i Hnd Hi).
Qed.

Lemma findIndex_by_region (l : list RawBubble) (i : nat) (item : RawBubble) (k : Z) :
  NoDup (region <$> l) → l !! i = Some item →
  findIndex (λ d', String.eqb (region d') (region item)) l k = (k + Z.of_nat i)%Z.
Proof.
  revert i k. induction l as [| h l IH]; intros i k Hnd Hi; [discriminate |].
  csimpl in Hnd. apply NoDup_cons in Hnd as [Hh Hnd].
  destruct i as [| i]; simpl in *.
  - injection Hi as ->. rewrite String.eqb_refl. lia.
  - destruct (String.eqb_spec (region h) (region item)) as [Heq | _].
    + exfalso. apply Hh. rewrite Heq. apply list_elem_of_fmap_2.
      apply list_elem_of_lookup_2 in Hi. exact Hi.
    + rewrite (IH i (k + 1)%Z Hnd Hi). lia.
Qed.

(** When every item finds a bubble, the fold gives one point per item. *)
Lemma pointStep_fold (sortedByOpportunity : list RawBubble) (adjusted : list (Bubble num))
    (G : nat → Bubble num → BubblePoint num) (todo : list (Bubble num)) :
  (∀ i d, todo !! i = Some d →
          List.find (λ d', String.eqb (region (raw d')) (region (raw d))) adjusted = Some d ∧
          pointFor sortedByOpportunity (raw d) d = G i d) →
  foldr (pointStep sortedByOpportunity adjusted) (Normal []) (raw <$> todo)
  = Normal (imap G todo).
Proof.
  revert G. induction todo as [| d todo IH]; intros G HG; [reflexivity |].
  csimpl. rewrite (IH (G ∘ S)) by (intros i d' Hi; apply (HG (S i) d' Hi)).
  destruct (HG 0%nat d eq_refl) as [Hfind Hpoint].
  unfold pointStep. rewrite Hfind, Hpoint. reflexivity.
Qed.

End Points.

(** With distinct names, every item finds its own adjusted bubble again:
    the chart gets one point per bubble, in the order of the ranking; the
    [i]-th point carries the name and the adjusted position of the [i]-th
    bubble and the colour index [i], and its opportunity is never [0] (a
    zero opportunity is shown as [1000]). *)
Theorem bubble_points {num : Type} (sortedByOpportunity : list RawBubble)
    (adjusted : list (Bubble num)) :
  raw <$> adjusted = sortedByOpportunity →
  NoDup (region <$> sortedByOpportunity) →
  bubbleData sortedByOpportunity adjusted = Normal (imap pointOf adjusted) ∧
  ∀ points, bubbleData sortedByOpportunity adjusted = Normal points →
    length points = length sortedByOpportunity ∧
    bp_region <$> points = region <$> sortedByOpportunity ∧
    bp_colorIndex <$> points = Z.of_nat <$> seq 0 (length sortedByOpportunity) ∧
    ∀ p, p ∈ points → bp_incrementalOpportunity p ≠ 0%R.
Proof.
  intros Hraw Hnd.
  assert (Hpoints : bubbleData sortedByOpportunity adjusted = Normal (imap pointOf adjusted)).
  { rewrite bubbleData_steps. rewrite <- Hraw at 2. apply pointStep_fold.
    intros i d Hi. rewrite <- Hraw in Hnd. split.
    - apply (find_by_region adjusted i d Hnd Hi).
    - unfold pointFor, pointOf. f_equal. rewrite <- Hraw.
      rewrite (findIndex_by_region (raw <$> adjusted) i (raw d) 0 Hnd); [lia |].
      rewrite list_lookup_fmap, Hi. reflexivity. }
  split; [exact Hpoints |].
  intros points Hnormal. rewrite Hpoints in Hnormal. injection Hnormal as <-.
  rewrite <- Hraw. rewrite length_imap, length_fmap.
  split; [reflexivity |]. split; [| split].
  - apply list_eq. intros i.
    rewrite !list_lookup_fmap, list_lookup_imap.
    destruct (adjusted !! i); reflexivity.
  - apply list_eq. intros i.
    rewrite !list_lookup_fmap, list_lookup_imap.
    destruct (adjusted !! i) as [d |] eqn:Hi.
    + rewrite lookup_seq_lt by (apply lookup_lt_Some in Hi; exact Hi). reflexivity.
    + rewrite lookup_seq_ge by (apply lookup_ge_None in Hi; exact Hi). reflexivity.
  - intros p Hp. apply elem_of_lookup_imap in Hp as (i & d & -> & _).
    unfold pointOf. cbn [bp_incrementalOpportunity].
    destruct (Req_dec_T (incrementalOpportunity (raw d)) 0) as [_ | Hne]; [lra | exact Hne].
Qed.

(** Two adjusted bubbles, in the order of the ranking. *)
Definition adjustedExample : list (Bubble float) :=
  [ {| raw := LayoutFacts.rawAt "B" 25 30 7; cagrIndex := 8%float; marketShareIndex := 8%float |};
    {| raw := LayoutFacts.rawAt "A" 0 0 0; cagrIndex := 2%float; marketShareIndex := 2%float |} ].

Lemma bubble_points_witness :
  bubbleData (raw <$> adjustedExample) adjustedExample
  = Normal (imap pointOf adjustedExample) ∧
  bp_region <$> imap pointOf adjustedExample = ["B"; "A"].
Proof.
  split; [| reflexivity].
  apply (bubble_points (raw <$> adjustedExample) adjustedExample eq_refl).
  apply (bool_decide_unpack _). vm_compute. reflexivity.
Defined.

End BubblePointFacts.
